(** * Spectral heat current (SHC): a shallow embedding of [src/measure/shc.cu]

    The engine keeps a ring buffer of per-particle flux and velocity
    samples and, once the buffer has been filled, correlates the newest
    sample against every slot of the buffer with a block-per-lag reduction
    kernel.  The embedding follows the source function by function:
    [preprocess], [gpu_find_k], [gpu_copy_data], [process], [postprocess]
    and [parse].

    Conventions.
    - C [int] values are [Z]; the source's [/] and [%] truncate toward
      zero, so they are [Z.quot] and [Z.rem].  No claim studied here
      depends on 32-bit wrap-around and it is not modelled; the checked
      execution defined further down treats an [int] result outside 32
      bits as a failure.
    - [double] is an abstract scalar type (class [Scalar]); nothing below
      assumes an algebraic law of it, so every generic theorem holds for
      IEEE arithmetic as well.  The exact instance [Q_Scalar] is used where
      concrete sums are evaluated.
    - Device arrays are lists read and written by [Z] index.  An access
      outside the array is undefined behaviour in the source; the model
      reads the element type's default there and ignores such a write, and
      the checked execution fails there. *)

From Stdlib Require Import String QArith ZArith List Lia Bool FinFun Permutation.
From Stdlib Require DecimalString.
Import ListNotations.
Open Scope Z_scope.

Set Implicit Arguments.

(** ** Scalars *)

Class Scalar (D : Type) := {
  dzero : D;
  dadd : D -> D -> D;
  dmul : D -> D -> D;
  dof_int : Z -> D;
  ddiv : D -> D -> D
}.

#[export] Instance Q_Scalar : Scalar Q := {|
  dzero := 0%Q;
  dadd := Qplus;
  dmul := Qmult;
  dof_int := inject_Z;
  ddiv := Qdiv
|}.

(** ** Arrays indexed by [int] *)

Module Arr.

Section WithA.
Context {A : Type}.

Fixpoint upd (l : list A) (i : nat) (x : A) : list A :=
    match l, i with
    | [], _ => []
    | _ :: t, O => x :: t
    | h :: t, S j => h :: upd t j x
    end.

  (** [l[i]] *)
Definition get (d : A) (l : list A) (i : Z) : A :=
    if i <? 0 then d else nth (Z.to_nat i) l d.

  (** [l[i] = x] *)
Definition set (l : list A) (i : Z) (x : A) : list A :=
    if i <? 0 then l else upd l (Z.to_nat i) x.

End WithA.

(** The index range [0, n) of a [for (int i = 0; i < n; ++i)] loop, of the
    blocks of a grid, or of the threads of a block. *)
Definition range (n : Z) : list Z := map Z.of_nat (seq 0 (Z.to_nat n)).

End Arr.

Abbreviation len l := (Z.of_nat (length l)).

(** ** Device pointers and kernel launches *)

(** A [const double*] kernel argument: an array together with the element
    offset the host added to its [data()] pointer. *)
Record Ptr (D : Type) := mkPtr { p_arr : list D; p_base : Z }.

Section Kernels.
Context {D : Type} {SD : Scalar D}.

Definition deref (p : Ptr D) (i : Z) : D := Arr.get dzero (p_arr p) (p_base p + i).

  (** [data() + k] *)
Definition data_at (a : list D) (k : Z) : Ptr D := mkPtr a k.

Definition BLOCK_SIZE_SHC : Z := 128.

  (** *** [gpu_find_k] *)

  (** The thread-private loop of lines 74-83: thread [tid] of block [bid]
      visits the particles [tid], [tid + 128], ... below [group_size]. *)
Definition find_k_round (group_size size_sum tid : Z)
      (g_sx g_sy g_sz g_vx g_vy g_vz : Ptr D) (k : D * D) (round : Z) : D * D :=
    let n := tid + round * BLOCK_SIZE_SHC in
    if n <? group_size then
      (dadd (fst k)
         (dadd (dmul (deref g_sx n) (deref g_vx (size_sum + n)))
               (dmul (deref g_sy n) (deref g_vy (size_sum + n)))),
       dadd (snd k) (dmul (deref g_sz n) (deref g_vz (size_sum + n))))
    else k.

Definition find_k_thread (group_size bid tid : Z)
      (g_sx g_sy g_sz g_vx g_vy g_vz : Ptr D) : D * D :=
    let size_sum := bid * group_size in
    let number_of_rounds := Z.quot (group_size - 1) BLOCK_SIZE_SHC + 1 in
    fold_left (find_k_round group_size size_sum tid g_sx g_sy g_sz g_vx g_vy g_vz)
              (Arr.range number_of_rounds) (dzero, dzero).

  (** One pass of the shared-memory reduction between two barriers: every
      thread below [offset] adds the element [offset] places above its own.
      The elements read lie at [offset] or above and the elements written
      lie below it, so the threads of a pass do not interfere. *)
Definition tree_pass (offset : Z) (s : list D) : list D :=
    map (fun tid =>
           if tid <? offset
           then dadd (Arr.get dzero s tid) (Arr.get dzero s (tid + offset))
           else Arr.get dzero s tid)
        (Arr.range (len s)).

  (** [for (offset = blockDim.x >> 1; offset > 0; offset >>= 1)]: the
      halving of a positive number is its tail of binary digits. *)
Fixpoint tree_loop (offset : positive) (s : list D) : list D :=
    let s' := tree_pass (Zpos offset) s in
    match offset with
    | xH => s'
    | xO q | xI q => tree_loop q s'
    end.

Definition tree_reduce (blockDim : Z) (s : list D) : list D :=
    match Z.shiftr blockDim 1 with
    | Zpos p => tree_loop p s
    | _ => s
    end.

  (** The pair [(s_ki[0], s_ko[0])] that thread 0 of block [bid] holds after
      the reduction. *)
Definition find_k_block_sum (blockDim group_size bid : Z)
      (g_sx g_sy g_sz g_vx g_vy g_vz : Ptr D) : D * D :=
    let part := map (fun tid => find_k_thread group_size bid tid
                                  g_sx g_sy g_sz g_vx g_vy g_vz)
                    (Arr.range blockDim) in
    (Arr.get dzero (tree_reduce blockDim (map fst part)) 0,
     Arr.get dzero (tree_reduce blockDim (map snd part)) 0).

  (** Lines 96-104: the accumulator element block [bid] adds into. *)
Definition find_k_target (gridDim correlation_step bid : Z) : Z :=
    if bid <=? correlation_step
    then correlation_step - bid
    else correlation_step + gridDim - bid.

Definition find_k_block (gridDim blockDim group_size correlation_step : Z)
      (g_sx g_sy g_sz g_vx g_vy g_vz : Ptr D)
      (g : list D * list D) (bid : Z) : list D * list D :=
    let s := find_k_block_sum blockDim group_size bid g_sx g_sy g_sz g_vx g_vy g_vz in
    let t := find_k_target gridDim correlation_step bid in
    (Arr.set (fst g) t (dadd (Arr.get dzero (fst g) t) (fst s)),
     Arr.set (snd g) t (dadd (Arr.get dzero (snd g) t) (snd s))).

  (** [gpu_find_k<<<gridDim, blockDim>>>(...)]; the result is the pair
      [(g_ki, g_ko)] after the launch.  The blocks are taken in index
      order; lemma [find_k_target_inj] shows that no two of them touch
      the same element, so the order is immaterial. *)
Definition gpu_find_k (gridDim blockDim group_size correlation_step : Z)
      (g_sx g_sy g_sz g_vx g_vy g_vz : Ptr D)
      (g_ki g_ko : list D) : list D * list D :=
    fold_left (find_k_block gridDim blockDim group_size correlation_step
                 g_sx g_sy g_sz g_vx g_vy g_vz)
              (Arr.range gridDim) (g_ki, g_ko).

  (** *** [gpu_copy_data] *)

  (** The six output pages, all based at the same slot offset. *)
Record Bufs := mkBufs {
    b_sx : list D; b_sy : list D; b_sz : list D;
    b_vx : list D; b_vy : list D; b_vz : list D
  }.

Definition copy_data_thread (blockDim group_size offset : Z) (g_group_contents : list Z)
      (o_base : Z) (g_sx_i g_sy_i g_sz_i g_vx_i g_vy_i g_vz_i : Ptr D)
      (bid : Z) (o : Bufs) (tid : Z) : Bufs :=
    let n := tid + bid * blockDim in
    if n <? group_size then
      let m := Arr.get 0 g_group_contents (offset + n) in
      {| b_sx := Arr.set (b_sx o) (o_base + n) (deref g_sx_i m);
         b_sy := Arr.set (b_sy o) (o_base + n) (deref g_sy_i m);
         b_sz := Arr.set (b_sz o) (o_base + n) (deref g_sz_i m);
         b_vx := Arr.set (b_vx o) (o_base + n) (deref g_vx_i m);
         b_vy := Arr.set (b_vy o) (o_base + n) (deref g_vy_i m);
         b_vz := Arr.set (b_vz o) (o_base + n) (deref g_vz_i m) |}
    else o.

  (** [gpu_copy_data<<<gridDim, blockDim>>>(...)]: the output pointers are
      the six ring-buffer arrays advanced by [o_base]. *)
Definition gpu_copy_data (gridDim blockDim group_size offset : Z)
      (g_group_contents : list Z) (o_base : Z)
      (g_sx_i g_sy_i g_sz_i g_vx_i g_vy_i g_vz_i : Ptr D) (o : Bufs) : Bufs :=
    fold_left
      (fun o bid =>
         fold_left (copy_data_thread blockDim group_size offset g_group_contents o_base
                      g_sx_i g_sy_i g_sz_i g_vx_i g_vy_i g_vz_i bid)
                   (Arr.range blockDim) o)
      (Arr.range gridDim) o.

  (** The values [threadIdx.x + blockIdx.x * blockDim.x] of a launch, in
      the order the model visits its threads. *)
Definition thread_ids (gridDim blockDim : Z) : list Z :=
    flat_map (fun bid => map (fun tid => tid + bid * blockDim) (Arr.range blockDim))
             (Arr.range gridDim).

  (** [cudaMemcpy(dst + doff, src, sizeof(double) * n, ...)] *)
Definition cudaMemcpy (dst : list D) (doff : Z) (src : Ptr D) (n : Z) : list D :=
    fold_left (fun d i => Arr.set d (doff + i) (deref src i)) (Arr.range n) dst.

End Kernels.

(** ** The engine *)

(** One grouping method of the particle registry (model/group.cuh), with
    the three members this file reads: the size of each group, the start of
    each group in [contents], and the particle indices group by group. *)
Record Group := mkGroup {
  cpu_size : list Z;
  cpu_size_sum : list Z;
  contents : list Z
}.

Definition no_group : Group := mkGroup [] [] [].

Section Engine.
Context {D : Type} {SD : Scalar D}.

  (** The data members of [class SHC]. *)
Record SHC := mkSHC {
    compute : bool;
    sample_interval : Z;
    Nc : Z;
    direction : Z;
    group_method : Z;
    group_id : Z;
    group_size : Z;
    num_time_origins : Z;
    vx : list D; vy : list D; vz : list D;
    sx : list D; sy : list D; sz : list D;
    ki_negative : list D; ko_negative : list D;
    ki_positive : list D; ko_positive : list D
  }.

  (** [GPU_Vector::resize(n)] gives no promise about the new elements;
      [junk] stands for whatever the allocation holds. *)
Definition resize (junk : Z -> D) (n : Z) : list D := map junk (Arr.range n).

  (** [GPU_Vector::resize(n, value, ...)] *)
Definition resize_fill (n : Z) (value : D) : list D := repeat value (Z.to_nat n).

  (** *** [SHC::preprocess] *)
Definition preprocess (junk : Z -> Z -> D) (N : Z) (group : list Group) (s : SHC) : SHC :=
    if negb (compute s) then s else
    let group_size' :=
      if -1 =? group_method s then N
      else Arr.get 0 (cpu_size (Arr.get no_group group (group_method s))) (group_id s) in
    {| compute := compute s;
       sample_interval := sample_interval s;
       Nc := Nc s;
       direction := direction s;
       group_method := group_method s;
       group_id := group_id s;
       group_size := group_size';
       num_time_origins := 0;
       vx := resize (junk 0) (group_size' * Nc s);
       vy := resize (junk 1) (group_size' * Nc s);
       vz := resize (junk 2) (group_size' * Nc s);
       sx := resize (junk 3) (group_size' * Nc s);
       sy := resize (junk 4) (group_size' * Nc s);
       sz := resize (junk 5) (group_size' * Nc s);
       ki_negative := resize_fill (Nc s) dzero;
       ko_negative := resize_fill (Nc s) dzero;
       ki_positive := resize_fill (Nc s) dzero;
       ko_positive := resize_fill (Nc s) dzero |}.

  (** *** [SHC::process] *)

  (** [const int tensor[3][3] = {0, 3, 4, 6, 1, 5, 7, 8, 2};] *)
Definition tensor : list (list Z) := [[0; 3; 4]; [6; 1; 5]; [7; 8; 2]].

Definition tensor_at (d j : Z) : Z := Arr.get 0 (Arr.get [] tensor d) j.

Definition ring_of (s : SHC) : Bufs :=
    mkBufs (sx s) (sy s) (sz s) (vx s) (vy s) (vz s).

Definition with_ring (s : SHC) (b : Bufs) : SHC :=
    {| compute := compute s;
       sample_interval := sample_interval s;
       Nc := Nc s;
       direction := direction s;
       group_method := group_method s;
       group_id := group_id s;
       group_size := group_size s;
       num_time_origins := num_time_origins s;
       vx := b_vx b; vy := b_vy b; vz := b_vz b;
       sx := b_sx b; sy := b_sy b; sz := b_sz b;
       ki_negative := ki_negative s; ko_negative := ko_negative s;
       ki_positive := ki_positive s; ko_positive := ko_positive s |}.

  (** Lines 149-151. *)
Definition sample_step_of (s : SHC) (step : Z) : Z := Z.quot step (sample_interval s).
Definition correlation_step_of (s : SHC) (step : Z) : Z :=
    Z.rem (sample_step_of s step) (Nc s).
Definition offset_of (s : SHC) (step : Z) : Z :=
    correlation_step_of s step * group_size s.

  (** Lines 153-176: the new sample is stored in the current page. *)
Definition store_sample (step : Z) (group : list Group)
      (velocity_per_atom virial_per_atom : list D) (s : SHC) : SHC :=
    let offset := offset_of s step in
    let N := Z.quot (len velocity_per_atom) 3 in
    let sx_tmp := data_at virial_per_atom (N * tensor_at (direction s) 0) in
    let sy_tmp := data_at virial_per_atom (N * tensor_at (direction s) 1) in
    let sz_tmp := data_at virial_per_atom (N * tensor_at (direction s) 2) in
    let vx_tmp := data_at velocity_per_atom 0 in
    let vy_tmp := data_at velocity_per_atom N in
    let vz_tmp := data_at velocity_per_atom (N * 2) in
    if -1 =? group_method s then
      with_ring s
        {| b_sx := cudaMemcpy (sx s) offset sx_tmp N;
           b_sy := cudaMemcpy (sy s) offset sy_tmp N;
           b_sz := cudaMemcpy (sz s) offset sz_tmp N;
           b_vx := cudaMemcpy (vx s) offset vx_tmp N;
           b_vy := cudaMemcpy (vy s) offset vy_tmp N;
           b_vz := cudaMemcpy (vz s) offset vz_tmp N |}
    else
      let g := Arr.get no_group group (group_method s) in
      with_ring s
        (gpu_copy_data (Z.quot (group_size s - 1) BLOCK_SIZE_SHC + 1) BLOCK_SIZE_SHC
           (group_size s) (Arr.get 0 (cpu_size_sum g) (group_id s)) (contents g)
           offset sx_tmp sy_tmp sz_tmp vx_tmp vy_tmp vz_tmp (ring_of s)).

  (** Lines 179-189: one more time origin and the two reduction launches. *)
Definition reduce (step : Z) (s : SHC) : SHC :=
    let correlation_step := correlation_step_of s step in
    let offset := offset_of s step in
    let neg :=
      gpu_find_k (Nc s) BLOCK_SIZE_SHC (group_size s) correlation_step
        (data_at (sx s) offset) (data_at (sy s) offset) (data_at (sz s) offset)
        (data_at (vx s) 0) (data_at (vy s) 0) (data_at (vz s) 0)
        (ki_negative s) (ko_negative s) in
    let pos :=
      gpu_find_k (Nc s) BLOCK_SIZE_SHC (group_size s) correlation_step
        (data_at (vx s) offset) (data_at (vy s) offset) (data_at (vz s) offset)
        (data_at (sx s) 0) (data_at (sy s) 0) (data_at (sz s) 0)
        (ki_positive s) (ko_positive s) in
    {| compute := compute s;
       sample_interval := sample_interval s;
       Nc := Nc s;
       direction := direction s;
       group_method := group_method s;
       group_id := group_id s;
       group_size := group_size s;
       num_time_origins := num_time_origins s + 1;
       vx := vx s; vy := vy s; vz := vz s;
       sx := sx s; sy := sy s; sz := sz s;
       ki_negative := fst neg; ko_negative := snd neg;
       ki_positive := fst pos; ko_positive := snd pos |}.

Definition process (step : Z) (group : list Group)
      (velocity_per_atom virial_per_atom : list D) (s : SHC) : SHC :=
    if negb (compute s) then s
    else if negb (Z.rem (step + 1) (sample_interval s) =? 0) then s
    else
      let s1 := store_sample step group velocity_per_atom virial_per_atom s in
      if Nc s - 1 <=? sample_step_of s step then reduce step s1 else s1.

  (** *** [SHC::postprocess] *)

  (** One line of [shc.out]: the four values printed for one lag. *)
Definition shc_line (s : SHC) (nc : Z) : D * D * D * D :=
    (ddiv (Arr.get dzero (ki_negative s) nc) (dof_int (num_time_origins s)),
     ddiv (Arr.get dzero (ko_negative s) nc) (dof_int (num_time_origins s)),
     ddiv (Arr.get dzero (ki_positive s) nc) (dof_int (num_time_origins s)),
     ddiv (Arr.get dzero (ko_positive s) nc) (dof_int (num_time_origins s))).

  (** The file is opened in append mode; the result is the engine after
      the call and the file after the call. *)
Definition postprocess (s : SHC) (file : list (D * D * D * D))
      : SHC * list (D * D * D * D) :=
    if negb (compute s) then (s, file)
    else
      ({| compute := false;
          sample_interval := sample_interval s;
          Nc := Nc s;
          direction := direction s;
          group_method := -1;
          group_id := group_id s;
          group_size := group_size s;
          num_time_origins := num_time_origins s;
          vx := vx s; vy := vy s; vz := vz s;
          sx := sx s; sy := sy s; sz := sz s;
          ki_negative := ki_negative s; ko_negative := ko_negative s;
          ki_positive := ki_positive s; ko_positive := ko_positive s |},
       file ++ map (shc_line s) (Arr.range (Nc s))).

End Engine.

Arguments SHC D : clear implicits.
Arguments Bufs D : clear implicits.
Arguments find_k_block_sum : simpl never.
Arguments gpu_find_k : simpl never.
Arguments gpu_copy_data : simpl never.
Arguments cudaMemcpy : simpl never.

(** ** [SHC::parse] *)

(** [PRINT_INPUT_ERROR] (utilities/error.cuh) reports the message and ends
    the program: no engine exists after it. *)
Inductive result (A : Type) : Type :=
| Ok (a : A)
| Fatal (msg : string).
Arguments Ok {A} a.
Arguments Fatal {A} msg.

Definition is_fatal {A} (r : result A) : bool :=
  match r with Ok _ => false | Fatal _ => true end.

Section Parse.
Context {D : Type}.

  (** [is_valid_int(s, &x)] (utilities/read_file.cuh): [Some v] when [s]
      is an integer literal, stored as [v] in [x]; [None] when it returns 0. *)
Variable is_valid_int : string -> option Z.

  (** [parse_group(param, num_param, allow_all, groups, k, method, id)]
      (parse_utilities.cuh): [Some (method, id)] when the selector that
      follows the keyword at [param[k]] is accepted, [None] when it ends the
      program with an input error.  On return [k] has moved past the two
      selector arguments. *)
Variable parse_group :
    list string -> Z -> bool -> list Group -> Z -> option (Z * Z).

Definition set_config (s : SHC D) (c : bool) (si n d gm gi : Z) : SHC D :=
    {| compute := c;
       sample_interval := si;
       Nc := n;
       direction := d;
       group_method := gm;
       group_id := gi;
       group_size := group_size s;
       num_time_origins := num_time_origins s;
       vx := vx s; vy := vy s; vz := vz s;
       sx := sx s; sy := sy s; sz := sz s;
       ki_negative := ki_negative s; ko_negative := ko_negative s;
       ki_positive := ki_positive s; ko_positive := ko_positive s |}.

  (** Lines 262-268.  [fuel] bounds the number of iterations; [k] grows
      by three per iteration, so [num_param] iterations always suffice. *)
Fixpoint parse_keywords (fuel : nat) (param : list string) (num_param : Z)
      (groups : list Group) (k : Z) (s : SHC D) : result (SHC D) :=
    if k <? num_param then
      match fuel with
      | O => Fatal "compute_shc: keyword loop did not finish."
      | S fuel' =>
          if String.eqb (Arr.get EmptyString param k) "group" then
            match parse_group param num_param false groups k with
            | Some (gm, gi) =>
                parse_keywords fuel' param num_param groups (k + 2 + 1)
                  (set_config s (compute s) (sample_interval s) (Nc s)
                     (direction s) gm gi)
            | None => Fatal "parse_group: input error."
            end
          else Fatal "Unrecognized argument in compute_shc.\n"
      end
    else Ok s.

Definition parse (param : list string) (groups : list Group) (s : SHC D)
      : result (SHC D) :=
    let num_param := len param in
    if negb (num_param =? 4) && negb (num_param =? 7) then
      Fatal "compute_shc should have 3 or 6 parameters."
    else
      match is_valid_int (Arr.get EmptyString param 1) with
      | None => Fatal "Sampling interval for SHC should be an integer."
      | Some si =>
        if si <? 1 then Fatal "Sampling interval for SHC should >= 1."
        else if 10 <? si then Fatal "Sampling interval for SHC should <= 10 (trust me)."
        else
          match is_valid_int (Arr.get EmptyString param 2) with
          | None => Fatal "Nc for SHC should be an integer."
          | Some n =>
            if n <? 100 then Fatal "Nc for SHC should >= 100 (trust me)."
            else if 1000 <? n then Fatal "Nc for SHC should <= 1000 (trust me)."
            else
              match is_valid_int (Arr.get EmptyString param 3) with
              | None => Fatal "direction for SHC should be an integer."
              | Some d =>
                if (d =? 0) || (d =? 1) || (d =? 2) then
                  parse_keywords (Z.to_nat num_param) param num_param groups 4
                    (set_config s true si n d (group_method s) (group_id s))
                else Fatal "Transport direction should be x or y or z."
              end
          end
      end.

End Parse.

(** Decimal integer literals, the inputs on which [is_valid_int] is
    exercised below. *)
Definition decimal_int (s : string) : option Z :=
  option_map Z.of_int (DecimalString.NilZero.int_of_string s).

(** Modelled from the spec: [parse_group] lives in parse_utilities.cuh,
    which is not among the sources.  Section 6 describes the selector as
    resolved against the group registry, which exposes a particle count and
    an index list per subset, and section 3 requires invalid combinations
    to be rejected before any buffer is allocated: the two arguments after
    the keyword name a grouping method and a group of it, and the selector
    is accepted exactly when the registry has that group. *)
Definition registry_parse_group (is_valid_int : string -> option Z)
    (param : list string) (num_param : Z) (allow_all : bool)
    (groups : list Group) (k : Z) : option (Z * Z) :=
  match is_valid_int (Arr.get EmptyString param (k + 1)),
        is_valid_int (Arr.get EmptyString param (k + 2)) with
  | Some gm, Some gi =>
      if (0 <=? gm) && (gm <? len groups) && (0 <=? gi)
         && (gi <? len (cpu_size (Arr.get no_group groups gm)))
      then Some (gm, gi) else None
  | _, _ => None
  end.


(** ** The simulation loop *)

Section Driver.
Context {D : Type} {SD : Scalar D}.

  (** Modelled from the spec: the loop that calls [process] is not among
      the sources.  Sections 2 and 6: every step the outer loop hands the
      engine the velocity array, the virial array and a step counter.  The
      counter starts at 0, as the comment on line 149 lists the sample
      steps from 0 on.  [run ... T s] is the engine after steps
      [0, ..., T-1]. *)
Definition run (group : list Group) (velocity virial : Z -> list D)
      (T : Z) (s : SHC D) : SHC D :=
    fold_left (fun s step => process step group (velocity step) (virial step) s)
              (Arr.range T) s.

  (** A step at which line 146 lets the call through. *)
Definition is_sampling_step (interval step : Z) : bool :=
    Z.rem (step + 1) interval =? 0.

  (** The number of samples stored during steps [0, ..., T-1]. *)
Definition samples_written (interval T : Z) : Z :=
    len (filter (is_sampling_step interval) (Arr.range T)).

  (** The global particle index that tracked particle [n] is read from. *)
Definition source_index (s : SHC D) (group : list Group) (n : Z) : Z :=
    if -1 =? group_method s then n
    else
      let g := Arr.get no_group group (group_method s) in
      Arr.get 0 (contents g) (Arr.get 0 (cpu_size_sum g) (group_id s) + n).

  (** The number of elements a call stores into each page. *)
Definition stored_count (s : SHC D) (velocity_per_atom : list D) : Z :=
    if -1 =? group_method s then Z.quot (len velocity_per_atom) 3
    else group_size s.

  (** The sizes [preprocess] establishes and [parse] checks. *)
Record well_sized (s : SHC D) : Prop := {
    ws_interval : 0 < sample_interval s;
    ws_Nc : 0 < Nc s;
    ws_group_size : 0 <= group_size s;
    ws_sx : len (sx s) = group_size s * Nc s;
    ws_sy : len (sy s) = group_size s * Nc s;
    ws_sz : len (sz s) = group_size s * Nc s;
    ws_vx : len (vx s) = group_size s * Nc s;
    ws_vy : len (vy s) = group_size s * Nc s;
    ws_vz : len (vz s) = group_size s * Nc s;
    ws_ki_negative : len (ki_negative s) = Nc s;
    ws_ko_negative : len (ko_negative s) = Nc s;
    ws_ki_positive : len (ki_positive s) = Nc s;
    ws_ko_positive : len (ko_positive s) = Nc s
  }.

  (** Particle [m] has the same three velocity components and the same
      nine virial components in two inputs of [N] particles each. *)
Definition same_particle (N : Z) (vel1 vir1 vel2 vir2 : list D) (m : Z) : Prop :=
    (forall p, 0 <= p < 3 ->
       Arr.get dzero vel1 (N * p + m) = Arr.get dzero vel2 (N * p + m)) /\
    (forall p, 0 <= p < 9 ->
       Arr.get dzero vir1 (N * p + m) = Arr.get dzero vir2 (N * p + m)).

End Driver.

(** ** Stress components and page layouts *)

Inductive axis : Type := X | Y | Zax.

Definition axis_of (d : Z) : axis :=
  if d =? 0 then X else if d =? 1 then Y else Zax.

(** A layout names the stress component [(row, column)] held by each of
    the nine pages of the virial array. *)
Definition layout := list (axis * axis).

(** The row layout as section 6 of the specification writes it:
    [xx, yy, zz, xy, yz, zx, yx, zy, zx]. *)
Definition spec_layout : layout :=
  [(X, X); (Y, Y); (Zax, Zax); (X, Y); (Y, Zax); (Zax, X); (Y, X); (Zax, Y); (Zax, X)].

(** The layout under which [tensor] selects a row of the stress tensor:
    [xx, yy, zz, xy, xz, yz, yx, zx, zy]. *)
Definition row_layout : layout :=
  [(X, X); (Y, Y); (Zax, Zax); (X, Y); (X, Zax); (Y, Zax); (Y, X); (Zax, X); (Zax, Y)].

Definition page_component (l : layout) (page : Z) : option (axis * axis) :=
  if page <? 0 then None else nth_error l (Z.to_nat page).

(** The pages [tensor] selects for direction [d] hold row [d] under [l]. *)
Definition selects_rows (l : layout) : Prop :=
  forall d j, 0 <= d < 3 -> 0 <= j < 3 ->
    page_component l (tensor_at d j) = Some (axis_of d, axis_of j).

(** ** Small engines used to exercise the statements *)

(** An engine object on which [parse] has not run yet; [parse] overwrites
    every field it reads. *)
Definition blank : SHC Q :=
  mkSHC false 0 0 0 (-1) 0 0 0 [] [] [] [] [] [] [] [] [] [].

(** Three lags, two tracked particles, all particles tracked. *)
Definition tiny : SHC Q :=
  mkSHC true 1 3 0 (-1) 0 2 0
    (repeat 0%Q 6) (repeat 0%Q 6) (repeat 0%Q 6)
    (repeat 0%Q 6) (repeat 0%Q 6) (repeat 0%Q 6)
    (repeat 0%Q 3) (repeat 0%Q 3) (repeat 0%Q 3) (repeat 0%Q 3).

(** Two particles with velocity (1, 0, 0) and nine virial pages of which
    only the first is non-zero. *)
Definition unit_velocity : list Q := [1; 1; 0; 0; 0; 0]%Q.
Definition unit_virial : list Q :=
  [1; 1; 0; 0; 0; 0; 0; 0; 0; 0; 0; 0; 0; 0; 0; 0; 0; 0]%Q.

(** A command line whose three numbers are in range and whose keyword is
    [group], naming grouping method 5. *)
Definition selector_params : list string :=
  ["compute_shc"; "1"; "100"; "0"; "group"; "5"; "0"]%string.

(** The plain command line: interval 1, 100 lags, direction x. *)
Definition plain_params : list string :=
  ["compute_shc"; "1"; "100"; "0"]%string.

(** The engine [parse] makes of the plain command line. *)
Definition configured : SHC Q :=
  match parse decimal_int (registry_parse_group decimal_int) plain_params [] blank with
  | Ok s => s
  | Fatal _ => blank
  end.

(** Every tracked particle has velocity (1, 0, 0) and, for transport
    direction x, flux (1, 0, 0): pages 0, 3 and 4 of the virial array. *)
Definition unit_sample (s : SHC Q) (group : list Group) (vel vir : list Q) : Prop :=
  forall n, 0 <= n < group_size s ->
    let m := source_index s group n in
    let N := Z.quot (len vel) 3 in
    Arr.get 0%Q vel (0 + m) = 1%Q /\
    Arr.get 0%Q vel (N + m) = 0%Q /\
    Arr.get 0%Q vel (N * 2 + m) = 0%Q /\
    Arr.get 0%Q vir (N * 0 + m) = 1%Q /\
    Arr.get 0%Q vir (N * 3 + m) = 0%Q /\
    Arr.get 0%Q vir (N * 4 + m) = 0%Q.

(** Page [k] of the ring buffer holds flux (1, 0, 0) and velocity
    (1, 0, 0) for every tracked particle. *)
Definition unit_page (s : SHC Q) (k : Z) : Prop :=
  forall n, 0 <= n < group_size s ->
    let i := k * group_size s + n in
    Arr.get 0%Q (sx s) i = 1%Q /\ Arr.get 0%Q (sy s) i = 0%Q /\
    Arr.get 0%Q (sz s) i = 0%Q /\ Arr.get 0%Q (vx s) i = 1%Q /\
    Arr.get 0%Q (vy s) i = 0%Q /\ Arr.get 0%Q (vz s) i = 0%Q.

(** A system of ten particles with one grouping method of two groups;
    group 0 holds particles 2, 5 and 7. *)
Definition ten_groups : list Group :=
  [mkGroup [3; 7] [0; 3] [2; 5; 7; 0; 1; 3; 4; 6; 8; 9]].

(** Three lags, tracking group 0 of [ten_groups]. *)
Definition subset_engine : SHC Q :=
  mkSHC true 1 3 0 0 0 3 0
    (repeat 0%Q 9) (repeat 0%Q 9) (repeat 0%Q 9)
    (repeat 0%Q 9) (repeat 0%Q 9) (repeat 0%Q 9)
    (repeat 0%Q 3) (repeat 0%Q 3) (repeat 0%Q 3) (repeat 0%Q 3).

Definition tracked (m : Z) : bool := (m =? 2) || (m =? 5) || (m =? 7).

(** An input of ten particles whose element [k] is [k + 1], and the same
    input with every particle outside the group set to zero. *)
Definition ramp (pages : Z) : list Q :=
  map (fun k => inject_Z (k + 1)) (Arr.range (pages * 10)).
Definition masked_ramp (pages : Z) : list Q :=
  map (fun k => if tracked (k mod 10) then inject_Z (k + 1) else 0%Q)
      (Arr.range (pages * 10)).

(** ** Launch orders and running totals *)

Section Orders.
Context {D : Type} {SD : Scalar D}.

(** The launch of [gpu_find_k] with its blocks taken in the order [bids]. *)
Definition find_k_blocks_in_order (bids : list Z)
    (gridDim blockDim group_size correlation_step : Z)
    (g_sx g_sy g_sz g_vx g_vy g_vz : Ptr D)
    (g_ki g_ko : list D) : list D * list D :=
  fold_left (find_k_block gridDim blockDim group_size correlation_step
               g_sx g_sy g_sz g_vx g_vy g_vz)
            bids (g_ki, g_ko).

(** [f first], [f (first + 1)], ..., [count] values in all, added one after
    the other into a value that starts at zero: the way [+=] builds up an
    accumulator element from one reduction to the next. *)
Definition accumulate (f : Z -> D) (first count : Z) : D :=
  fold_left (fun a q => dadd a (f (first + q))) (Arr.range count) dzero.

End Orders.

(** The step at which sample number [j] is stored. *)
Definition step_of_sample (interval j : Z) : Z := (j + 1) * interval - 1.

(** Element [n] of page [page] of the ring buffer of [st] holds what the
    inputs [vel], [vir] give for tracked particle [n] under the
    configuration of [s]. *)
Definition holds_sample {D : Type} {SD : Scalar D}
    (s : SHC D) (group : list Group) (vel vir : list D)
    (st : SHC D) (page n : Z) : Prop :=
  let m := source_index s group n in
  let N := Z.quot (len vel) 3 in
  let i := page * group_size s + n in
  Arr.get dzero (sx st) i = Arr.get dzero vir (N * tensor_at (direction s) 0 + m) /\
  Arr.get dzero (sy st) i = Arr.get dzero vir (N * tensor_at (direction s) 1 + m) /\
  Arr.get dzero (sz st) i = Arr.get dzero vir (N * tensor_at (direction s) 2 + m) /\
  Arr.get dzero (vx st) i = Arr.get dzero vel (0 + m) /\
  Arr.get dzero (vy st) i = Arr.get dzero vel (N + m) /\
  Arr.get dzero (vz st) i = Arr.get dzero vel (N * 2 + m).

(** The six quantities a sample records for a tracked particle. *)
Inductive component : Type := Sx | Sy | Sz | Vx | Vy | Vz.

(** The value of component [q] that sample number [k] records for tracked
    particle [n]: what lines 153-176 read from the inputs of the step at
    which that sample is stored. *)
Definition sample_value {D : Type} {SD : Scalar D}
    (s : SHC D) (group : list Group) (velocity virial : Z -> list D)
    (q : component) (k n : Z) : D :=
  let t := step_of_sample (sample_interval s) k in
  let N := Z.quot (len (velocity t)) 3 in
  let m := source_index s group n in
  match q with
  | Sx => Arr.get dzero (virial t) (N * tensor_at (direction s) 0 + m)
  | Sy => Arr.get dzero (virial t) (N * tensor_at (direction s) 1 + m)
  | Sz => Arr.get dzero (virial t) (N * tensor_at (direction s) 2 + m)
  | Vx => Arr.get dzero (velocity t) (0 + m)
  | Vy => Arr.get dzero (velocity t) (N + m)
  | Vz => Arr.get dzero (velocity t) (N * 2 + m)
  end.

(** Component [q] of sample [k] for all tracked particles, as one page. *)
Definition sample_page {D : Type} {SD : Scalar D}
    (s : SHC D) (group : list Group) (velocity virial : Z -> list D)
    (q : component) (k : Z) : list D :=
  map (sample_value s group velocity virial q k) (Arr.range (group_size s)).

(** The pair a block of [gpu_find_k] computes when its "now" arrays are
    the components [a1], [a2], [a3] of sample [k] and its lagged arrays the
    components [b1], [b2], [b3] of sample [j]. *)
Definition sample_block_sum {D : Type} {SD : Scalar D}
    (s : SHC D) (group : list Group) (velocity virial : Z -> list D)
    (a1 a2 a3 b1 b2 b3 : component) (k j : Z) : D * D :=
  let page := sample_page s group velocity virial in
  find_k_block_sum BLOCK_SIZE_SHC (group_size s) 0
    (data_at (page a1 k) 0) (data_at (page a2 k) 0) (data_at (page a3 k) 0)
    (data_at (page b1 j) 0) (data_at (page b2 j) 0) (data_at (page b3 j) 0).

(** The threads of a launch, as pairs [(blockIdx.x, threadIdx.x)], block
    by block. *)
Definition launch_threads (gridDim blockDim : Z) : list (Z * Z) :=
  list_prod (Arr.range gridDim) (Arr.range blockDim).

(** The launch of [gpu_copy_data] with its threads taken in the order
    [threads]. *)
Definition copy_data_in_order {D : Type} {SD : Scalar D} (threads : list (Z * Z))
    (blockDim group_size offset : Z) (g_group_contents : list Z) (o_base : Z)
    (g_sx_i g_sy_i g_sz_i g_vx_i g_vy_i g_vz_i : Ptr D) (o : Bufs D) : Bufs D :=
  fold_left
    (fun o bt =>
       copy_data_thread blockDim group_size offset g_group_contents o_base
         g_sx_i g_sy_i g_sz_i g_vx_i g_vy_i g_vz_i (fst bt) o (snd bt))
    threads o.

(** ** Checked execution

    The kernels and [process] once more, with every step that C leaves
    undefined made to fail.  A computation is [None] when
    - a subscript falls outside its array,
    - the value of an [int] expression does not fit in 32 bits, or
    - a divisor is zero.
    Each checked function follows the function of the same name above
    line by line; the two differ in the checks only. *)

Definition INT_MAX : Z := 2147483647.
Definition INT_MIN : Z := -2147483648.

(** An [int] expression whose mathematical value is [z]. *)
Definition int (z : Z) : option Z :=
  if (INT_MIN <=? z) && (z <=? INT_MAX) then Some z else None.

Definition bind {A B : Type} (o : option A) (f : A -> option B) : option B :=
  match o with
  | Some a => f a
  | None => None
  end.

Notation "x <- a ;; b" := (bind a (fun x => b))
  (at level 61, a at next level, right associativity).

(** [a / b] and [a % b] on [int]. *)
Definition int_quot (a b : Z) : option Z :=
  if b =? 0 then None else int (Z.quot a b).
Definition int_rem (a b : Z) : option Z :=
  _ <- int_quot a b ;; Some (Z.rem a b).

(** [l[i]] and [l[i] = x], inside the array or not at all. *)
Definition checked_get {A : Type} (l : list A) (i : Z) : option A :=
  if i <? 0 then None else nth_error l (Z.to_nat i).
Definition checked_set {A : Type} (l : list A) (i : Z) (x : A) : option (list A) :=
  if (0 <=? i) && (i <? len l) then Some (Arr.set l i x) else None.

(** A loop, a launch or a copy whose body can fail. *)
Fixpoint fold_checked {A B : Type} (f : A -> B -> option A) (l : list B) (a : A)
    : option A :=
  match l with
  | [] => Some a
  | x :: t => a' <- f a x ;; fold_checked f t a'
  end.

Fixpoint map_checked {A B : Type} (f : A -> option B) (l : list A) : option (list B) :=
  match l with
  | [] => Some []
  | x :: t => y <- f x ;; ys <- map_checked f t ;; Some (y :: ys)
  end.

Section CheckedKernels.
Context {D : Type} {SD : Scalar D}.

Definition deref_checked (p : Ptr D) (i : Z) : option D :=
  checked_get (p_arr p) (p_base p + i).

(** Lines 78-82. *)
Definition find_k_round_checked (group_size size_sum tid : Z)
    (g_sx g_sy g_sz g_vx g_vy g_vz : Ptr D) (k : D * D) (round : Z) : option (D * D) :=
  r <- int (round * BLOCK_SIZE_SHC) ;;
  n <- int (tid + r) ;;
  if n <? group_size then
    j <- int (size_sum + n) ;;
    sx_n <- deref_checked g_sx n ;;
    vx_j <- deref_checked g_vx j ;;
    sy_n <- deref_checked g_sy n ;;
    vy_j <- deref_checked g_vy j ;;
    sz_n <- deref_checked g_sz n ;;
    vz_j <- deref_checked g_vz j ;;
    Some (dadd (fst k) (dadd (dmul sx_n vx_j) (dmul sy_n vy_j)),
          dadd (snd k) (dmul sz_n vz_j))
  else Some k.

(** Lines 70-83. *)
Definition find_k_thread_checked (group_size bid tid : Z)
    (g_sx g_sy g_sz g_vx g_vy g_vz : Ptr D) : option (D * D) :=
  size_sum <- int (bid * group_size) ;;
  d <- int (group_size - 1) ;;
  number_of_rounds <- int (Z.quot d BLOCK_SIZE_SHC + 1) ;;
  fold_checked (find_k_round_checked group_size size_sum tid
                  g_sx g_sy g_sz g_vx g_vy g_vz)
               (Arr.range number_of_rounds) (dzero, dzero).

(** Lines 89-92: [s_ki[tid]] and [s_ki[tid + offset]].  As in [tree_pass],
    a thread at or above [offset] keeps its element. *)
Definition tree_pass_checked (offset : Z) (s : list D) : option (list D) :=
  map_checked (fun tid =>
                 if tid <? offset
                 then a <- checked_get s tid ;;
                      j <- int (tid + offset) ;;
                      b <- checked_get s j ;;
                      Some (dadd a b)
                 else checked_get s tid)
              (Arr.range (len s)).

Fixpoint tree_loop_checked (offset : positive) (s : list D) : option (list D) :=
  s' <- tree_pass_checked (Zpos offset) s ;;
  match offset with
  | xH => Some s'
  | xO q | xI q => tree_loop_checked q s'
  end.

Definition tree_reduce_checked (blockDim : Z) (s : list D) : option (list D) :=
  match Z.shiftr blockDim 1 with
  | Zpos p => tree_loop_checked p s
  | _ => Some s
  end.

(** Lines 72-94.  The shared arrays have [BLOCK_SIZE_SHC] elements, and
    thread [tid] stores into element [tid] of them. *)
Definition find_k_block_sum_checked (blockDim group_size bid : Z)
    (g_sx g_sy g_sz g_vx g_vy g_vz : Ptr D) : option (D * D) :=
  if BLOCK_SIZE_SHC <? blockDim then None else
  part <- map_checked (fun tid => find_k_thread_checked group_size bid tid
                                    g_sx g_sy g_sz g_vx g_vy g_vz)
                      (Arr.range blockDim) ;;
  s_ki <- tree_reduce_checked blockDim (map fst part) ;;
  s_ko <- tree_reduce_checked blockDim (map snd part) ;;
  ki <- checked_get s_ki 0 ;;
  ko <- checked_get s_ko 0 ;;
  Some (ki, ko).

(** Lines 96-104. *)
Definition find_k_target_checked (gridDim correlation_step bid : Z) : option Z :=
  if bid <=? correlation_step
  then int (correlation_step - bid)
  else u <- int (correlation_step + gridDim) ;; int (u - bid).

Definition find_k_block_checked (gridDim blockDim group_size correlation_step : Z)
    (g_sx g_sy g_sz g_vx g_vy g_vz : Ptr D)
    (g : list D * list D) (bid : Z) : option (list D * list D) :=
  s <- find_k_block_sum_checked blockDim group_size bid g_sx g_sy g_sz g_vx g_vy g_vz ;;
  t <- find_k_target_checked gridDim correlation_step bid ;;
  ki <- checked_get (fst g) t ;;
  g_ki <- checked_set (fst g) t (dadd ki (fst s)) ;;
  ko <- checked_get (snd g) t ;;
  g_ko <- checked_set (snd g) t (dadd ko (snd s)) ;;
  Some (g_ki, g_ko).

Definition gpu_find_k_checked (gridDim blockDim group_size correlation_step : Z)
    (g_sx g_sy g_sz g_vx g_vy g_vz : Ptr D)
    (g_ki g_ko : list D) : option (list D * list D) :=
  fold_checked (find_k_block_checked gridDim blockDim group_size correlation_step
                  g_sx g_sy g_sz g_vx g_vy g_vz)
               (Arr.range gridDim) (g_ki, g_ko).

(** Lines 124-134. *)
Definition copy_data_thread_checked (blockDim group_size offset : Z)
    (g_group_contents : list Z) (o_base : Z)
    (g_sx_i g_sy_i g_sz_i g_vx_i g_vy_i g_vz_i : Ptr D)
    (bid : Z) (o : Bufs D) (tid : Z) : option (Bufs D) :=
  r <- int (bid * blockDim) ;;
  n <- int (tid + r) ;;
  if n <? group_size then
    j <- int (offset + n) ;;
    m <- checked_get g_group_contents j ;;
    x_sx <- deref_checked g_sx_i m ;;
    o_sx <- checked_set (b_sx o) (o_base + n) x_sx ;;
    x_sy <- deref_checked g_sy_i m ;;
    o_sy <- checked_set (b_sy o) (o_base + n) x_sy ;;
    x_sz <- deref_checked g_sz_i m ;;
    o_sz <- checked_set (b_sz o) (o_base + n) x_sz ;;
    x_vx <- deref_checked g_vx_i m ;;
    o_vx <- checked_set (b_vx o) (o_base + n) x_vx ;;
    x_vy <- deref_checked g_vy_i m ;;
    o_vy <- checked_set (b_vy o) (o_base + n) x_vy ;;
    x_vz <- deref_checked g_vz_i m ;;
    o_vz <- checked_set (b_vz o) (o_base + n) x_vz ;;
    Some {| b_sx := o_sx; b_sy := o_sy; b_sz := o_sz;
            b_vx := o_vx; b_vy := o_vy; b_vz := o_vz |}
  else Some o.

Definition gpu_copy_data_checked (gridDim blockDim group_size offset : Z)
    (g_group_contents : list Z) (o_base : Z)
    (g_sx_i g_sy_i g_sz_i g_vx_i g_vy_i g_vz_i : Ptr D) (o : Bufs D)
    : option (Bufs D) :=
  fold_checked
    (fun o bid =>
       fold_checked (copy_data_thread_checked blockDim group_size offset
                       g_group_contents o_base
                       g_sx_i g_sy_i g_sz_i g_vx_i g_vy_i g_vz_i bid)
                    (Arr.range blockDim) o)
    (Arr.range gridDim) o.

(** [cudaMemcpy]: element [i] of the source into element [doff + i] of the
    destination, both inside their arrays. *)
Definition cudaMemcpy_checked (dst : list D) (doff : Z) (src : Ptr D) (n : Z)
    : option (list D) :=
  fold_checked (fun d i => x <- deref_checked src i ;; checked_set d (doff + i) x)
               (Arr.range n) dst.

(** Lines 149-151. *)
Definition offset_checked (s : SHC D) (step : Z) : option (Z * Z) :=
  sample_step <- int_quot step (sample_interval s) ;;
  correlation_step <- int_rem sample_step (Nc s) ;;
  offset <- int (correlation_step * group_size s) ;;
  Some (correlation_step, offset).

(** Lines 31-54.  [resize] takes an unsigned size: a negative product is
    not one. *)
Definition preprocess_checked (junk : Z -> Z -> D) (N : Z) (group : list Group)
    (s : SHC D) : option (SHC D) :=
  if negb (compute s) then Some s else
  group_size' <-
    (if -1 =? group_method s then Some N
     else g <- checked_get group (group_method s) ;;
          checked_get (cpu_size g) (group_id s)) ;;
  n <- int (group_size' * Nc s) ;;
  if n <? 0 then None else
  Some {| compute := compute s;
          sample_interval := sample_interval s;
          Nc := Nc s;
          direction := direction s;
          group_method := group_method s;
          group_id := group_id s;
          group_size := group_size';
          num_time_origins := 0;
          vx := resize (junk 0) n;
          vy := resize (junk 1) n;
          vz := resize (junk 2) n;
          sx := resize (junk 3) n;
          sy := resize (junk 4) n;
          sz := resize (junk 5) n;
          ki_negative := resize_fill (Nc s) dzero;
          ko_negative := resize_fill (Nc s) dzero;
          ki_positive := resize_fill (Nc s) dzero;
          ko_positive := resize_fill (Nc s) dzero |}.

(** Lines 149-176. *)
Definition store_sample_checked (step : Z) (group : list Group)
    (velocity_per_atom virial_per_atom : list D) (s : SHC D) : option (SHC D) :=
  co <- offset_checked s step ;;
  let offset := snd co in
  N <- int (Z.quot (len velocity_per_atom) 3) ;;
  row <- checked_get tensor (direction s) ;;
  t0 <- checked_get row 0 ;;
  t1 <- checked_get row 1 ;;
  t2 <- checked_get row 2 ;;
  o0 <- int (N * t0) ;;
  o1 <- int (N * t1) ;;
  o2 <- int (N * t2) ;;
  N2 <- int (N * 2) ;;
  let sx_tmp := data_at virial_per_atom o0 in
  let sy_tmp := data_at virial_per_atom o1 in
  let sz_tmp := data_at virial_per_atom o2 in
  let vx_tmp := data_at velocity_per_atom 0 in
  let vy_tmp := data_at velocity_per_atom N in
  let vz_tmp := data_at velocity_per_atom N2 in
  if -1 =? group_method s then
    o_sx <- cudaMemcpy_checked (sx s) offset sx_tmp N ;;
    o_sy <- cudaMemcpy_checked (sy s) offset sy_tmp N ;;
    o_sz <- cudaMemcpy_checked (sz s) offset sz_tmp N ;;
    o_vx <- cudaMemcpy_checked (vx s) offset vx_tmp N ;;
    o_vy <- cudaMemcpy_checked (vy s) offset vy_tmp N ;;
    o_vz <- cudaMemcpy_checked (vz s) offset vz_tmp N ;;
    Some (with_ring s {| b_sx := o_sx; b_sy := o_sy; b_sz := o_sz;
                         b_vx := o_vx; b_vy := o_vy; b_vz := o_vz |})
  else
    g <- checked_get group (group_method s) ;;
    start <- checked_get (cpu_size_sum g) (group_id s) ;;
    d <- int (group_size s - 1) ;;
    grid <- int (Z.quot d BLOCK_SIZE_SHC + 1) ;;
    o <- gpu_copy_data_checked grid BLOCK_SIZE_SHC (group_size s) start (contents g)
           offset sx_tmp sy_tmp sz_tmp vx_tmp vy_tmp vz_tmp (ring_of s) ;;
    Some (with_ring s o).

(** Lines 179-189. *)
Definition reduce_checked (step : Z) (s : SHC D) : option (SHC D) :=
  co <- offset_checked s step ;;
  let correlation_step := fst co in
  let offset := snd co in
  n <- int (num_time_origins s + 1) ;;
  neg <- gpu_find_k_checked (Nc s) BLOCK_SIZE_SHC (group_size s) correlation_step
           (data_at (sx s) offset) (data_at (sy s) offset) (data_at (sz s) offset)
           (data_at (vx s) 0) (data_at (vy s) 0) (data_at (vz s) 0)
           (ki_negative s) (ko_negative s) ;;
  pos <- gpu_find_k_checked (Nc s) BLOCK_SIZE_SHC (group_size s) correlation_step
           (data_at (vx s) offset) (data_at (vy s) offset) (data_at (vz s) offset)
           (data_at (sx s) 0) (data_at (sy s) 0) (data_at (sz s) 0)
           (ki_positive s) (ko_positive s) ;;
  Some {| compute := compute s;
          sample_interval := sample_interval s;
          Nc := Nc s;
          direction := direction s;
          group_method := group_method s;
          group_id := group_id s;
          group_size := group_size s;
          num_time_origins := n;
          vx := vx s; vy := vy s; vz := vz s;
          sx := sx s; sy := sy s; sz := sz s;
          ki_negative := fst neg; ko_negative := snd neg;
          ki_positive := fst pos; ko_positive := snd pos |}.

(** Lines 143-190. *)
Definition process_checked (step : Z) (group : list Group)
    (velocity_per_atom virial_per_atom : list D) (s : SHC D) : option (SHC D) :=
  if negb (compute s) then Some s else
  t <- int (step + 1) ;;
  r <- int_rem t (sample_interval s) ;;
  if negb (r =? 0) then Some s else
  s1 <- store_sample_checked step group velocity_per_atom virial_per_atom s ;;
  sample_step <- int_quot step (sample_interval s) ;;
  last <- int (Nc s - 1) ;;
  if last <=? sample_step then reduce_checked step s1 else Some s1.

(** The steps [0, ..., T-1] of the simulation loop. *)
Definition run_checked (group : list Group) (velocity virial : Z -> list D)
    (T : Z) (s : SHC D) : option (SHC D) :=
  fold_checked (fun s step => process_checked step group (velocity step) (virial step) s)
               (Arr.range T) s.

(** What the calls need of the selector: the group exists, its slice of
    [contents] lies inside the array and names particles below [N]. *)
Definition valid_selection (group : list Group) (N : Z) (s : SHC D) : Prop :=
  group_method s <> -1 ->
  let g := Arr.get no_group group (group_method s) in
  let start := Arr.get 0 (cpu_size_sum g) (group_id s) in
  let size := Arr.get 0 (cpu_size g) (group_id s) in
  0 <= group_method s < len group /\
  0 <= group_id s < len (cpu_size g) /\
  group_id s < len (cpu_size_sum g) /\
  0 <= size /\ 0 <= start /\
  start + size <= len (contents g) /\ start + size <= INT_MAX /\
  forall n, 0 <= n < size -> 0 <= Arr.get 0 (contents g) (start + n) < N.

End CheckedKernels.

Arguments find_k_block_sum_checked : simpl never.
Arguments gpu_find_k_checked : simpl never.
Arguments gpu_copy_data_checked : simpl never.
Arguments cudaMemcpy_checked : simpl never.

(** * Facts about arrays and index ranges *)

Module ArrFacts.
Import Arr.

Section WithA.
Context {A : Type}.

Lemma length_upd (l : list A) i x : length (upd l i x) = length l.
  Proof.
    revert i; induction l as [|h t IH]; intros [|j]; simpl; auto.
  Qed.

Lemma nth_upd_eq (l : list A) i x d :
    (i < length l)%nat -> nth i (upd l i x) d = x.
  Proof.
    revert i; induction l as [|h t IH]; intros [|j] H; simpl in *; try lia; auto.
    apply IH; lia.
  Qed.

Lemma nth_upd_ne (l : list A) i j x d :
    i <> j -> nth j (upd l i x) d = nth j l d.
  Proof.
    revert i j; induction l as [|h t IH]; intros [|i] [|j] H; simpl; auto;
      try congruence.
  Qed.

Lemma upd_ge (l : list A) i x : (length l <= i)%nat -> upd l i x = l.
  Proof.
    revert i; induction l as [|h t IH]; intros [|j] H; simpl in *; auto; try lia.
    f_equal; apply IH; lia.
  Qed.

Lemma length_set (l : list A) i x : length (Arr.set l i x) = length l.
  Proof. unfold Arr.set; destruct (i <? 0); auto using length_upd. Qed.

Lemma get_set_eq d (l : list A) i x :
    0 <= i < len l -> Arr.get d (Arr.set l i x) i = x.
  Proof.
    intros H; unfold Arr.get, Arr.set.
    destruct (Z.ltb_spec i 0); [lia|]. apply nth_upd_eq; lia.
  Qed.

Lemma get_set_ne d (l : list A) i j x :
    i <> j -> Arr.get d (Arr.set l i x) j = Arr.get d l j.
  Proof.
    intros H; unfold Arr.get, Arr.set.
    destruct (Z.ltb_spec j 0); auto.
    destruct (Z.ltb_spec i 0); auto.
    apply nth_upd_ne; lia.
  Qed.

Lemma set_out (l : list A) i x : ~ (0 <= i < len l) -> set l i x = l.
  Proof.
    intros H; unfold Arr.set. destruct (Z.ltb_spec i 0); auto.
    apply upd_ge; lia.
  Qed.

Lemma get_set d (l : list A) i j x :
    Arr.get d (Arr.set l i x) j =
    if (i =? j) && (0 <=? i) && (i <? len l) then x else Arr.get d l j.
  Proof.
    destruct (Z.eqb_spec i j) as [->|Hne]; simpl.
    - destruct (Z.leb_spec 0 j); simpl.
      + destruct (Z.ltb_spec j (len l)).
        * apply get_set_eq; lia.
        * rewrite set_out by lia; auto.
      + rewrite set_out by lia; auto.
    - apply get_set_ne; auto.
  Qed.

Lemma get_out d (l : list A) i : ~ (0 <= i < len l) -> Arr.get d l i = d.
  Proof.
    intros H; unfold Arr.get. destruct (Z.ltb_spec i 0); auto.
    apply nth_overflow; lia.
  Qed.

Lemma get_repeat d (x : A) n i :
    0 <= i < Z.of_nat n -> Arr.get d (repeat x n) i = x.
  Proof.
    intros H; unfold Arr.get. destruct (Z.ltb_spec i 0); [lia|].
    apply nth_repeat_lt; lia.
  Qed.

  (** Two arrays of one length with the same elements are the same array. *)
Lemma ext d (l1 l2 : list A) :
    length l1 = length l2 ->
    (forall i, 0 <= i < len l1 -> Arr.get d l1 i = Arr.get d l2 i) ->
    l1 = l2.
  Proof.
    intros Hl H. apply nth_ext with (d := d) (d' := d); auto.
    intros n Hn. specialize (H (Z.of_nat n)).
    unfold Arr.get in H. destruct (Z.ltb_spec (Z.of_nat n) 0); [lia|].
    rewrite Nat2Z.id in H. apply H; lia.
  Qed.

End WithA.

Lemma in_range n i : In i (range n) <-> 0 <= i < n.
Proof.
  unfold range; rewrite in_map_iff; split.
  - intros [k [<- Hk]]. apply in_seq in Hk. lia.
  - intros H. exists (Z.to_nat i). split; [lia|]. apply in_seq. lia.
Qed.

Lemma range_succ n : 0 <= n -> range (n + 1) = range n ++ [n].
Proof.
  intros H; unfold range.
  replace (Z.to_nat (n + 1)) with (Z.to_nat n + 1)%nat by lia.
  rewrite seq_app, map_app; simpl. do 3 f_equal. lia.
Qed.

Lemma range_nonpos n : n <= 0 -> range n = [].
Proof. intros H; unfold range. replace (Z.to_nat n) with 0%nat by lia. auto. Qed.

Lemma NoDup_range n : NoDup (range n).
Proof.
  unfold range. apply Injective_map_NoDup; [|apply seq_NoDup].
  intros a b; apply Nat2Z.inj.
Qed.

Lemma length_range n : length (range n) = Z.to_nat n.
Proof. unfold range. now rewrite length_map, length_seq. Qed.

End ArrFacts.
Import ArrFacts.

(** * The lag mapping of [gpu_find_k] *)

Section FindK.
Context {D : Type} {SD : Scalar D}.

Lemma find_k_target_range n c bid :
    0 <= c < n -> 0 <= bid < n -> 0 <= find_k_target n c bid < n.
  Proof.
    intros Hc Hb; unfold find_k_target.
    destruct (Z.leb_spec bid c); lia.
  Qed.

Lemma find_k_target_inj n c b1 b2 :
    0 <= c < n -> 0 <= b1 < n -> 0 <= b2 < n ->
    find_k_target n c b1 = find_k_target n c b2 -> b1 = b2.
  Proof.
    intros Hc H1 H2; unfold find_k_target.
    destruct (Z.leb_spec b1 c), (Z.leb_spec b2 c); lia.
  Qed.

  (** The lag of block [bid] is [(c - bid) mod n], so the block of lag
      [l] is found by the same formula. *)
Lemma find_k_target_invol n c bid :
    0 <= c < n -> 0 <= bid < n ->
    find_k_target n c (find_k_target n c bid) = bid.
  Proof.
    intros Hc Hb; unfold find_k_target.
    destruct (Z.leb_spec bid c);
      [destruct (Z.leb_spec (c - bid) c) | destruct (Z.leb_spec (c + n - bid) c)];
      lia.
  Qed.

Lemma find_k_target_mod n c bid :
    0 <= c < n -> 0 <= bid < n -> find_k_target n c bid = (c - bid) mod n.
  Proof.
    intros Hc Hb; unfold find_k_target.
    destruct (Z.leb_spec bid c).
    - rewrite Z.mod_small; lia.
    - apply Z.mod_unique with (q := -1); lia.
  Qed.

Variables (gridDim blockDim group_size correlation_step : Z).
Variables (g_sx g_sy g_sz g_vx g_vy g_vz : Ptr D).

Let blk := find_k_block gridDim blockDim group_size correlation_step
               g_sx g_sy g_sz g_vx g_vy g_vz.
Let bsum := fun bid => find_k_block_sum blockDim group_size bid
                           g_sx g_sy g_sz g_vx g_vy g_vz.
Let tgt := find_k_target gridDim correlation_step.

Lemma find_k_block_length g bid :
    length (fst (blk g bid)) = length (fst g) /\
    length (snd (blk g bid)) = length (snd g).
  Proof. unfold blk, find_k_block; simpl. now rewrite !length_set. Qed.

Lemma find_k_block_hit g bid :
    0 <= tgt bid < len (fst g) -> 0 <= tgt bid < len (snd g) ->
    Arr.get dzero (fst (blk g bid)) (tgt bid)
      = dadd (Arr.get dzero (fst g) (tgt bid)) (fst (bsum bid)) /\
    Arr.get dzero (snd (blk g bid)) (tgt bid)
      = dadd (Arr.get dzero (snd g) (tgt bid)) (snd (bsum bid)).
  Proof.
    intros H1 H2; unfold blk, find_k_block; simpl.
    now rewrite !get_set_eq.
  Qed.

Lemma find_k_block_miss g bid i :
    i <> tgt bid ->
    Arr.get dzero (fst (blk g bid)) i = Arr.get dzero (fst g) i /\
    Arr.get dzero (snd (blk g bid)) i = Arr.get dzero (snd g) i.
  Proof.
    intros H; unfold blk, find_k_block; simpl.
    rewrite !get_set_ne; auto.
  Qed.

Lemma fold_blocks_length bids g :
    length (fst (fold_left blk bids g)) = length (fst g) /\
    length (snd (fold_left blk bids g)) = length (snd g).
  Proof.
    revert g; induction bids as [|b bs IH]; intros g; simpl; auto.
    destruct (IH (blk g b)) as [-> ->]. apply find_k_block_length.
  Qed.

Hypothesis Hc : 0 <= correlation_step < gridDim.

Lemma fold_blocks_miss bids g l :
    0 <= l < gridDim ->
    (forall b, In b bids -> 0 <= b < gridDim) ->
    ~ In (tgt l) bids ->
    Arr.get dzero (fst (fold_left blk bids g)) l = Arr.get dzero (fst g) l /\
    Arr.get dzero (snd (fold_left blk bids g)) l = Arr.get dzero (snd g) l.
  Proof.
    intros Hl. revert g; induction bids as [|b bs IH]; intros g Hin Hn; simpl; auto.
    destruct (IH (blk g b)) as [-> ->].
    - intros; apply Hin; now right.
    - intros ?; apply Hn; now right.
    - apply find_k_block_miss. intros ->. apply Hn; left.
      unfold tgt. rewrite find_k_target_invol; auto. apply Hin; now left.
  Qed.

Lemma fold_blocks_hit bids g l :
    0 <= l < gridDim ->
    len (fst g) = gridDim -> len (snd g) = gridDim ->
    (forall b, In b bids -> 0 <= b < gridDim) ->
    NoDup bids ->
    In (tgt l) bids ->
    Arr.get dzero (fst (fold_left blk bids g)) l
      = dadd (Arr.get dzero (fst g) l) (fst (bsum (tgt l))) /\
    Arr.get dzero (snd (fold_left blk bids g)) l
      = dadd (Arr.get dzero (snd g) l) (snd (bsum (tgt l))).
  Proof.
    intros Hl. revert g; induction bids as [|b bs IH];
      intros g Hg1 Hg2 Hin Hnd Hmem; simpl; [destruct Hmem|].
    apply NoDup_cons_iff in Hnd as [Hnb Hnd'].
    assert (Hb : 0 <= b < gridDim) by (apply Hin; now left).
    assert (Hbs : forall b', In b' bs -> 0 <= b' < gridDim)
      by (intros; apply Hin; now right).
    destruct (find_k_block_length g b) as [L1 L2].
    destruct (Z.eq_dec (tgt l) b) as [E|E].
    - destruct (fold_blocks_miss bs (blk g b) Hl Hbs) as [-> ->];
        [now rewrite E|].
      assert (Et : tgt b = l)
        by (rewrite <- E; unfold tgt; apply find_k_target_invol; auto).
      rewrite E.
      destruct (find_k_block_hit g b) as [G1 G2]; rewrite ?Et; try lia.
      rewrite Et in G1, G2. auto.
    - destruct Hmem as [Hmem|Hmem]; [congruence|].
      destruct (IH (blk g b)) as [-> ->]; auto; try lia.
      destruct (find_k_block_miss g b (i := l)) as [-> ->]; auto.
      intros ->. apply E. unfold tgt. apply find_k_target_invol; auto.
  Qed.

End FindK.

(** After a launch every accumulator element has received the sum of
    exactly one block. *)
Lemma gpu_find_k_get {D} {SD : Scalar D} n B gs c
    (g_sx g_sy g_sz g_vx g_vy g_vz : Ptr D) (ki ko : list D) l :
  0 <= c < n -> len ki = n -> len ko = n -> 0 <= l < n ->
  Arr.get dzero (fst (gpu_find_k n B gs c g_sx g_sy g_sz g_vx g_vy g_vz ki ko)) l
    = dadd (Arr.get dzero ki l)
        (fst (find_k_block_sum B gs (find_k_target n c l) g_sx g_sy g_sz g_vx g_vy g_vz)) /\
  Arr.get dzero (snd (gpu_find_k n B gs c g_sx g_sy g_sz g_vx g_vy g_vz ki ko)) l
    = dadd (Arr.get dzero ko l)
        (snd (find_k_block_sum B gs (find_k_target n c l) g_sx g_sy g_sz g_vx g_vy g_vz)).
Proof.
  intros Hc Hki Hko Hl. unfold gpu_find_k.
  apply (fold_blocks_hit (D := D)) with (g := (ki, ko)); auto.
  - intros b Hb; now apply in_range in Hb.
  - apply NoDup_range.
  - apply in_range. now apply find_k_target_range.
Qed.

Lemma gpu_find_k_length {D} {SD : Scalar D} n B gs c
    (g_sx g_sy g_sz g_vx g_vy g_vz : Ptr D) (ki ko : list D) :
  length (fst (gpu_find_k n B gs c g_sx g_sy g_sz g_vx g_vy g_vz ki ko)) = length ki /\
  length (snd (gpu_find_k n B gs c g_sx g_sy g_sz g_vx g_vy g_vz ki ko)) = length ko.
Proof. unfold gpu_find_k. apply (fold_blocks_length (D := D)) with (g := (ki, ko)). Qed.

(** * Stores of a page: [cudaMemcpy] and [gpu_copy_data] *)

Section Stores.
Context {D : Type} {SD : Scalar D}.

Variables (c : Z -> bool) (base : Z).

Let st (v : Z -> D) := fun (a : list D) (n : Z) =>
    if c n then Arr.set a (base + n) (v n) else a.

Lemma fold_store_length v ns a : length (fold_left (st v) ns a) = length a.
  Proof.
    revert a; induction ns as [|n ns IH]; intros a; simpl; auto.
    rewrite IH. unfold st. destruct (c n); auto using length_set.
  Qed.

Lemma fold_store_miss v ns a i :
    (forall n, In n ns -> c n = true -> base + n <> i) ->
    Arr.get dzero (fold_left (st v) ns a) i = Arr.get dzero a i.
  Proof.
    revert a; induction ns as [|n ns IH]; intros a H; simpl; auto.
    rewrite IH by (intros; apply H; auto; now right).
    unfold st. destruct (c n) eqn:E; auto.
    apply get_set_ne. apply H; auto. now left.
  Qed.

Lemma fold_store_hit v ns a n :
    In n ns -> c n = true -> 0 <= base + n < len a ->
    Arr.get dzero (fold_left (st v) ns a) (base + n) = v n.
  Proof.
    revert a; induction ns as [|m ns IH]; intros a Hin Hc Hr; simpl; [destruct Hin|].
    assert (La : len (st v a m) = len a)
      by (unfold st; destruct (c m); now rewrite ?length_set).
    destruct (in_dec Z.eq_dec n ns) as [Hn|Hn].
    - apply IH; auto. lia.
    - destruct Hin as [->|Hin]; [|contradiction].
      rewrite fold_store_miss.
      + unfold st. rewrite Hc. now apply get_set_eq.
      + intros m Hm _ Hbm. apply Hn. now replace n with m by lia.
  Qed.

End Stores.

Lemma fold_store_ext {D} (c : Z -> bool) (base : Z) (v1 v2 : Z -> D) ns (a : list D) :
  (forall n, In n ns -> c n = true -> v1 n = v2 n) ->
  fold_left (fun a n => if c n then Arr.set a (base + n) (v1 n) else a) ns a
  = fold_left (fun a n => if c n then Arr.set a (base + n) (v2 n) else a) ns a.
Proof.
  revert a; induction ns as [|n ns IH]; intros a H; simpl; auto.
  rewrite IH by (intros; apply H; auto; now right).
  destruct (c n) eqn:E; auto. rewrite (H n); auto. now left.
Qed.

Section Memcpy.
Context {D : Type} {SD : Scalar D}.

Lemma cudaMemcpy_length (dst : list D) doff src n :
    length (cudaMemcpy dst doff src n) = length dst.
  Proof.
    unfold cudaMemcpy.
    apply (fold_store_length (fun _ => true) doff (deref src)).
  Qed.

Lemma cudaMemcpy_hit (dst : list D) doff src n i :
    0 <= i < n -> 0 <= doff + i < len dst ->
    Arr.get dzero (cudaMemcpy dst doff src n) (doff + i) = deref src i.
  Proof.
    intros Hi Hr. unfold cudaMemcpy.
    apply (fold_store_hit (fun _ => true) doff (deref src)); auto.
    now apply in_range.
  Qed.

Lemma cudaMemcpy_miss (dst : list D) doff src n i :
    ~ (doff <= i < doff + n) ->
    Arr.get dzero (cudaMemcpy dst doff src n) i = Arr.get dzero dst i.
  Proof.
    intros Hi. unfold cudaMemcpy.
    apply (fold_store_miss (fun _ => true) doff (deref src)).
    intros m Hm _. apply in_range in Hm. lia.
  Qed.

Lemma cudaMemcpy_ext (dst : list D) doff src1 src2 n :
    (forall i, 0 <= i < n -> deref src1 i = deref src2 i) ->
    cudaMemcpy dst doff src1 n = cudaMemcpy dst doff src2 n.
  Proof.
    intros H. unfold cudaMemcpy.
    apply (fold_store_ext (fun _ => true) doff (deref src1) (deref src2)).
    intros i Hi _. apply H. now apply in_range in Hi.
  Qed.

End Memcpy.

Section CopyData.
Context {D : Type} {SD : Scalar D}.

Lemma in_thread_ids g b n :
    0 < b -> In n (thread_ids g b) <-> 0 <= n < g * b.
  Proof.
    intros Hb; unfold thread_ids. rewrite in_flat_map. split.
    - intros [bid [Hbid Hn]]. apply in_map_iff in Hn as [tid [<- Htid]].
      apply in_range in Hbid, Htid. nia.
    - intros Hn. exists (n / b). split.
      + apply in_range. split; [apply Z.div_pos; lia|].
        apply Z.div_lt_upper_bound; lia.
      + apply in_map_iff. exists (n mod b). split.
        * pose proof (Z.div_mod n b). lia.
        * apply in_range. apply Z.mod_pos_bound; lia.
  Qed.

  (** The grid of line 171 covers every tracked particle. *)
Lemma in_copy_grid gs n :
    0 <= n < gs ->
    In n (thread_ids (Z.quot (gs - 1) BLOCK_SIZE_SHC + 1) BLOCK_SIZE_SHC).
  Proof.
    intros Hn. apply in_thread_ids; unfold BLOCK_SIZE_SHC; [lia|].
    rewrite Z.quot_div_nonneg by lia.
    pose proof (Z.div_mod (gs - 1) 128). pose proof (Z.mod_pos_bound (gs - 1) 128).
    lia.
  Qed.

Lemma thread_ids_nonneg g b n : 0 < b -> In n (thread_ids g b) -> 0 <= n.
  Proof. intros Hb Hn. apply in_thread_ids in Hn; lia. Qed.

Variables (blockDim group_size offset : Z) (g_group_contents : list Z) (o_base : Z).
Variables (g_sx_i g_sy_i g_sz_i g_vx_i g_vy_i g_vz_i : Ptr D).

Let gather (p : Ptr D) := fun (a : list D) (n : Z) =>
    if n <? group_size
    then Arr.set a (o_base + n) (deref p (Arr.get 0 g_group_contents (offset + n)))
    else a.

Lemma copy_threads_proj bid tids o :
    fold_left (copy_data_thread blockDim group_size offset g_group_contents o_base
                 g_sx_i g_sy_i g_sz_i g_vx_i g_vy_i g_vz_i bid) tids o
    = let ns := map (fun tid => tid + bid * blockDim) tids in
      {| b_sx := fold_left (gather g_sx_i) ns (b_sx o);
         b_sy := fold_left (gather g_sy_i) ns (b_sy o);
         b_sz := fold_left (gather g_sz_i) ns (b_sz o);
         b_vx := fold_left (gather g_vx_i) ns (b_vx o);
         b_vy := fold_left (gather g_vy_i) ns (b_vy o);
         b_vz := fold_left (gather g_vz_i) ns (b_vz o) |}.
  Proof.
    revert o; induction tids as [|t ts IH]; intros o; simpl.
    - now destruct o.
    - rewrite IH; simpl. unfold copy_data_thread, gather.
      destruct (t + bid * blockDim <? group_size); reflexivity.
  Qed.

Lemma gpu_copy_data_proj gridDim o :
    gpu_copy_data gridDim blockDim group_size offset g_group_contents o_base
      g_sx_i g_sy_i g_sz_i g_vx_i g_vy_i g_vz_i o
    = let ns := thread_ids gridDim blockDim in
      {| b_sx := fold_left (gather g_sx_i) ns (b_sx o);
         b_sy := fold_left (gather g_sy_i) ns (b_sy o);
         b_sz := fold_left (gather g_sz_i) ns (b_sz o);
         b_vx := fold_left (gather g_vx_i) ns (b_vx o);
         b_vy := fold_left (gather g_vy_i) ns (b_vy o);
         b_vz := fold_left (gather g_vz_i) ns (b_vz o) |}.
  Proof.
    unfold gpu_copy_data, thread_ids.
    generalize (Arr.range gridDim) as bids. intros bids; revert o.
    induction bids as [|b bs IH]; intros o; simpl.
    - now destruct o.
    - rewrite copy_threads_proj, IH; simpl.
      now rewrite !fold_left_app.
  Qed.

End CopyData.

Section Gather.
Context {D : Type} {SD : Scalar D}.
Variables (group_size offset : Z) (g_group_contents : list Z) (o_base : Z).

Let grid := Z.quot (group_size - 1) BLOCK_SIZE_SHC + 1.
Let gather (p : Ptr D) := fun (a : list D) (n : Z) =>
    if n <? group_size
    then Arr.set a (o_base + n) (deref p (Arr.get 0 g_group_contents (offset + n)))
    else a.

Lemma gather_length p a :
    length (fold_left (gather p) (thread_ids grid BLOCK_SIZE_SHC) a) = length a.
  Proof.
    apply (fold_store_length (fun n => n <? group_size) o_base
             (fun n => deref p (Arr.get 0 g_group_contents (offset + n)))).
  Qed.

Lemma gather_hit p a n :
    0 <= n < group_size -> 0 <= o_base + n < len a ->
    Arr.get dzero (fold_left (gather p) (thread_ids grid BLOCK_SIZE_SHC) a) (o_base + n)
    = deref p (Arr.get 0 g_group_contents (offset + n)).
  Proof.
    intros Hn Hr.
    apply (fold_store_hit (fun n => n <? group_size) o_base
             (fun n => deref p (Arr.get 0 g_group_contents (offset + n)))); auto.
    - now apply in_copy_grid.
    - apply Z.ltb_lt; lia.
  Qed.

Lemma gather_miss p a i :
    ~ (o_base <= i < o_base + group_size) ->
    Arr.get dzero (fold_left (gather p) (thread_ids grid BLOCK_SIZE_SHC) a) i
    = Arr.get dzero a i.
  Proof.
    intros Hi.
    apply (fold_store_miss (fun n => n <? group_size) o_base
             (fun n => deref p (Arr.get 0 g_group_contents (offset + n)))).
    intros n Hn Hc. apply Z.ltb_lt in Hc.
    apply thread_ids_nonneg in Hn; [lia | unfold BLOCK_SIZE_SHC; lia].
  Qed.

End Gather.

Lemma gather_ext {D} {SD : Scalar D} group_size offset contents o_base
    (p1 p2 : Ptr D) ns (a : list D) :
  (forall n, 0 <= n < group_size -> In n ns ->
     deref p1 (Arr.get 0 contents (offset + n))
     = deref p2 (Arr.get 0 contents (offset + n))) ->
  (forall n, In n ns -> 0 <= n) ->
  fold_left (fun a n => if n <? group_size
                        then Arr.set a (o_base + n)
                               (deref p1 (Arr.get 0 contents (offset + n)))
                        else a) ns a
  = fold_left (fun a n => if n <? group_size
                          then Arr.set a (o_base + n)
                                 (deref p2 (Arr.get 0 contents (offset + n)))
                          else a) ns a.
Proof.
  intros H Hnn.
  apply (fold_store_ext (fun n => n <? group_size) o_base
           (fun n => deref p1 (Arr.get 0 contents (offset + n)))
           (fun n => deref p2 (Arr.get 0 contents (offset + n)))).
  intros n Hn Hc. apply Z.ltb_lt in Hc. apply H; auto.
Qed.

(** * [process]: what a call stores and what it leaves alone *)

Section ProcessFacts.
Context {D : Type} {SD : Scalar D}.
Variables (step : Z) (group : list Group) (vel vir : list D) (s : SHC D).

Let s1 := store_sample step group vel vir s.
Let N := Z.quot (len vel) 3.

Lemma store_sample_frame :
    compute s1 = compute s /\ sample_interval s1 = sample_interval s /\
    Nc s1 = Nc s /\ direction s1 = direction s /\
    group_method s1 = group_method s /\ group_id s1 = group_id s /\
    group_size s1 = group_size s /\ num_time_origins s1 = num_time_origins s /\
    ki_negative s1 = ki_negative s /\ ko_negative s1 = ko_negative s /\
    ki_positive s1 = ki_positive s /\ ko_positive s1 = ko_positive s.
  Proof.
    unfold s1, store_sample. destruct (-1 =? group_method s); simpl; tauto.
  Qed.

Lemma store_sample_length :
    length (sx s1) = length (sx s) /\ length (sy s1) = length (sy s) /\
    length (sz s1) = length (sz s) /\ length (vx s1) = length (vx s) /\
    length (vy s1) = length (vy s) /\ length (vz s1) = length (vz s).
  Proof.
    unfold s1, store_sample. destruct (-1 =? group_method s); simpl.
    - now rewrite !cudaMemcpy_length.
    - rewrite gpu_copy_data_proj; simpl. now rewrite !gather_length.
  Qed.

  (** Element [n] of the page written by the call. *)
Lemma store_sample_hit n :
    0 <= n < stored_count s vel ->
    0 <= offset_of s step + n < len (sx s) ->
    len (sy s) = len (sx s) -> len (sz s) = len (sx s) ->
    len (vx s) = len (sx s) -> len (vy s) = len (sx s) -> len (vz s) = len (sx s) ->
    let m := source_index s group n in
    let i := offset_of s step + n in
    Arr.get dzero (sx s1) i = Arr.get dzero vir (N * tensor_at (direction s) 0 + m) /\
    Arr.get dzero (sy s1) i = Arr.get dzero vir (N * tensor_at (direction s) 1 + m) /\
    Arr.get dzero (sz s1) i = Arr.get dzero vir (N * tensor_at (direction s) 2 + m) /\
    Arr.get dzero (vx s1) i = Arr.get dzero vel (0 + m) /\
    Arr.get dzero (vy s1) i = Arr.get dzero vel (N + m) /\
    Arr.get dzero (vz s1) i = Arr.get dzero vel (N * 2 + m).
  Proof.
    intros Hn Hr E1 E2 E3 E4 E5 m i. unfold m, i, N.
    unfold s1, store_sample, stored_count, source_index in *.
    destruct (-1 =? group_method s); simpl.
    - rewrite !cudaMemcpy_hit by lia. unfold deref; simpl. tauto.
    - rewrite gpu_copy_data_proj; simpl.
      rewrite !gather_hit by (simpl; lia). unfold deref; simpl. tauto.
  Qed.

  (** Elements outside the page keep their values. *)
Lemma store_sample_miss i :
    ~ (offset_of s step <= i < offset_of s step + stored_count s vel) ->
    Arr.get dzero (sx s1) i = Arr.get dzero (sx s) i /\
    Arr.get dzero (sy s1) i = Arr.get dzero (sy s) i /\
    Arr.get dzero (sz s1) i = Arr.get dzero (sz s) i /\
    Arr.get dzero (vx s1) i = Arr.get dzero (vx s) i /\
    Arr.get dzero (vy s1) i = Arr.get dzero (vy s) i /\
    Arr.get dzero (vz s1) i = Arr.get dzero (vz s) i.
  Proof.
    intros Hi. unfold s1, store_sample, stored_count in *.
    destruct (-1 =? group_method s); simpl.
    - now rewrite !cudaMemcpy_miss by lia.
    - rewrite gpu_copy_data_proj; simpl. now rewrite !gather_miss by lia.
  Qed.

End ProcessFacts.

Section StepArithmetic.
Context {D : Type} {SD : Scalar D}.
Variable s : SHC D.
Hypothesis Hi : 0 < sample_interval s.
Hypothesis Hn : 0 < Nc s.

Lemma sample_step_div step :
    0 <= step -> sample_step_of s step = step / sample_interval s.
  Proof. intros; unfold sample_step_of. apply Z.quot_div_nonneg; lia. Qed.

Lemma sample_step_nonneg step : 0 <= step -> 0 <= sample_step_of s step.
  Proof. intros; rewrite sample_step_div by auto. apply Z.div_pos; lia. Qed.

Lemma correlation_step_mod step :
    0 <= step ->
    correlation_step_of s step = (step / sample_interval s) mod Nc s.
  Proof.
    intros; unfold correlation_step_of.
    rewrite Z.rem_mod_nonneg by (auto using sample_step_nonneg).
    now rewrite sample_step_div.
  Qed.

Lemma correlation_step_range step :
    0 <= step -> 0 <= correlation_step_of s step < Nc s.
  Proof.
    intros; rewrite correlation_step_mod by auto. apply Z.mod_pos_bound; lia.
  Qed.

Lemma offset_range step :
    0 <= step -> 0 <= group_size s ->
    0 <= offset_of s step /\
    offset_of s step + group_size s <= group_size s * Nc s.
  Proof.
    intros H0 Hg; unfold offset_of.
    pose proof (correlation_step_range H0). nia.
  Qed.

End StepArithmetic.

Section ProcessCases.
Context {D : Type} {SD : Scalar D}.
Variables (step : Z) (group : list Group) (vel vir : list D) (s : SHC D).

Lemma process_skip :
    compute s = false \/ Z.rem (step + 1) (sample_interval s) <> 0 ->
    process step group vel vir s = s.
  Proof.
    intros [H|H]; unfold process.
    - now rewrite H.
    - destruct (compute s); simpl; auto.
      destruct (Z.eqb_spec (Z.rem (step + 1) (sample_interval s)) 0); simpl; auto.
      contradiction.
  Qed.

Lemma process_sample :
    compute s = true -> Z.rem (step + 1) (sample_interval s) = 0 ->
    process step group vel vir s =
    if Nc s - 1 <=? sample_step_of s step
    then reduce step (store_sample step group vel vir s)
    else store_sample step group vel vir s.
  Proof.
    intros Hc Hr; unfold process. rewrite Hc, Hr; simpl.
    reflexivity.
  Qed.

Lemma reduce_frame s' :
    let r := reduce step s' in
    compute r = compute s' /\ sample_interval r = sample_interval s' /\
    Nc r = Nc s' /\ direction r = direction s' /\
    group_method r = group_method s' /\ group_id r = group_id s' /\
    group_size r = group_size s' /\
    num_time_origins r = num_time_origins s' + 1 /\
    sx r = sx s' /\ sy r = sy s' /\ sz r = sz s' /\
    vx r = vx s' /\ vy r = vy s' /\ vz r = vz s'.
  Proof. simpl; tauto. Qed.

Lemma process_ring :
    compute s = true -> Z.rem (step + 1) (sample_interval s) = 0 ->
    let s1 := store_sample step group vel vir s in
    let s' := process step group vel vir s in
    sx s' = sx s1 /\ sy s' = sy s1 /\ sz s' = sz s1 /\
    vx s' = vx s1 /\ vy s' = vy s1 /\ vz s' = vz s1.
  Proof.
    intros Hc Hr; simpl. rewrite process_sample by auto.
    destruct (Nc s - 1 <=? sample_step_of s step); simpl; tauto.
  Qed.

  (** No call changes the configuration. *)
Lemma process_config :
    let s' := process step group vel vir s in
    compute s' = compute s /\ sample_interval s' = sample_interval s /\
    Nc s' = Nc s /\ direction s' = direction s /\
    group_method s' = group_method s /\ group_id s' = group_id s /\
    group_size s' = group_size s.
  Proof.
    simpl. unfold process.
    destruct (compute s) eqn:Hc; simpl; [|rewrite Hc; tauto].
    destruct (Z.rem (step + 1) (sample_interval s) =? 0); simpl; [|rewrite Hc; tauto].
    pose proof (store_sample_frame step group vel vir s) as F.
    destruct (Nc s - 1 <=? sample_step_of s step); simpl; intuition congruence.
  Qed.

Lemma process_well_sized : well_sized s -> well_sized (process step group vel vir s).
  Proof.
    intros W. destruct W.
    pose proof process_config as C; simpl in C.
    destruct C as (C1 & C2 & C3 & C4 & C5 & C6 & C7).
    unfold process in *.
    destruct (compute s) eqn:Hc; simpl in *; [|now constructor].
    destruct (Z.rem (step + 1) (sample_interval s) =? 0); simpl in *; [|now constructor].
    pose proof (store_sample_frame step group vel vir s) as F.
    pose proof (store_sample_length step group vel vir s) as L.
    set (s1 := store_sample step group vel vir s) in *.
    destruct F as (F1 & F2 & F3 & F4 & F5 & F6 & F7 & F8 & F9 & F10 & F11 & F12).
    destruct L as (L1 & L2 & L3 & L4 & L5 & L6).
    destruct (Nc s - 1 <=? sample_step_of s step).
    - pose proof (gpu_find_k_length (Nc s1) BLOCK_SIZE_SHC (group_size s1)
                    (correlation_step_of s1 step)
                    (data_at (sx s1) (offset_of s1 step)) (data_at (sy s1) (offset_of s1 step))
                    (data_at (sz s1) (offset_of s1 step))
                    (data_at (vx s1) 0) (data_at (vy s1) 0) (data_at (vz s1) 0)
                    (ki_negative s1) (ko_negative s1)) as [G1 G2].
      pose proof (gpu_find_k_length (Nc s1) BLOCK_SIZE_SHC (group_size s1)
                    (correlation_step_of s1 step)
                    (data_at (vx s1) (offset_of s1 step)) (data_at (vy s1) (offset_of s1 step))
                    (data_at (vz s1) (offset_of s1 step))
                    (data_at (sx s1) 0) (data_at (sy s1) 0) (data_at (sz s1) 0)
                    (ki_positive s1) (ko_positive s1)) as [G3 G4].
      constructor; simpl; rewrite ?G1, ?G2, ?G3, ?G4; congruence.
    - constructor; congruence.
  Qed.

End ProcessCases.

(** * Claims about a single call *)

Lemma tiny_well_sized : well_sized tiny.
Proof. constructor; simpl; lia. Qed.

(** C10.  A call with the engine disabled, or at a step for which
    [(step + 1) % sample_interval] is not zero, returns the engine exactly
    as it was.  At every other step of an enabled engine sample number
    [k = step / sample_interval] is stored in page [k mod Nc] of the ring
    buffer: element [n] of that page is read from the inputs at the source
    index of tracked particle [n], and no element outside the page
    changes. *)
Theorem process_records_on_sampling_steps {D} {SD : Scalar D}
    (step : Z) (group : list Group) (vel vir : list D) (s : SHC D) :
  (compute s = false \/ Z.rem (step + 1) (sample_interval s) <> 0 ->
   process step group vel vir s = s) /\
  (compute s = true -> (sample_interval s | step + 1) ->
   well_sized s -> 0 <= step ->
   let k := step / sample_interval s in
   let page := (k mod Nc s) * group_size s in
   let N := Z.quot (len vel) 3 in
   let s' := process step group vel vir s in
   (forall n, 0 <= n < stored_count s vel -> page + n < group_size s * Nc s ->
      let m := source_index s group n in
      Arr.get dzero (sx s') (page + n)
        = Arr.get dzero vir (N * tensor_at (direction s) 0 + m) /\
      Arr.get dzero (sy s') (page + n)
        = Arr.get dzero vir (N * tensor_at (direction s) 1 + m) /\
      Arr.get dzero (sz s') (page + n)
        = Arr.get dzero vir (N * tensor_at (direction s) 2 + m) /\
      Arr.get dzero (vx s') (page + n) = Arr.get dzero vel (0 + m) /\
      Arr.get dzero (vy s') (page + n) = Arr.get dzero vel (N + m) /\
      Arr.get dzero (vz s') (page + n) = Arr.get dzero vel (N * 2 + m)) /\
   (forall i, ~ (page <= i < page + stored_count s vel) ->
      Arr.get dzero (sx s') i = Arr.get dzero (sx s) i /\
      Arr.get dzero (sy s') i = Arr.get dzero (sy s) i /\
      Arr.get dzero (sz s') i = Arr.get dzero (sz s) i /\
      Arr.get dzero (vx s') i = Arr.get dzero (vx s) i /\
      Arr.get dzero (vy s') i = Arr.get dzero (vy s) i /\
      Arr.get dzero (vz s') i = Arr.get dzero (vz s) i)).
Proof.
  split; [apply process_skip|].
  intros Hc Hdiv W H0 k page N s'.
  assert (Hr : Z.rem (step + 1) (sample_interval s) = 0).
  { apply Z.rem_divide; auto. pose proof (ws_interval W); lia. }
  assert (Hpage : page = offset_of s step).
  { unfold page, k, offset_of.
    now rewrite correlation_step_mod by (auto; apply W). }
  unfold s'; clear s'.
  destruct (process_ring step group vel vir s Hc Hr) as (-> & -> & -> & -> & -> & ->).
  rewrite Hpage. split.
  - intros n Hn Hlt.
    assert (0 <= offset_of s step)
      by (apply offset_range; auto; apply W).
    destruct W. apply store_sample_hit; auto; lia.
  - intros i Hi. now apply store_sample_miss.
Qed.

Lemma process_records_on_sampling_steps_witness :
  process 0 [] unit_velocity unit_virial blank = blank /\
  Arr.get dzero (sx (process 4 [] unit_velocity unit_virial tiny)) (1 * 2 + 0)
    = Arr.get dzero unit_virial (2 * tensor_at 0 0 + 0).
Proof.
  destruct (process_records_on_sampling_steps 0 [] unit_velocity unit_virial blank)
    as [Hskip _].
  destruct (process_records_on_sampling_steps 4 [] unit_velocity unit_virial tiny)
    as [_ Hrec].
  split.
  - apply Hskip. left. reflexivity.
  - refine (proj1 (proj1 (Hrec eq_refl _ tiny_well_sized _) 0 _ _)).
    + exists 5. reflexivity.
    + lia.
    + vm_compute. split; [discriminate | reflexivity].
    + vm_compute. reflexivity.
Defined.

(** C1.  Take a call of [process] that performs a reduction: the engine is
    enabled, the step is a sampling step and the sample number has reached
    [Nc - 1].  The call stores the sample and then runs the two launches of
    [gpu_find_k] with [Nc] blocks and [correlation_step = c], where [c] is
    the sample number modulo [Nc].  For every block index [bid] in [0, Nc),
    the accumulator element block [bid] adds into is [c - bid] when
    [bid <= c] and [c + Nc - bid] otherwise; it lies in [0, Nc); after the
    call that element of each of the four accumulators is its old value
    plus the sum of block [bid]; and the block changes no other element. *)
Theorem find_k_block_physical_lag {D} {SD : Scalar D}
    (step : Z) (group : list Group) (vel vir : list D) (s : SHC D) (bid : Z) :
  compute s = true -> well_sized s -> 0 <= step ->
  Z.rem (step + 1) (sample_interval s) = 0 ->
  Nc s - 1 <= sample_step_of s step ->
  0 <= bid < Nc s ->
  let c := correlation_step_of s step in
  let lag := if bid <=? c then c - bid else c + Nc s - bid in
  let s1 := store_sample step group vel vir s in
  let s' := process step group vel vir s in
  let off := offset_of s step in
  let neg := find_k_block_sum BLOCK_SIZE_SHC (group_size s) bid
               (data_at (sx s1) off) (data_at (sy s1) off) (data_at (sz s1) off)
               (data_at (vx s1) 0) (data_at (vy s1) 0) (data_at (vz s1) 0) in
  let pos := find_k_block_sum BLOCK_SIZE_SHC (group_size s) bid
               (data_at (vx s1) off) (data_at (vy s1) off) (data_at (vz s1) off)
               (data_at (sx s1) 0) (data_at (sy s1) 0) (data_at (sz s1) 0) in
  c = (step / sample_interval s) mod Nc s /\
  0 <= lag < Nc s /\
  s' = reduce step s1 /\
  (ki_negative s', ko_negative s')
    = gpu_find_k (Nc s) BLOCK_SIZE_SHC (group_size s) c
        (data_at (sx s1) off) (data_at (sy s1) off) (data_at (sz s1) off)
        (data_at (vx s1) 0) (data_at (vy s1) 0) (data_at (vz s1) 0)
        (ki_negative s) (ko_negative s) /\
  (ki_positive s', ko_positive s')
    = gpu_find_k (Nc s) BLOCK_SIZE_SHC (group_size s) c
        (data_at (vx s1) off) (data_at (vy s1) off) (data_at (vz s1) off)
        (data_at (sx s1) 0) (data_at (sy s1) 0) (data_at (sz s1) 0)
        (ki_positive s) (ko_positive s) /\
  Arr.get dzero (ki_negative s') lag = dadd (Arr.get dzero (ki_negative s) lag) (fst neg) /\
  Arr.get dzero (ko_negative s') lag = dadd (Arr.get dzero (ko_negative s) lag) (snd neg) /\
  Arr.get dzero (ki_positive s') lag = dadd (Arr.get dzero (ki_positive s) lag) (fst pos) /\
  Arr.get dzero (ko_positive s') lag = dadd (Arr.get dzero (ko_positive s) lag) (snd pos) /\
  (forall g_ki g_ko : list D, len g_ki = Nc s -> len g_ko = Nc s ->
     let g' := find_k_block (Nc s) BLOCK_SIZE_SHC (group_size s) c
                 (data_at (sx s1) off) (data_at (sy s1) off) (data_at (sz s1) off)
                 (data_at (vx s1) 0) (data_at (vy s1) 0) (data_at (vz s1) 0)
                 (g_ki, g_ko) bid in
     Arr.get dzero (fst g') lag = dadd (Arr.get dzero g_ki lag) (fst neg) /\
     Arr.get dzero (snd g') lag = dadd (Arr.get dzero g_ko lag) (snd neg) /\
     (forall i, i <> lag ->
        Arr.get dzero (fst g') i = Arr.get dzero g_ki i /\
        Arr.get dzero (snd g') i = Arr.get dzero g_ko i)).
Proof.
  intros Hcmp W H0 Hr Hfull Hb c lag s1 s' off neg pos.
  pose proof (ws_interval W) as Hi. pose proof (ws_Nc W) as Hn.
  pose proof (correlation_step_range s Hi Hn H0) as Hc. fold c in Hc.
  assert (Hlag : lag = find_k_target (Nc s) c bid) by reflexivity.
  pose proof (find_k_target_range Hc Hb) as Hrange. rewrite <- Hlag in Hrange.
  assert (Hinv : find_k_target (Nc s) c lag = bid)
    by (rewrite Hlag; now apply find_k_target_invol).
  pose proof (store_sample_frame step group vel vir s) as F. fold s1 in F.
  destruct F as (F1 & F2 & F3 & F4 & F5 & F6 & F7 & F8 & F9 & F10 & F11 & F12).
  assert (Ec : correlation_step_of s1 step = c)
    by (unfold c, correlation_step_of, sample_step_of; now rewrite F2, F3).
  assert (Eo : offset_of s1 step = off)
    by (unfold off, offset_of; fold c; now rewrite Ec, F7).
  assert (Es : s' = reduce step s1).
  { unfold s'. rewrite process_sample by auto. fold s1.
    destruct (Z.leb_spec (Nc s - 1) (sample_step_of s step)); [reflexivity | lia]. }
  assert (Eneg : (ki_negative s', ko_negative s')
                 = gpu_find_k (Nc s) BLOCK_SIZE_SHC (group_size s) c
                     (data_at (sx s1) off) (data_at (sy s1) off) (data_at (sz s1) off)
                     (data_at (vx s1) 0) (data_at (vy s1) 0) (data_at (vz s1) 0)
                     (ki_negative s) (ko_negative s)).
  { rewrite Es. unfold reduce; cbn [ki_negative ko_negative].
    rewrite Ec, Eo, F3, F7, F9, F10. now rewrite <- surjective_pairing. }
  assert (Epos : (ki_positive s', ko_positive s')
                 = gpu_find_k (Nc s) BLOCK_SIZE_SHC (group_size s) c
                     (data_at (vx s1) off) (data_at (vy s1) off) (data_at (vz s1) off)
                     (data_at (sx s1) 0) (data_at (sy s1) 0) (data_at (sz s1) 0)
                     (ki_positive s) (ko_positive s)).
  { rewrite Es. unfold reduce; cbn [ki_positive ko_positive].
    rewrite Ec, Eo, F3, F7, F11, F12. now rewrite <- surjective_pairing. }
  split; [apply correlation_step_mod; auto|].
  split; [exact Hrange|]. split; [exact Es|].
  split; [exact Eneg|]. split; [exact Epos|].
  destruct (@gpu_find_k_get D SD (Nc s) BLOCK_SIZE_SHC (group_size s) c
              (data_at (sx s1) off) (data_at (sy s1) off) (data_at (sz s1) off)
              (data_at (vx s1) 0) (data_at (vy s1) 0) (data_at (vz s1) 0)
              (ki_negative s) (ko_negative s) lag) as [G1 G2];
    auto; try (destruct W; lia).
  destruct (@gpu_find_k_get D SD (Nc s) BLOCK_SIZE_SHC (group_size s) c
              (data_at (vx s1) off) (data_at (vy s1) off) (data_at (vz s1) off)
              (data_at (sx s1) 0) (data_at (sy s1) 0) (data_at (sz s1) 0)
              (ki_positive s) (ko_positive s) lag) as [G3 G4];
    auto; try (destruct W; lia).
  rewrite Hinv in G1, G2, G3, G4.
  rewrite <- Eneg in G1, G2. rewrite <- Epos in G3, G4.
  cbn [fst snd] in G1, G2, G3, G4.
  split; [exact G1|]. split; [exact G2|]. split; [exact G3|]. split; [exact G4|].
  intros g_ki g_ko Lki Lko g'. unfold g', neg. rewrite Hlag in *.
  destruct (find_k_block_hit (Nc s) BLOCK_SIZE_SHC (group_size s) c
              (data_at (sx s1) off) (data_at (sy s1) off) (data_at (sz s1) off)
              (data_at (vx s1) 0) (data_at (vy s1) 0) (data_at (vz s1) 0)
              (g_ki, g_ko) bid) as [B1 B2];
    cbn [fst snd]; try lia.
  split; [exact B1|]. split; [exact B2|].
  intros i Hne.
  apply (find_k_block_miss (Nc s) BLOCK_SIZE_SHC (group_size s) c
           (data_at (sx s1) off) (data_at (sy s1) off) (data_at (sz s1) off)
           (data_at (vx s1) 0) (data_at (vy s1) 0) (data_at (vz s1) 0)
           (g_ki, g_ko) bid Hne).
Qed.

Lemma find_k_block_physical_lag_witness :
  let s' := process 4 [] unit_velocity unit_virial tiny in
  let s1 := store_sample 4 [] unit_velocity unit_virial tiny in
  Arr.get 0%Q (ki_negative s') 2
  = Qplus (Arr.get 0%Q (ki_negative tiny) 2)
      (fst (find_k_block_sum BLOCK_SIZE_SHC 2 2
              (data_at (sx s1) 2) (data_at (sy s1) 2) (data_at (sz s1) 2)
              (data_at (vx s1) 0) (data_at (vy s1) 0) (data_at (vz s1) 0))).
Proof.
  refine (proj1 (proj2 (proj2 (proj2 (proj2 (proj2
    (@find_k_block_physical_lag Q _ 4 [] unit_velocity unit_virial tiny 2
       eq_refl tiny_well_sized _ _ _ _))))))).
  - discriminate.
  - reflexivity.
  - discriminate.
  - split; [discriminate | reflexivity].
Defined.

(** C5.  For a fixed [correlation_step] in [0, Nc) the map from block index
    to accumulator element is injective on [0, Nc): two different blocks of
    a launch of [Nc] blocks never add into the same element.  After the
    launch every element has therefore received exactly one block sum, the
    one of the block whose lag it is. *)
Theorem find_k_blocks_do_not_collide {D} {SD : Scalar D}
    (n c group_size : Z)
    (g_sx g_sy g_sz g_vx g_vy g_vz : Ptr D) (g_ki g_ko : list D) :
  0 <= c < n -> len g_ki = n -> len g_ko = n ->
  (forall b1 b2, 0 <= b1 < n -> 0 <= b2 < n -> b1 <> b2 ->
     find_k_target n c b1 <> find_k_target n c b2) /\
  (forall l, 0 <= l < n ->
     let g' := gpu_find_k n BLOCK_SIZE_SHC group_size c
                 g_sx g_sy g_sz g_vx g_vy g_vz g_ki g_ko in
     let sum := find_k_block_sum BLOCK_SIZE_SHC group_size (find_k_target n c l)
                  g_sx g_sy g_sz g_vx g_vy g_vz in
     0 <= find_k_target n c l < n /\
     find_k_target n c (find_k_target n c l) = l /\
     Arr.get dzero (fst g') l = dadd (Arr.get dzero g_ki l) (fst sum) /\
     Arr.get dzero (snd g') l = dadd (Arr.get dzero g_ko l) (snd sum)).
Proof.
  intros Hc Lki Lko. split.
  - intros b1 b2 H1 H2 Hne E. apply Hne. exact (find_k_target_inj Hc H1 H2 E).
  - intros l Hl g' sum.
    split; [now apply find_k_target_range|].
    split; [now apply find_k_target_invol|].
    now apply gpu_find_k_get.
Qed.

Lemma find_k_blocks_do_not_collide_witness :
  find_k_target 3 1 0 <> find_k_target 3 1 2.
Proof.
  refine (proj1 (@find_k_blocks_do_not_collide Q _ 3 1 2
              (data_at (sx tiny) 2) (data_at (sy tiny) 2) (data_at (sz tiny) 2)
              (data_at (vx tiny) 0) (data_at (vy tiny) 0) (data_at (vz tiny) 0)
              (ki_negative tiny) (ko_negative tiny) _ _ _) 0 2 _ _ _).
  - split; [discriminate | reflexivity].
  - reflexivity.
  - reflexivity.
  - split; [discriminate | reflexivity].
  - split; [discriminate | reflexivity].
  - discriminate.
Defined.

(** * Finalization *)

(** C7, as the code has it.  On an enabled engine [postprocess] appends,
    for each lag [nc] in [0, Nc), the four accumulator values divided by the
    number of time origins; it changes neither the accumulators, nor the
    counter, nor the ring buffer.  It does switch the engine off
    ([compute = 0], [group_method = -1]), so a second call right after it
    appends nothing. *)
Theorem postprocess_emits_once {D} {SD : Scalar D}
    (s : SHC D) (file : list (D * D * D * D)) :
  compute s = true ->
  let s' := fst (postprocess s file) in
  let file' := snd (postprocess s file) in
  let t := dof_int (num_time_origins s) in
  file' = file ++
          map (fun nc => (ddiv (Arr.get dzero (ki_negative s) nc) t,
                          ddiv (Arr.get dzero (ko_negative s) nc) t,
                          ddiv (Arr.get dzero (ki_positive s) nc) t,
                          ddiv (Arr.get dzero (ko_positive s) nc) t))
              (Arr.range (Nc s)) /\
  ki_negative s' = ki_negative s /\ ko_negative s' = ko_negative s /\
  ki_positive s' = ki_positive s /\ ko_positive s' = ko_positive s /\
  num_time_origins s' = num_time_origins s /\
  ring_of s' = ring_of s /\
  compute s' = false /\ group_method s' = -1 /\
  postprocess s' file' = (s', file').
Proof.
  intros Hc; unfold postprocess. rewrite Hc; simpl.
  repeat split; reflexivity.
Qed.

Lemma postprocess_emits_once_witness :
  length (snd (postprocess tiny [])) = 3%nat /\
  postprocess (fst (postprocess tiny [])) (snd (postprocess tiny []))
  = (fst (postprocess tiny []), snd (postprocess tiny [])).
Proof.
  pose proof (postprocess_emits_once tiny [] eq_refl) as H.
  cbv zeta in H. destruct H as (H1 & _ & _ & _ & _ & _ & _ & _ & _ & H2).
  split; [rewrite H1; reflexivity | exact H2].
Defined.

(** C7 as stated fails: the second of two finalizations in a row writes
    no line at all, while the first wrote one line per lag. *)
Lemma postprocess_twice_differs :
  let first := postprocess tiny [] in
  let second := postprocess (fst first) [] in
  snd second <> snd first.
Proof. vm_compute. discriminate. Qed.

(** * The flux pages *)

Lemma row_layout_selects_rows : selects_rows row_layout.
Proof.
  intros d j Hd Hj.
  assert (Ed : d = 0 \/ d = 1 \/ d = 2) by lia.
  assert (Ej : j = 0 \/ j = 1 \/ j = 2) by lia.
  destruct Ed as [-> | [-> | ->]], Ej as [-> | [-> | ->]]; reflexivity.
Qed.

Lemma selects_rows_unique (l : layout) :
  length l = 9%nat -> selects_rows l -> l = row_layout.
Proof.
  intros Hl H.
  do 9 (destruct l as [| ? l]; [discriminate|]).
  destruct l; [|discriminate].
  assert (B0 : 0 <= 0 < 3) by lia.
  assert (B1 : 0 <= 1 < 3) by lia.
  assert (B2 : 0 <= 2 < 3) by lia.
  pose proof (H 0 0 B0 B0) as H00. pose proof (H 0 1 B0 B1) as H01.
  pose proof (H 0 2 B0 B2) as H02. pose proof (H 1 0 B1 B0) as H10.
  pose proof (H 1 1 B1 B1) as H11. pose proof (H 1 2 B1 B2) as H12.
  pose proof (H 2 0 B2 B0) as H20. pose proof (H 2 1 B2 B1) as H21.
  pose proof (H 2 2 B2 B2) as H22.
  vm_compute in H00, H01, H02, H10, H11, H12, H20, H21, H22.
  unfold row_layout. congruence.
Qed.

(** C8, as the code has it.  For a transport direction [d] in {x, y, z}
    the three flux components stored for tracked particle [n] are read from
    pages [tensor[d][0]], [tensor[d][1]], [tensor[d][2]] of the virial
    array, that is pages (0, 3, 4), (6, 1, 5) and (7, 8, 2).  These pages
    hold the row-[d] stress components under the page layout
    [xx, yy, zz, xy, xz, yz, yx, zx, zy], and under no other layout of nine
    pages. *)
Theorem flux_pages_hold_row {D} {SD : Scalar D}
    (step : Z) (group : list Group) (vel vir : list D) (s : SHC D) (n : Z) :
  well_sized s -> 0 <= step -> 0 <= direction s < 3 ->
  0 <= n < stored_count s vel ->
  offset_of s step + n < group_size s * Nc s ->
  let d := direction s in
  let N := Z.quot (len vel) 3 in
  let s1 := store_sample step group vel vir s in
  let i := offset_of s step + n in
  let m := source_index s group n in
  Arr.get dzero (sx s1) i = Arr.get dzero vir (N * tensor_at d 0 + m) /\
  Arr.get dzero (sy s1) i = Arr.get dzero vir (N * tensor_at d 1 + m) /\
  Arr.get dzero (sz s1) i = Arr.get dzero vir (N * tensor_at d 2 + m) /\
  (tensor_at d 0, tensor_at d 1, tensor_at d 2)
    = (if d =? 0 then (0, 3, 4) else if d =? 1 then (6, 1, 5) else (7, 8, 2)) /\
  page_component row_layout (tensor_at d 0) = Some (axis_of d, X) /\
  page_component row_layout (tensor_at d 1) = Some (axis_of d, Y) /\
  page_component row_layout (tensor_at d 2) = Some (axis_of d, Zax) /\
  (forall l : layout, length l = 9%nat -> selects_rows l -> l = row_layout).
Proof.
  intros W H0 Hd Hn Hlt d N s1 i m.
  assert (0 <= offset_of s step) by (apply offset_range; auto; apply W).
  destruct (store_sample_hit step group vel vir s (n := n)) as (E1 & E2 & E3 & _);
    auto; try (destruct W; lia).
  split; [exact E1|]. split; [exact E2|]. split; [exact E3|].
  split.
  { assert (Ed : d = 0 \/ d = 1 \/ d = 2) by (unfold d; lia).
    destruct Ed as [-> | [-> | ->]]; reflexivity. }
  pose proof row_layout_selects_rows as R. fold d in Hd.
  split; [apply (R d 0); lia|].
  split; [apply (R d 1); lia|].
  split; [apply (R d 2); lia|].
  apply selects_rows_unique.
Qed.

Lemma flux_pages_hold_row_witness :
  Arr.get dzero (sz (store_sample 4 [] unit_velocity unit_virial tiny)) (2 + 1)
  = Arr.get dzero unit_virial (2 * 4 + 1).
Proof.
  refine (proj1 (proj2 (proj2
    (@flux_pages_hold_row Q _ 4 [] unit_velocity unit_virial tiny 1
       tiny_well_sized _ _ _ _)))).
  - discriminate.
  - split; [discriminate | reflexivity].
  - split; [discriminate | reflexivity].
  - reflexivity.
Defined.

(** C8 as stated fails: under the layout written in the specification,
    [xx, yy, zz, xy, yz, zx, yx, zy, zx], the third page selected for
    direction x holds yz, not xz. *)
Lemma spec_layout_does_not_select_rows :
  page_component spec_layout (tensor_at 0 2) = Some (Y, Zax) /\
  ~ selects_rows spec_layout.
Proof.
  split; [reflexivity|].
  intros H. specialize (H 0 2). vm_compute in H.
  assert (E : Some (Y, Zax) = Some (X, Zax)).
  { apply H; split; first [discriminate | reflexivity]. }
  discriminate E.
Qed.

(** * Setup *)

Section ParseFacts.
Context {D : Type}.
Variable is_valid_int : string -> option Z.
Variable parse_group : list string -> Z -> bool -> list Group -> Z -> option (Z * Z).

Lemma parse_keywords_none param groups (s : SHC D) :
  parse_keywords parse_group (Z.to_nat 4) param 4 groups 4 s = Ok s.
Proof. reflexivity. Qed.

Lemma parse_keywords_selector param groups (s : SHC D) :
  parse_keywords parse_group (Z.to_nat 7) param 7 groups 4 s =
  if String.eqb (Arr.get EmptyString param 4) "group" then
    match parse_group param 7 false groups 4 with
    | Some (gm, gi) =>
        Ok (set_config s (compute s) (sample_interval s) (Nc s) (direction s) gm gi)
    | None => Fatal "parse_group: input error."
    end
  else Fatal "Unrecognized argument in compute_shc.\n".
Proof.
  change (Z.to_nat 7) with 7%nat. cbn [parse_keywords].
  change (4 <? 7) with true. cbv iota.
  destruct (String.eqb (Arr.get EmptyString param 4) "group"); auto.
Qed.

End ParseFacts.

(** C4, as the code has it.  [parse] ends the program with an input error
    exactly when the number of arguments is neither 3 nor 6, or the
    sampling interval is not an integer in [1, 10], or [Nc] is not an
    integer in [100, 1000], or the direction is not one of the integers 0,
    1, 2, or the fourth argument is not the keyword [group], or
    [parse_group] rejects the selector that follows the keyword.  Every
    other command line is accepted; the engine it yields is enabled, holds
    the three numbers read, and has the buffers of the object [parse] was
    called on: nothing has been allocated. *)
Theorem parse_rejects_iff {D}
    (is_valid_int : string -> option Z)
    (parse_group : list string -> Z -> bool -> list Group -> Z -> option (Z * Z))
    (param : list string) (groups : list Group) (s : SHC D) :
  let num_param := len param in
  let arg := Arr.get EmptyString param in
  let r := parse is_valid_int parse_group param groups s in
  (is_fatal r = true <->
     (num_param <> 4 /\ num_param <> 7)
     \/ (forall v, is_valid_int (arg 1) = Some v -> ~ 1 <= v <= 10)
     \/ (forall v, is_valid_int (arg 2) = Some v -> ~ 100 <= v <= 1000)
     \/ (forall v, is_valid_int (arg 3) = Some v -> ~ 0 <= v <= 2)
     \/ (num_param = 7 /\ arg 4 <> "group"%string)
     \/ (num_param = 7 /\ parse_group param num_param false groups 4 = None)) /\
  (forall s', r = Ok s' ->
     compute s' = true /\
     is_valid_int (arg 1) = Some (sample_interval s') /\
     is_valid_int (arg 2) = Some (Nc s') /\
     is_valid_int (arg 3) = Some (direction s') /\
     1 <= sample_interval s' <= 10 /\ 100 <= Nc s' <= 1000 /\
     0 <= direction s' <= 2 /\
     (num_param = 4 ->
        group_method s' = group_method s /\ group_id s' = group_id s) /\
     (num_param = 7 ->
        parse_group param num_param false groups 4
        = Some (group_method s', group_id s')) /\
     ring_of s' = ring_of s /\
     ki_negative s' = ki_negative s /\ ko_negative s' = ko_negative s /\
     ki_positive s' = ki_positive s /\ ko_positive s' = ko_positive s).
Proof.
  intros num_param arg r. unfold r, parse. fold num_param. fold arg.
  destruct (Z.eqb_spec num_param 4) as [E4|N4];
    [|destruct (Z.eqb_spec num_param 7) as [E7|N7]]; cbn [negb andb].
  3: { split; [split; auto | discriminate]. }
  all: destruct (is_valid_int (arg 1)) as [si|] eqn:V1;
    [|split; [split; auto; right; left; discriminate | discriminate]].
  all: destruct (Z.ltb_spec si 1);
    [split; [split; auto; intros _; right; left; intros v [= <-]; lia
            | discriminate]|].
  all: destruct (Z.ltb_spec 10 si);
    [split; [split; auto; intros _; right; left; intros v [= <-]; lia
            | discriminate]|].
  all: destruct (is_valid_int (arg 2)) as [n|] eqn:V2;
    [|split; [split; auto; do 2 right; left; discriminate | discriminate]].
  all: destruct (Z.ltb_spec n 100);
    [split; [split; auto; intros _; do 2 right; left; intros v [= <-]; lia
            | discriminate]|].
  all: destruct (Z.ltb_spec 1000 n);
    [split; [split; auto; intros _; do 2 right; left; intros v [= <-]; lia
            | discriminate]|].
  all: destruct (is_valid_int (arg 3)) as [d|] eqn:V3;
    [|split; [split; auto; do 3 right; left; discriminate | discriminate]].
  all: destruct ((d =? 0) || (d =? 1) || (d =? 2)) eqn:Ed;
    [|split; [split; auto; intros _; do 3 right; left; intros v [= <-];
              apply orb_false_iff in Ed as [Ed E2];
              apply orb_false_iff in Ed as [E0 E1]; lia
             | discriminate]].
  all: assert (Hd : 0 <= d <= 2)
    by (apply orb_true_iff in Ed as [Ed|Ed];
        [apply orb_true_iff in Ed as [Ed|Ed]|]; lia).
  - (* three arguments *)
    rewrite E4, parse_keywords_none. split.
    + split; [discriminate|].
      intros [[? _]|[HH|[HH|[HH|[[? _]|[? _]]]]]]; try lia;
        specialize (HH _ eq_refl); lia.
    + intros s' [= <-]; simpl. repeat split; auto; lia.
  - (* six arguments *)
    rewrite E7, parse_keywords_selector.
    destruct (String.eqb_spec (arg 4) "group") as [Eg|Ng].
    + fold arg. rewrite Eg. cbn [String.eqb Ascii.eqb Bool.eqb].
      destruct (parse_group param 7 false groups 4) as [[gm gi]|] eqn:Pg.
      * split.
        -- split; [discriminate|].
           intros [[_ ?]|[HH|[HH|[HH|[[_ ?]|[_ ?]]]]]]; try congruence; try lia;
             specialize (HH _ eq_refl); lia.
        -- intros s' [= <-]; simpl. repeat split; auto; lia.
      * split; [split; auto; intros _; do 5 right; auto | discriminate].
    + fold arg. destruct (String.eqb_spec (arg 4) "group"); [contradiction|].
      split; [split; auto; intros _; do 4 right; left; auto | discriminate].
Qed.

Lemma parse_rejects_iff_witness :
  compute configured = true /\ 100 <= Nc configured <= 1000.
Proof.
  destruct (@parse_rejects_iff Q decimal_int (registry_parse_group decimal_int)
              plain_params [] blank) as [_ H].
  destruct (H configured eq_refl) as (Hc & _ & _ & _ & _ & Hn & _).
  split; [exact Hc | exact Hn].
Defined.

(** C4 as stated fails: with interval 1, [Nc] 100, direction 0, six
    arguments and the keyword [group], none of the listed reasons for
    rejection holds; the command line is rejected all the same, because the
    registry has no grouping method 5. *)
Lemma parse_rejects_unlisted_selector :
  let param := selector_params in
  let num_param := len param in
  let arg := Arr.get EmptyString param in
  let r := @parse Q decimal_int (registry_parse_group decimal_int) param [] blank in
  ~ (is_fatal r = true <->
       (num_param <> 4 /\ num_param <> 7)
       \/ (forall v, decimal_int (arg 1) = Some v -> ~ 1 <= v <= 10)
       \/ (forall v, decimal_int (arg 2) = Some v -> ~ 100 <= v <= 1000)
       \/ (forall v, decimal_int (arg 3) = Some v -> ~ 0 <= v <= 2)
       \/ (num_param = 7 /\ arg 4 <> "group"%string)).
Proof.
  intros param num_param arg r [H _].
  assert (F : is_fatal r = true) by reflexivity.
  destruct (H F) as [[_ B]|[B|[B|[B|[_ B]]]]].
  - apply B; reflexivity.
  - apply (B 1); [reflexivity | lia].
  - apply (B 100); [reflexivity | lia].
  - apply (B 0); [reflexivity | lia].
  - apply B; reflexivity.
Qed.

(** * Runs *)

Section RunFacts.
Context {D : Type} {SD : Scalar D}.
Variables (group : list Group) (velocity virial : Z -> list D).

Lemma run_nonpos T (s : SHC D) : T <= 0 -> run group velocity virial T s = s.
Proof. intros H; unfold run. now rewrite range_nonpos. Qed.

Lemma run_succ T (s : SHC D) :
  0 <= T ->
  run group velocity virial (T + 1) s
  = process T group (velocity T) (virial T) (run group velocity virial T s).
Proof. intros H; unfold run. now rewrite range_succ, fold_left_app. Qed.

(** Induction along a run. *)
Lemma run_invariant (P : Z -> SHC D -> Prop) (s : SHC D) :
  P 0 s ->
  (forall T st, 0 <= T -> P T st ->
     P (T + 1) (process T group (velocity T) (virial T) st)) ->
  forall T, 0 <= T -> P T (run group velocity virial T s).
Proof.
  intros H0 Hstep T HT. pattern T. apply natlike_ind; auto.
  intros x Hx IH. cbv beta in *. unfold Z.succ. rewrite run_succ by auto.
  now apply Hstep.
Qed.

Lemma run_config T (s : SHC D) :
  let s' := run group velocity virial T s in
  compute s' = compute s /\ sample_interval s' = sample_interval s /\
  Nc s' = Nc s /\ direction s' = direction s /\
  group_method s' = group_method s /\ group_id s' = group_id s /\
  group_size s' = group_size s.
Proof.
  simpl. destruct (Z.le_gt_cases 0 T) as [HT|HT];
    [|rewrite run_nonpos by lia; tauto].
  apply (run_invariant
           (fun _ st => compute st = compute s /\ sample_interval st = sample_interval s /\
              Nc st = Nc s /\ direction st = direction s /\
              group_method st = group_method s /\ group_id st = group_id s /\
              group_size st = group_size s)); auto.
  - tauto.
  - intros T' st _ IH.
    pose proof (process_config T' group (velocity T') (virial T') st) as C.
    simpl in C. intuition congruence.
Qed.

Lemma run_well_sized T (s : SHC D) :
  well_sized s -> well_sized (run group velocity virial T s).
Proof.
  intros W. destruct (Z.le_gt_cases 0 T) as [HT|HT];
    [|now rewrite run_nonpos by lia].
  apply (run_invariant (fun _ st => well_sized st)); auto.
  intros; now apply process_well_sized.
Qed.

End RunFacts.

Section SampleCount.

Lemma div_succ i T :
  0 < i -> 0 <= T ->
  (T + 1) / i = T / i + (if Z.rem (T + 1) i =? 0 then 1 else 0).
Proof.
  intros Hi HT.
  rewrite Z.rem_mod_nonneg by lia.
  pose proof (Z.div_mod T i) as E. pose proof (Z.mod_pos_bound T i) as B.
  destruct (Z.eq_dec (T mod i) (i - 1)) as [Hm|Hm].
  - assert (Ed : (T + 1) / i = T / i + 1)
      by (symmetry; apply Z.div_unique with (r := 0); lia).
    assert (Em : (T + 1) mod i = 0)
      by (symmetry; apply Z.mod_unique with (q := T / i + 1); lia).
    rewrite Ed, Em. reflexivity.
  - assert (Ed : (T + 1) / i = T / i)
      by (symmetry; apply Z.div_unique with (r := T mod i + 1); lia).
    assert (Em : (T + 1) mod i = T mod i + 1)
      by (symmetry; apply Z.mod_unique with (q := T / i); lia).
    rewrite Ed, Em. destruct (Z.eqb_spec (T mod i + 1) 0); lia.
Qed.

Lemma samples_written_div i T :
  0 < i -> 0 <= T -> @samples_written i T = T / i.
Proof.
  intros Hi HT. pattern T. apply natlike_ind; auto.
  intros x Hx IH. cbv beta in *. unfold Z.succ, samples_written in *.
  rewrite range_succ, filter_app, length_app, Nat2Z.inj_add, IH by auto.
  rewrite div_succ by auto. unfold is_sampling_step. simpl.
  destruct (Z.rem (x + 1) i =? 0); reflexivity.
Qed.

(** At a sampling step the sample number is the count of earlier samples. *)
Lemma sampling_step_div i T :
  0 < i -> 0 <= T -> Z.rem (T + 1) i = 0 -> (T + 1) / i = T / i + 1.
Proof. intros Hi HT Hr. rewrite div_succ, Hr by auto. reflexivity. Qed.

Lemma idle_step_div i T :
  0 < i -> 0 <= T -> Z.rem (T + 1) i <> 0 -> (T + 1) / i = T / i.
Proof.
  intros Hi HT Hr. rewrite div_succ by auto.
  destruct (Z.eqb_spec (Z.rem (T + 1) i) 0); lia.
Qed.

End SampleCount.

Section Counting.
Context {D : Type} {SD : Scalar D}.
Variables (group : list Group) (velocity virial : Z -> list D).
Variable s : SHC D.
Hypothesis Hc : compute s = true.
Hypothesis Hi : 0 < sample_interval s.
Hypothesis Hn : 0 < Nc s.

(** The counter and the accumulators after [T] steps. *)
Lemma run_counter T :
  0 <= T ->
  let st := run group velocity virial T s in
  num_time_origins st
    = num_time_origins s + Z.max 0 (T / sample_interval s - (Nc s - 1)) /\
  (T / sample_interval s < Nc s ->
     ki_negative st = ki_negative s /\ ko_negative st = ko_negative s /\
     ki_positive st = ki_positive s /\ ko_positive st = ko_positive s).
Proof.
  intros HT; simpl.
  pose (P := fun (T : Z) (st : SHC D) =>
    (compute st = true /\ sample_interval st = sample_interval s /\ Nc st = Nc s) /\
    num_time_origins st
      = num_time_origins s + Z.max 0 (T / sample_interval s - (Nc s - 1)) /\
    (T / sample_interval s < Nc s ->
       ki_negative st = ki_negative s /\ ko_negative st = ko_negative s /\
       ki_positive st = ki_positive s /\ ko_positive st = ko_positive s)).
  assert (H : P T (run group velocity virial T s)); [|apply H].
  apply run_invariant; auto; unfold P.
  - split; [auto|]. split; [|auto].
    rewrite Z.div_0_l by lia. lia.
  - clear T HT. intros T st HT ((C1 & C2 & C3) & Hcnt & Hacc).
    set (st' := process T group (velocity T) (virial T) st).
    pose proof (process_config T group (velocity T) (virial T) st) as C.
    simpl in C. fold st' in C. destruct C as (C1' & C2' & C3' & _).
    split; [intuition congruence|].
    destruct (Z.eq_dec (Z.rem (T + 1) (sample_interval st)) 0) as [Hr|Hr].
    + (* a sampling step *)
      assert (Ed : (T + 1) / sample_interval s = T / sample_interval s + 1)
        by (apply sampling_step_div; auto; congruence).
      assert (Ek : sample_step_of st T = T / sample_interval s)
        by (unfold sample_step_of; rewrite C2; apply Z.quot_div_nonneg; lia).
      unfold st'. rewrite process_sample by auto. rewrite Ek, C3.
      pose proof (store_sample_frame T group (velocity T) (virial T) st) as F.
      destruct F as (_ & _ & _ & _ & _ & _ & _ & F8 & F9 & F10 & F11 & F12).
      destruct (Z.leb_spec (Nc s - 1) (T / sample_interval s)).
      * split; [simpl; rewrite F8, Hcnt, Ed; lia | intros; lia].
      * split; [rewrite F8, Hcnt, Ed; lia|].
        intros _. rewrite F9, F10, F11, F12. apply Hacc. lia.
    + (* no sample *)
      assert (Ed : (T + 1) / sample_interval s = T / sample_interval s)
        by (apply idle_step_div; auto; congruence).
      unfold st'. rewrite process_skip by auto. rewrite Ed. auto.
Qed.

End Counting.

Section Preprocess.
Context {D : Type} {SD : Scalar D}.
Variables (junk : Z -> Z -> D) (N : Z) (group : list Group) (cfg : SHC D).
Hypothesis Hc : compute cfg = true.

Let s0 := preprocess junk N group cfg.

Lemma preprocess_state :
  compute s0 = true /\ sample_interval s0 = sample_interval cfg /\
  Nc s0 = Nc cfg /\ direction s0 = direction cfg /\
  group_method s0 = group_method cfg /\ group_id s0 = group_id cfg /\
  num_time_origins s0 = 0 /\
  ki_negative s0 = repeat dzero (Z.to_nat (Nc cfg)) /\
  ko_negative s0 = repeat dzero (Z.to_nat (Nc cfg)) /\
  ki_positive s0 = repeat dzero (Z.to_nat (Nc cfg)) /\
  ko_positive s0 = repeat dzero (Z.to_nat (Nc cfg)).
Proof. unfold s0, preprocess. rewrite Hc; simpl. repeat split; auto. Qed.

Lemma preprocess_well_sized :
  0 < sample_interval cfg -> 0 < Nc cfg -> 0 <= group_size s0 -> well_sized s0.
Proof.
  unfold s0, preprocess. rewrite Hc; simpl. intros Hi Hn Hg.
  constructor; simpl; auto;
    unfold resize, resize_fill;
    rewrite ?length_map, ?length_range, ?repeat_length; nia.
Qed.

End Preprocess.

(** * Claims about runs *)

(** C3.  Start from the engine [preprocess] sets up and run steps
    [0, ..., T-1].  While fewer than [Nc] samples have been written the
    counter of time origins is zero and the four accumulators are the
    all-zero arrays of setup.  A step at which the counter grows, that is a
    step that performs a reduction, is one after which at least [Nc]
    samples have been written. *)
Theorem no_reduction_before_buffer_full {D} {SD : Scalar D}
    (junk : Z -> Z -> D) (N : Z) (group : list Group) (cfg : SHC D)
    (velocity virial : Z -> list D) (T : Z) :
  compute cfg = true -> 0 < sample_interval cfg -> 0 < Nc cfg -> 0 <= T ->
  let s0 := preprocess junk N group cfg in
  let written := samples_written (sample_interval cfg) in
  let st := run group velocity virial T s0 in
  let st' := run group velocity virial (T + 1) s0 in
  (written T < Nc cfg ->
     num_time_origins st = 0 /\
     ki_negative st = ki_negative s0 /\ ko_negative st = ko_negative s0 /\
     ki_positive st = ki_positive s0 /\ ko_positive st = ko_positive s0 /\
     ki_negative st = repeat dzero (Z.to_nat (Nc cfg)) /\
     ko_negative st = repeat dzero (Z.to_nat (Nc cfg)) /\
     ki_positive st = repeat dzero (Z.to_nat (Nc cfg)) /\
     ko_positive st = repeat dzero (Z.to_nat (Nc cfg))) /\
  (num_time_origins st' <> num_time_origins st -> Nc cfg <= written (T + 1)).
Proof.
  intros Hc Hi Hn HT s0 written st st'.
  destruct (preprocess_state junk N group cfg Hc)
    as (S1 & S2 & S3 & _ & _ & _ & S7 & S8 & S9 & S10 & S11).
  fold s0 in S1, S2, S3, S7, S8, S9, S10, S11.
  assert (Hi0 : 0 < sample_interval s0) by lia.
  assert (Hn0 : 0 < Nc s0) by lia.
  destruct (run_counter group velocity virial s0 S1 Hi0 Hn0 HT) as [Hcnt Hacc].
  destruct (run_counter group velocity virial s0 S1 Hi0 Hn0 (T := T + 1)) as [Hcnt' _];
    [lia|].
  fold st in Hcnt, Hacc. fold st' in Hcnt'.
  unfold written. rewrite !samples_written_div by lia.
  rewrite S2, S3, S7 in *.
  split.
  - intros Hw. destruct (Hacc Hw) as (A1 & A2 & A3 & A4).
    repeat split; auto; try lia; congruence.
  - intros Hne.
    assert (T / sample_interval cfg <= (T + 1) / sample_interval cfg)
      by (apply Z.div_le_mono; lia).
    lia.
Qed.

Lemma no_reduction_before_buffer_full_witness :
  num_time_origins
    (run [] (fun _ => unit_velocity) (fun _ => unit_virial) 50
       (preprocess (fun _ _ => 0%Q) 2 [] configured)) = 0.
Proof.
  refine (proj1 (proj1
    (@no_reduction_before_buffer_full Q _ (fun _ _ => 0%Q) 2 [] configured
       (fun _ => unit_velocity) (fun _ => unit_virial) 50 eq_refl _ _ _) _)).
  - reflexivity.
  - reflexivity.
  - discriminate.
  - reflexivity.
Defined.

(** C2, as the code has it.  After steps [0, ..., T-1] the engine is
    still enabled, so finalization goes through its division, and the
    counter of time origins is the number of samples written beyond the
    first [Nc - 1]: it is positive exactly when at least [Nc] samples have
    been written, and zero for every shorter run. *)
Theorem time_origins_after_run {D} {SD : Scalar D}
    (junk : Z -> Z -> D) (N : Z) (group : list Group) (cfg : SHC D)
    (velocity virial : Z -> list D) (T : Z) :
  compute cfg = true -> 0 < sample_interval cfg -> 0 < Nc cfg -> 0 <= T ->
  let s0 := preprocess junk N group cfg in
  let written := samples_written (sample_interval cfg) T in
  let st := run group velocity virial T s0 in
  compute st = true /\
  num_time_origins st = Z.max 0 (written - (Nc cfg - 1)) /\
  (0 < num_time_origins st <-> Nc cfg <= written) /\
  (forall file,
     snd (postprocess st file)
     = file ++ map (shc_line st) (Arr.range (Nc cfg))).
Proof.
  intros Hc Hi Hn HT s0 written st.
  destruct (preprocess_state junk N group cfg Hc)
    as (S1 & S2 & S3 & _ & _ & _ & S7 & _).
  fold s0 in S1, S2, S3, S7.
  assert (Hi0 : 0 < sample_interval s0) by lia.
  assert (Hn0 : 0 < Nc s0) by lia.
  destruct (run_counter group velocity virial s0 S1 Hi0 Hn0 HT) as [Hcnt _].
  destruct (run_config group velocity virial T s0) as (R1 & _ & R3 & _).
  fold st in Hcnt, R1, R3.
  unfold written. rewrite samples_written_div by lia.
  rewrite S2, S3, S7 in Hcnt.
  assert (Rc : compute st = true) by congruence.
  split; [exact Rc|]. split; [lia|]. split; [lia|].
  intros file. unfold postprocess. rewrite Rc; simpl. now rewrite R3, S3.
Qed.

Lemma time_origins_after_run_witness :
  0 < num_time_origins
        (run [] (fun _ => unit_velocity) (fun _ => unit_virial) 100
           (preprocess (fun _ _ => 0%Q) 2 [] configured))
  <-> Nc configured
      <= samples_written (sample_interval configured) 100.
Proof.
  refine (proj1 (proj2 (proj2
    (@time_origins_after_run Q _ (fun _ _ => 0%Q) 2 [] configured
       (fun _ => unit_velocity) (fun _ => unit_virial) 100 eq_refl _ _ _)))).
  - reflexivity.
  - reflexivity.
  - discriminate.
Defined.

(** C2 as stated fails: after fifty steps of a run with [Nc = 100] the
    engine is enabled, finalization writes its hundred lines, and the
    counter it divides by is zero. *)
Lemma finalization_with_zero_origins :
  let st := run [] (fun _ => unit_velocity) (fun _ => unit_virial) 50
              (preprocess (fun _ _ => 0%Q) 2 [] configured) in
  ~ (compute st = true -> 0 < num_time_origins st) /\
  length (snd (postprocess st [])) = 100%nat /\
  num_time_origins st = 0.
Proof.
  vm_compute. split; [|split; reflexivity].
  intros H. specialize (H eq_refl). discriminate H.
Qed.

(** * Subsets *)

Lemma tensor_at_range d j : 0 <= tensor_at d j < 9.
Proof.
  unfold tensor_at, tensor, Arr.get.
  destruct (d <? 0); [destruct (j <? 0); [lia | destruct (Z.to_nat j); simpl; lia]|].
  destruct (Z.to_nat d) as [|[|[|k]]]; simpl;
    try (destruct (j <? 0); [lia|];
         destruct (Z.to_nat j) as [|[|[|[|]]]]; simpl; lia).
  destruct k; simpl; destruct (j <? 0); try lia;
    destruct (Z.to_nat j); simpl; lia.
Qed.

Section SubsetFacts.
Context {D : Type} {SD : Scalar D}.
Variables (group : list Group) (s : SHC D).
Hypothesis Hsub : group_method s <> -1.

(** Two inputs that agree on the tracked particles store the same page. *)
Lemma store_sample_agree step (vel1 vir1 vel2 vir2 : list D) :
  len vel1 = len vel2 ->
  (forall n, 0 <= n < group_size s ->
     same_particle (Z.quot (len vel1) 3) vel1 vir1 vel2 vir2 (source_index s group n)) ->
  store_sample step group vel1 vir1 s = store_sample step group vel2 vir2 s.
Proof.
  intros Hl Hsame. unfold store_sample.
  destruct (Z.eqb_spec (-1) (group_method s)) as [E|_]; [congruence|].
  rewrite <- Hl. set (N := Z.quot (len vel1) 3) in *.
  rewrite !gpu_copy_data_proj. cbv zeta.
  assert (Hidx : forall n, 0 <= n < group_size s ->
            source_index s group n
            = Arr.get 0 (contents (Arr.get no_group group (group_method s)))
                (Arr.get 0 (cpu_size_sum (Arr.get no_group group (group_method s)))
                   (group_id s) + n)).
  { intros n _. unfold source_index.
    destruct (Z.eqb_spec (-1) (group_method s)); [congruence | reflexivity]. }
  assert (Hnn : forall n,
            In n (thread_ids (Z.quot (group_size s - 1) BLOCK_SIZE_SHC + 1)
                    BLOCK_SIZE_SHC) -> 0 <= n)
    by (intros n; apply thread_ids_nonneg; unfold BLOCK_SIZE_SHC; lia).
  f_equal. f_equal; apply gather_ext; auto; intros n Hn _;
    rewrite <- (Hidx n Hn); destruct (Hsame n Hn) as [Hv Hw];
    unfold deref, data_at; cbn [p_arr p_base].
  - apply Hw, tensor_at_range.
  - apply Hw, tensor_at_range.
  - apply Hw, tensor_at_range.
  - replace (0 + source_index s group n) with (N * 0 + source_index s group n) by lia.
    apply Hv; lia.
  - replace (N + source_index s group n) with (N * 1 + source_index s group n) by lia.
    apply Hv; lia.
  - apply Hv; lia.
Qed.

Lemma process_agree step (vel1 vir1 vel2 vir2 : list D) :
  len vel1 = len vel2 ->
  (forall n, 0 <= n < group_size s ->
     same_particle (Z.quot (len vel1) 3) vel1 vir1 vel2 vir2 (source_index s group n)) ->
  process step group vel1 vir1 s = process step group vel2 vir2 s.
Proof.
  intros Hl Hsame. unfold process.
  now rewrite (store_sample_agree step Hl Hsame).
Qed.

End SubsetFacts.

Lemma source_index_config {D} (s s' : SHC D) group n :
  group_method s' = group_method s -> group_id s' = group_id s ->
  source_index s' group n = source_index s group n.
Proof. intros E1 E2; unfold source_index. now rewrite E1, E2. Qed.

(** C6.  With a named subset active, tracked particle [n] of the page
    being written is read from global index
    [contents[cpu_size_sum[group_id] + n]] of the six input pages and from
    nowhere else: two runs whose inputs agree, step by step, on the
    particles of the subset end in the same engine state, in particular
    with the same four accumulators, whatever the other particles hold. *)
Theorem subset_isolation {D} {SD : Scalar D}
    (group : list Group) (s : SHC D)
    (velocity1 virial1 velocity2 virial2 : Z -> list D) (T : Z) :
  group_method s <> -1 -> well_sized s ->
  (forall t, 0 <= t < T ->
     len (velocity1 t) = len (velocity2 t) /\
     forall n, 0 <= n < group_size s ->
       same_particle (Z.quot (len (velocity1 t)) 3)
         (velocity1 t) (virial1 t) (velocity2 t) (virial2 t)
         (source_index s group n)) ->
  let g := Arr.get no_group group (group_method s) in
  let first := Arr.get 0 (cpu_size_sum g) (group_id s) in
  let r1 := run group velocity1 virial1 T s in
  let r2 := run group velocity2 virial2 T s in
  (forall step vel vir n, 0 <= step -> 0 <= n < group_size s ->
     let m := Arr.get 0 (contents g) (first + n) in
     let N := Z.quot (len vel) 3 in
     let i := offset_of s step + n in
     let s1 := store_sample step group vel vir s in
     Arr.get dzero (sx s1) i = Arr.get dzero vir (N * tensor_at (direction s) 0 + m) /\
     Arr.get dzero (sy s1) i = Arr.get dzero vir (N * tensor_at (direction s) 1 + m) /\
     Arr.get dzero (sz s1) i = Arr.get dzero vir (N * tensor_at (direction s) 2 + m) /\
     Arr.get dzero (vx s1) i = Arr.get dzero vel (0 + m) /\
     Arr.get dzero (vy s1) i = Arr.get dzero vel (N + m) /\
     Arr.get dzero (vz s1) i = Arr.get dzero vel (N * 2 + m)) /\
  ki_negative r1 = ki_negative r2 /\ ko_negative r1 = ko_negative r2 /\
  ki_positive r1 = ki_positive r2 /\ ko_positive r1 = ko_positive r2 /\
  r1 = r2.
Proof.
  intros Hsub W Hsame g first r1 r2.
  assert (Hsrc : forall n, source_index s group n
                           = Arr.get 0 (contents g) (first + n)).
  { intros n. unfold source_index.
    destruct (Z.eqb_spec (-1) (group_method s)); [congruence | reflexivity]. }
  split.
  { intros step vel vir n Hstep Hn m N i s1.
    pose proof (offset_range s (ws_interval W) (ws_Nc W) Hstep (ws_group_size W)).
    unfold m. rewrite <- Hsrc.
    apply store_sample_hit; try (destruct W; lia).
    unfold stored_count.
    destruct (Z.eqb_spec (-1) (group_method s)); [congruence | lia]. }
  assert (E : r1 = r2); [|rewrite E; tauto].
  unfold r1, r2. clear r1 r2.
  destruct (Z.le_gt_cases 0 T) as [HT|HT]; [|now rewrite !run_nonpos by lia].
  revert Hsame. pattern T. apply natlike_ind; auto.
  intros U HU IH Hsame. cbv beta in *. unfold Z.succ. rewrite !run_succ by auto.
    rewrite IH by (intros; apply Hsame; lia).
    set (st := run group velocity2 virial2 U s).
    destruct (run_config group velocity2 virial2 U s)
      as (_ & _ & _ & _ & C5 & C6 & C7). fold st in C5, C6, C7.
    destruct (Hsame U) as [Hl Hp]; [lia|].
    apply process_agree; auto; [congruence|].
    intros n Hn. rewrite (@source_index_config _ s st group n C5 C6).
    apply Hp. lia.
Qed.

Lemma subset_engine_well_sized : well_sized subset_engine.
Proof. constructor; simpl; lia. Qed.

Lemma subset_isolation_witness :
  ki_negative (run ten_groups (fun _ => ramp 3) (fun _ => ramp 9) 4 subset_engine)
  = ki_negative (run ten_groups (fun _ => masked_ramp 3) (fun _ => masked_ramp 9) 4
                   subset_engine).
Proof.
  refine (proj1 (proj2
    (@subset_isolation Q _ ten_groups subset_engine
       (fun _ => ramp 3) (fun _ => ramp 9)
       (fun _ => masked_ramp 3) (fun _ => masked_ramp 9) 4
       _ subset_engine_well_sized _))).
  - discriminate.
  - intros t _. split; [reflexivity|].
    intros n Hn.
    assert (En : n = 0 \/ n = 1 \/ n = 2) by (simpl in Hn; lia).
    split; intros q Hq.
    + assert (Eq : q = 0 \/ q = 1 \/ q = 2) by lia.
      destruct En as [-> | [-> | ->]], Eq as [-> | [-> | ->]]; reflexivity.
    + assert (Eq : q = 0 \/ q = 1 \/ q = 2 \/ q = 3 \/ q = 4 \/ q = 5
                   \/ q = 6 \/ q = 7 \/ q = 8) by lia.
      destruct En as [-> | [-> | ->]],
               Eq as [-> | [-> | [-> | [-> | [-> | [-> | [-> | [-> | ->]]]]]]]];
        reflexivity.
Defined.

(** * The constant trajectory *)

Lemma Qplus_inject_Z a b : Qplus (inject_Z a) (inject_Z b) = inject_Z (a + b).
Proof. unfold Qplus, inject_Z; simpl. f_equal. lia. Qed.

Section UnitBlock.
Variables (bid : Z) (g_sx g_sy g_sz g_vx g_vy g_vz : Ptr Q).
Hypothesis Hunit : forall n, 0 <= n < 2 ->
  deref g_sx n = 1%Q /\ deref g_sy n = 0%Q /\ deref g_sz n = 0%Q /\
  deref g_vx (bid * 2 + n) = 1%Q /\ deref g_vy (bid * 2 + n) = 0%Q /\
  deref g_vz (bid * 2 + n) = 0%Q.

Lemma unit_thread tid :
  0 <= tid ->
  find_k_thread 2 bid tid g_sx g_sy g_sz g_vx g_vy g_vz
  = if tid <? 2 then (1%Q, 0%Q) else (0%Q, 0%Q).
Proof.
  intros Ht. unfold find_k_thread.
  change (Arr.range (Z.quot (2 - 1) BLOCK_SIZE_SHC + 1)) with [0].
  cbn [fold_left]. unfold find_k_round.
  change (0 * BLOCK_SIZE_SHC) with 0. rewrite Z.add_0_r.
  destruct (Z.ltb_spec tid 2) as [Hlt|Hge]; [|reflexivity].
  destruct (Hunit (n := tid)) as (-> & -> & -> & -> & -> & ->); [lia|].
  reflexivity.
Qed.

Lemma unit_block_sum :
  find_k_block_sum BLOCK_SIZE_SHC 2 bid g_sx g_sy g_sz g_vx g_vy g_vz
  = (inject_Z 2, 0%Q).
Proof.
  unfold find_k_block_sum.
  rewrite (map_ext_in
             (fun tid => find_k_thread 2 bid tid g_sx g_sy g_sz g_vx g_vy g_vz)
             (fun tid => if tid <? 2 then (1%Q, 0%Q) else (0%Q, 0%Q)))
    by (intros tid Htid; apply in_range in Htid; apply unit_thread; lia).
  vm_compute. reflexivity.
Qed.

End UnitBlock.

Section UnitRun.
Variables (group : list Group).

(** Storing a unit sample makes the current page a unit page and leaves
    the other unit pages as they are. *)
Lemma store_unit_page step (vel vir : list Q) (st : SHC Q) :
  well_sized st -> group_size st = 2 -> direction st = 0 -> 0 <= step ->
  stored_count st vel = 2 -> unit_sample st group vel vir ->
  let s1 := store_sample step group vel vir st in
  unit_page s1 (correlation_step_of st step) /\
  (forall k, k <> correlation_step_of st step -> unit_page st k -> unit_page s1 k).
Proof.
  intros W Hg Hd H0 Hcount Hunit s1.
  pose proof (store_sample_frame step group vel vir st) as F.
  destruct F as (_ & _ & _ & _ & _ & _ & F7 & _). fold s1 in F7.
  pose proof (offset_range st (ws_interval W) (ws_Nc W) H0 (ws_group_size W)) as [O1 O2].
  split.
  - intros n Hn i. rewrite F7 in Hn. unfold i. rewrite F7.
    change (correlation_step_of st step * group_size st) with (offset_of st step).
    destruct (store_sample_hit step group vel vir st (n := n))
      as (E1 & E2 & E3 & E4 & E5 & E6); try (destruct W; lia).
    fold s1 in E1, E2, E3, E4, E5, E6.
    rewrite Hd in E1, E2, E3.
    change (tensor_at 0 0) with 0 in E1. change (tensor_at 0 1) with 3 in E2.
    change (tensor_at 0 2) with 4 in E3.
    destruct (Hunit n) as (U1 & U2 & U3 & U4 & U5 & U6); [lia|].
    change (@dzero Q Q_Scalar) with 0%Q in *.
    rewrite E1, E2, E3, E4, E5, E6. tauto.
  - intros k Hk Hpage n Hn i. rewrite F7 in Hn. unfold i. rewrite F7.
    destruct (store_sample_miss step group vel vir st (i := k * group_size st + n))
      as (E1 & E2 & E3 & E4 & E5 & E6).
    { unfold offset_of. rewrite Hcount, Hg. lia. }
    fold s1 in E1, E2, E3, E4, E5, E6.
    change (@dzero Q Q_Scalar) with 0%Q in *.
    rewrite E1, E2, E3, E4, E5, E6. now apply Hpage.
Qed.

(** With every page a unit page, a reduction adds 2 to each in-plane
    element and 0 to each out-of-plane element. *)
Lemma reduce_unit step (s1 : SHC Q) l :
  well_sized s1 -> group_size s1 = 2 -> 0 <= step ->
  (forall k, 0 <= k < Nc s1 -> unit_page s1 k) ->
  0 <= l < Nc s1 ->
  let r := reduce step s1 in
  Arr.get 0%Q (ki_negative r) l
    = Qplus (Arr.get 0%Q (ki_negative s1) l) (inject_Z 2) /\
  Arr.get 0%Q (ko_negative r) l = Qplus (Arr.get 0%Q (ko_negative s1) l) 0%Q /\
  Arr.get 0%Q (ki_positive r) l
    = Qplus (Arr.get 0%Q (ki_positive s1) l) (inject_Z 2) /\
  Arr.get 0%Q (ko_positive r) l = Qplus (Arr.get 0%Q (ko_positive s1) l) 0%Q.
Proof.
  intros W Hg H0 Hpages Hl r.
  pose proof (correlation_step_range s1 (ws_interval W) (ws_Nc W) H0) as Hc.
  set (c := correlation_step_of s1 step) in *.
  assert (Hb : 0 <= find_k_target (Nc s1) c l < Nc s1)
    by (apply find_k_target_range; auto).
  set (b := find_k_target (Nc s1) c l) in *.
  pose proof (Hpages c Hc) as Pc. pose proof (Hpages b Hb) as Pb.
  unfold unit_page in Pc, Pb. rewrite Hg in Pc, Pb.
  unfold r, reduce; cbn [ki_negative ko_negative ki_positive ko_positive].
  fold c. rewrite Hg.
  destruct (@gpu_find_k_get Q _ (Nc s1) BLOCK_SIZE_SHC 2 c
              (data_at (sx s1) (offset_of s1 step)) (data_at (sy s1) (offset_of s1 step))
              (data_at (sz s1) (offset_of s1 step))
              (data_at (vx s1) 0) (data_at (vy s1) 0) (data_at (vz s1) 0)
              (ki_negative s1) (ko_negative s1) l) as [G1 G2];
    auto; try (destruct W; lia).
  destruct (@gpu_find_k_get Q _ (Nc s1) BLOCK_SIZE_SHC 2 c
              (data_at (vx s1) (offset_of s1 step)) (data_at (vy s1) (offset_of s1 step))
              (data_at (vz s1) (offset_of s1 step))
              (data_at (sx s1) 0) (data_at (sy s1) 0) (data_at (sz s1) 0)
              (ki_positive s1) (ko_positive s1) l) as [G3 G4];
    auto; try (destruct W; lia).
  fold b in G1, G2, G3, G4.
  assert (Eoff : offset_of s1 step = c * 2) by (unfold offset_of; fold c; now rewrite Hg).
  rewrite Eoff in G1, G2, G3, G4.
  assert (Sneg : find_k_block_sum BLOCK_SIZE_SHC 2 b
                   (data_at (sx s1) (c * 2)) (data_at (sy s1) (c * 2))
                   (data_at (sz s1) (c * 2))
                   (data_at (vx s1) 0) (data_at (vy s1) 0) (data_at (vz s1) 0)
                 = (inject_Z 2, 0%Q)).
  { apply unit_block_sum. intros n Hn. unfold deref, data_at; cbn [p_arr p_base].
    rewrite !Z.add_0_l.
    destruct (Pc n Hn) as (A1 & A2 & A3 & _).
    destruct (Pb n Hn) as (_ & _ & _ & B4 & B5 & B6).
    cbv zeta in *. tauto. }
  assert (Spos : find_k_block_sum BLOCK_SIZE_SHC 2 b
                   (data_at (vx s1) (c * 2)) (data_at (vy s1) (c * 2))
                   (data_at (vz s1) (c * 2))
                   (data_at (sx s1) 0) (data_at (sy s1) 0) (data_at (sz s1) 0)
                 = (inject_Z 2, 0%Q)).
  { apply unit_block_sum. intros n Hn. unfold deref, data_at; cbn [p_arr p_base].
    rewrite !Z.add_0_l.
    destruct (Pc n Hn) as (_ & _ & _ & A4 & A5 & A6).
    destruct (Pb n Hn) as (B1 & B2 & B3 & _).
    cbv zeta in *. tauto. }
  rewrite Sneg in G1, G2. rewrite Spos in G3, G4.
  cbn [fst snd] in G1, G2, G3, G4.
  change (@dzero Q Q_Scalar) with 0%Q in *.
  change (@dadd Q Q_Scalar) with Qplus in *.
  rewrite Eoff. tauto.
Qed.

End UnitRun.

Lemma unit_page_ring (s r : SHC Q) k :
  group_size r = group_size s ->
  sx r = sx s -> sy r = sy s -> sz r = sz s ->
  vx r = vx s -> vy r = vy s -> vz r = vz s ->
  unit_page s k -> unit_page r k.
Proof.
  unfold unit_page. intros -> -> -> -> -> -> -> H. exact H.
Qed.

Section UnitTrajectory.
Variables (group : list Group) (velocity virial : Z -> list Q).
Variables (s0 : SHC Q) (T : Z).
Hypothesis Hc : compute s0 = true.
Hypothesis Hd : direction s0 = 0.
Hypothesis Hg : group_size s0 = 2.
Hypothesis W0 : well_sized s0.
Hypothesis Hcnt0 : num_time_origins s0 = 0.
Hypothesis Hacc0 : forall l, 0 <= l < Nc s0 ->
  Arr.get 0%Q (ki_negative s0) l = 0%Q /\ Arr.get 0%Q (ko_negative s0) l = 0%Q /\
  Arr.get 0%Q (ki_positive s0) l = 0%Q /\ Arr.get 0%Q (ko_positive s0) l = 0%Q.
Hypothesis Hin : forall t, 0 <= t < T ->
  stored_count s0 (velocity t) = 2 /\ unit_sample s0 group (velocity t) (virial t).

Let same_config (st : SHC Q) : Prop :=
  compute st = true /\ sample_interval st = sample_interval s0 /\
  Nc st = Nc s0 /\ direction st = 0 /\
  group_method st = group_method s0 /\ group_id st = group_id s0 /\
  group_size st = 2.

Let unit_state (U : Z) (st : SHC Q) : Prop :=
  U <= T ->
  same_config st /\ well_sized st /\
  num_time_origins st = Z.max 0 (U / sample_interval s0 - (Nc s0 - 1)) /\
  (forall k, 0 <= k < Nc s0 -> k < U / sample_interval s0 -> unit_page st k) /\
  (forall l, 0 <= l < Nc s0 ->
     Arr.get 0%Q (ki_negative st) l = inject_Z (2 * num_time_origins st) /\
     Arr.get 0%Q (ko_negative st) l = 0%Q /\
     Arr.get 0%Q (ki_positive st) l = inject_Z (2 * num_time_origins st) /\
     Arr.get 0%Q (ko_positive st) l = 0%Q).

Lemma unit_state_step U st :
  0 <= U -> unit_state U st ->
  unit_state (U + 1) (process U group (velocity U) (virial U) st).
Proof.
  intros HU IH HUT. destruct IH as (Cfg & W & Hcnt & Hpages & Hacc); [lia|].
  destruct Cfg as (C1 & C2 & C3 & C4 & C5 & C6 & C7).
  pose proof (ws_interval W0) as Hi. pose proof (ws_Nc W0) as Hn.
  set (i := sample_interval s0) in *. set (nc := Nc s0) in *.
  destruct (Z.eq_dec (Z.rem (U + 1) (sample_interval st)) 0) as [Hr|Hr].
  2: { (* no sample at this step *)
    rewrite process_skip by auto.
    assert (Ed : (U + 1) / i = U / i) by (apply idle_step_div; auto; congruence).
    rewrite Ed.
    split; [unfold same_config; tauto|]. split; [exact W|].
    split; [exact Hcnt|]. split; [exact Hpages | exact Hacc]. }
  (* a sampling step *)
  assert (Ed : (U + 1) / i = U / i + 1) by (apply sampling_step_div; auto; congruence).
  assert (Ek : sample_step_of st U = U / i)
    by (unfold sample_step_of; rewrite C2; apply Z.quot_div_nonneg; lia).
  assert (Hk0 : 0 <= U / i) by (apply Z.div_pos; lia).
  assert (Ecs : correlation_step_of st U = (U / i) mod nc)
    by (rewrite correlation_step_mod by (auto; apply W); now rewrite C2, C3).
  pose proof (Z.mod_pos_bound (U / i) nc Hn) as Hcs.
  destruct (Hin (t := U)) as [Hcount Hunit]; [lia|].
  assert (Hcount' : stored_count st (velocity U) = 2).
  { unfold stored_count in *. rewrite C5, C7. now rewrite Hg in Hcount. }
  assert (Hunit' : unit_sample st group (velocity U) (virial U)).
  { intros n Hn'. rewrite (@source_index_config _ s0 st group n C5 C6).
    apply Hunit. lia. }
  destruct (@store_unit_page group U (velocity U) (virial U) st W C7 C4 HU Hcount' Hunit')
    as [Pnew Pold].
  pose proof (store_sample_frame U group (velocity U) (virial U) st) as F.
  pose proof (store_sample_length U group (velocity U) (virial U) st) as L.
  set (s1 := store_sample U group (velocity U) (virial U) st) in *.
  destruct F as (F1 & F2 & F3 & F4 & F5 & F6 & F7 & F8 & F9 & F10 & F11 & F12).
  destruct L as (L1 & L2 & L3 & L4 & L5 & L6).
  assert (W1 : well_sized s1) by (destruct W; constructor; congruence).
  assert (Hpages1 : forall k, 0 <= k < nc -> k < U / i + 1 -> unit_page s1 k).
  { intros k Hk Hlt. rewrite Ecs in Pnew, Pold.
    destruct (Z.eq_dec k ((U / i) mod nc)) as [->|Hne]; [exact Pnew|].
    apply Pold; auto. apply Hpages; auto.
    destruct (Z.lt_ge_cases (U / i) nc) as [Hs|Hs]; [|lia].
    rewrite Z.mod_small in Hne by lia. lia. }
  rewrite process_sample by auto. fold s1. rewrite Ek, C3. fold nc. rewrite Ed.
  destruct (Z.leb_spec (nc - 1) (U / i)) as [Hfull|Hnot].
  - (* the buffer is full: a reduction *)
    pose proof (reduce_frame U s1) as R. cbv zeta in R.
    destruct R as (R1 & R2 & R3 & R4 & R5 & R6 & R7 & R8 & R9 & R10 & R11 & R12 & R13 & R14).
    assert (Cfg' : same_config (reduce U s1))
      by (unfold same_config; repeat split; congruence).
    assert (W' : well_sized (reduce U s1)).
    { pose proof (process_well_sized U group (velocity U) (virial U) W) as Wp.
      rewrite process_sample in Wp by auto. fold s1 in Wp.
      rewrite Ek, C3 in Wp. fold nc in Wp.
      destruct (Z.leb_spec (nc - 1) (U / i)); [exact Wp | lia]. }
    assert (Hcnt' : num_time_origins (reduce U s1)
                    = Z.max 0 (U / i + 1 - (nc - 1))) by (rewrite R8, F8, Hcnt; lia).
    split; [exact Cfg'|]. split; [exact W'|]. split; [exact Hcnt'|].
    split.
    + intros k Hk Hlt.
      apply (@unit_page_ring s1 (reduce U s1) k); auto.
    + intros l Hl.
      assert (Hp1 : forall k, 0 <= k < Nc s1 -> unit_page s1 k)
        by (intros k Hk; rewrite F3, C3 in Hk; apply Hpages1; lia).
      assert (Hl1 : 0 <= l < Nc s1) by (rewrite F3, C3; exact Hl).
      assert (Hg1 : group_size s1 = 2) by congruence.
      destruct (@reduce_unit U s1 l W1 Hg1 HU Hp1 Hl1) as (G1 & G2 & G3 & G4).
      destruct (Hacc l Hl) as (A1 & A2 & A3 & A4).
      rewrite G1, G2, G3, G4, F9, F10, F11, F12, A1, A2, A3, A4.
      rewrite !Qplus_inject_Z. rewrite R8, F8.
      replace (2 * num_time_origins st + 2) with (2 * (num_time_origins st + 1)) by lia.
      repeat split; reflexivity.
  - (* the buffer is not full yet *)
    split; [unfold same_config; repeat split; congruence|].
    split; [exact W1|]. split; [rewrite F8, Hcnt; lia|].
    split; [exact Hpages1|].
    intros l Hl. rewrite F8, F9, F10, F11, F12. now apply Hacc.
Qed.

Lemma unit_run_state :
  0 <= T -> unit_state T (run group velocity virial T s0).
Proof.
  intros HT. apply run_invariant; auto.
  - intros _. pose proof (ws_interval W0).
    split; [unfold same_config; repeat split; auto|].
    split; [exact W0|].
    rewrite Z.div_0_l by lia.
    split; [rewrite Hcnt0; pose proof (ws_Nc W0); lia|].
    split; [intros; lia|].
    intros l Hl. rewrite Hcnt0. now apply Hacc0.
  - intros U st HU. now apply unit_state_step.
Qed.

End UnitTrajectory.

(** C9.  Two tracked particles, [Nc = 100], transport direction x, and
    at every step velocity (1, 0, 0) and flux (1, 0, 0) for each tracked
    particle.  After any number of steps every element of [ki_negative] and
    of [ki_positive] equals [group_size] times the number of time origins,
    which is positive as soon as one reduction has run, and every element
    of [ko_negative] and of [ko_positive] is zero. *)
Theorem constant_trajectory
    (junk : Z -> Z -> Q) (N : Z) (group : list Group) (cfg : SHC Q)
    (velocity virial : Z -> list Q) (T : Z) :
  compute cfg = true -> 0 < sample_interval cfg ->
  Nc cfg = 100 -> direction cfg = 0 ->
  let s0 := preprocess junk N group cfg in
  group_size s0 = 2 ->
  (forall t, 0 <= t < T ->
     stored_count s0 (velocity t) = 2 /\
     unit_sample s0 group (velocity t) (virial t)) ->
  0 <= T ->
  let st := run group velocity virial T s0 in
  let origins := num_time_origins st in
  (forall l, 0 <= l < 100 ->
     Arr.get 0%Q (ki_negative st) l = inject_Z (group_size st * origins) /\
     Arr.get 0%Q (ki_positive st) l = inject_Z (group_size st * origins) /\
     Arr.get 0%Q (ko_negative st) l = 0%Q /\
     Arr.get 0%Q (ko_positive st) l = 0%Q) /\
  origins = Z.max 0 (samples_written (sample_interval cfg) T - 99) /\
  (100 <= samples_written (sample_interval cfg) T ->
     0 < group_size st * origins).
Proof.
  intros Hc Hi Hn Hd s0 Hg Hin HT st origins.
  destruct (preprocess_state junk N group cfg Hc)
    as (S1 & S2 & S3 & S4 & _ & _ & S7 & S8 & S9 & S10 & S11).
  fold s0 in S1, S2, S3, S4, S7, S8, S9, S10, S11.
  assert (W0 : well_sized s0)
    by (apply preprocess_well_sized; auto; fold s0; lia).
  assert (Hacc0 : forall l, 0 <= l < Nc s0 ->
            Arr.get 0%Q (ki_negative s0) l = 0%Q /\
            Arr.get 0%Q (ko_negative s0) l = 0%Q /\
            Arr.get 0%Q (ki_positive s0) l = 0%Q /\
            Arr.get 0%Q (ko_positive s0) l = 0%Q).
  { intros l Hl. rewrite S8, S9, S10, S11.
    change (@dzero Q Q_Scalar) with 0%Q.
    rewrite !get_repeat by lia. tauto. }
  assert (Hd0 : direction s0 = 0) by congruence.
  destruct (@unit_run_state group velocity virial s0 T S1 Hd0 Hg W0 S7 Hacc0 Hin HT)
    as (Cfg & _ & Hcnt & _ & Hacc); [lia|].
  destruct Cfg as (_ & _ & _ & _ & _ & _ & C7).
  fold st in Hcnt, Hacc, C7. fold origins in Hcnt, Hacc.
  rewrite samples_written_div by lia.
  rewrite S2, S3, Hn in *. rewrite C7.
  split.
  - intros l Hl. destruct (Hacc l Hl) as (A1 & A2 & A3 & A4). tauto.
  - split; [lia | intros; lia].
Qed.

Lemma constant_trajectory_witness :
  let st := run [] (fun _ => unit_velocity) (fun _ => unit_virial) 101
              (preprocess (fun _ _ => 0%Q) 2 [] configured) in
  Arr.get 0%Q (ki_negative st) 7 = inject_Z (group_size st * num_time_origins st) /\
  Arr.get 0%Q (ko_positive st) 7 = 0%Q.
Proof.
  intros st.
  destruct (@constant_trajectory (fun _ _ => 0%Q) 2 [] configured
              (fun _ => unit_velocity) (fun _ => unit_virial) 101)
    as [H _]; try reflexivity.
  - intros t _. split; [reflexivity|].
    intros n Hn.
    assert (En : n = 0 \/ n = 1) by (change (group_size _) with 2 in Hn; lia).
    destruct En as [-> | ->]; repeat split; reflexivity.
  - discriminate.
  - destruct (H 7) as (A1 & _ & _ & A4); [lia|]. split; [exact A1 | exact A4].
Defined.

(** * Further properties of the kernels *)

Lemma get_map_range {A} (d : A) (f : Z -> A) n i :
  0 <= i < n -> Arr.get d (map f (Arr.range n)) i = f i.
Proof.
  intros Hi. unfold Arr.get, Arr.range.
  destruct (Z.ltb_spec i 0); [lia|].
  rewrite map_map.
  rewrite nth_indep with (d' := f (Z.of_nat 0)) by (rewrite length_map, length_seq; lia).
  rewrite (map_nth (fun k => f (Z.of_nat k)) (seq 0 (Z.to_nat n)) 0%nat).
  rewrite seq_nth by lia. f_equal. lia.
Qed.

Lemma fold_left_ext_in {A B} (f g : A -> B -> A) (l : list B) (a : A) :
  (forall a x, In x l -> f a x = g a x) -> fold_left f l a = fold_left g l a.
Proof.
  revert a; induction l as [|x l IH]; intros a H; simpl; auto.
  rewrite (H a x) by now left. apply IH. intros; apply H; now right.
Qed.

Section BlockReads.
Context {D : Type} {SD : Scalar D}.
Variables (group_size bid bid' : Z).
Variables (g_sx g_sy g_sz g_vx g_vy g_vz : Ptr D).
Variables (g_sx' g_sy' g_sz' g_vx' g_vy' g_vz' : Ptr D).
Hypothesis Hsame : forall n, 0 <= n < group_size ->
  deref g_sx n = deref g_sx' n /\ deref g_sy n = deref g_sy' n /\
  deref g_sz n = deref g_sz' n /\
  deref g_vx (bid * group_size + n) = deref g_vx' (bid' * group_size + n) /\
  deref g_vy (bid * group_size + n) = deref g_vy' (bid' * group_size + n) /\
  deref g_vz (bid * group_size + n) = deref g_vz' (bid' * group_size + n).

Lemma find_k_round_ext tid round (k : D * D) :
  0 <= tid -> 0 <= round ->
  find_k_round group_size (bid * group_size) tid g_sx g_sy g_sz g_vx g_vy g_vz k round
  = find_k_round group_size (bid' * group_size) tid
      g_sx' g_sy' g_sz' g_vx' g_vy' g_vz' k round.
Proof.
  intros Ht Hr. unfold find_k_round.
  destruct (Z.ltb_spec (tid + round * BLOCK_SIZE_SHC) group_size) as [Hlt|]; auto.
  destruct (Hsame (n := tid + round * BLOCK_SIZE_SHC))
    as (-> & -> & -> & -> & -> & ->); auto.
  unfold BLOCK_SIZE_SHC in *. lia.
Qed.

Lemma find_k_thread_ext tid :
  0 <= tid ->
  find_k_thread group_size bid tid g_sx g_sy g_sz g_vx g_vy g_vz
  = find_k_thread group_size bid' tid g_sx' g_sy' g_sz' g_vx' g_vy' g_vz'.
Proof.
  intros Ht. unfold find_k_thread. cbv zeta.
  apply fold_left_ext_in. intros k round Hin.
  apply in_range in Hin. apply find_k_round_ext; lia.
Qed.

Lemma find_k_block_sum_ext blockDim :
  find_k_block_sum blockDim group_size bid g_sx g_sy g_sz g_vx g_vy g_vz
  = find_k_block_sum blockDim group_size bid' g_sx' g_sy' g_sz' g_vx' g_vy' g_vz'.
Proof.
  unfold find_k_block_sum. cbv zeta.
  rewrite (map_ext_in
             (fun tid => find_k_thread group_size bid tid g_sx g_sy g_sz g_vx g_vy g_vz)
             (fun tid => find_k_thread group_size bid' tid
                           g_sx' g_sy' g_sz' g_vx' g_vy' g_vz')).
  - reflexivity.
  - intros tid Hin. apply in_range in Hin. apply find_k_thread_ext; lia.
Qed.

End BlockReads.

(** X9.  A block of [gpu_find_k] reads nothing but elements [n] of its three
    "now" arrays and elements [bid * group_size + n] of its three lagged
    arrays, for [n] in [0, group_size): two launches whose arrays agree on
    those elements leave the block with the same pair of sums, whatever the
    arrays hold elsewhere.  No property of the arithmetic is used. *)
Theorem find_k_block_reads_only_its_pages {D} {SD : Scalar D}
    (blockDim group_size bid : Z)
    (g_sx g_sy g_sz g_vx g_vy g_vz : Ptr D)
    (g_sx' g_sy' g_sz' g_vx' g_vy' g_vz' : Ptr D) :
  (forall n, 0 <= n < group_size ->
     deref g_sx n = deref g_sx' n /\ deref g_sy n = deref g_sy' n /\
     deref g_sz n = deref g_sz' n /\
     deref g_vx (bid * group_size + n) = deref g_vx' (bid * group_size + n) /\
     deref g_vy (bid * group_size + n) = deref g_vy' (bid * group_size + n) /\
     deref g_vz (bid * group_size + n) = deref g_vz' (bid * group_size + n)) ->
  find_k_block_sum blockDim group_size bid g_sx g_sy g_sz g_vx g_vy g_vz
  = find_k_block_sum blockDim group_size bid g_sx' g_sy' g_sz' g_vx' g_vy' g_vz'.
Proof. intros H. now apply find_k_block_sum_ext. Qed.

Lemma find_k_block_reads_only_its_pages_witness :
  find_k_block_sum BLOCK_SIZE_SHC 3 1
    (data_at (ramp 9) 0) (data_at (ramp 9) 30) (data_at (ramp 9) 40)
    (data_at (ramp 3) 2) (data_at (ramp 3) 12) (data_at (ramp 3) 22)
  = find_k_block_sum BLOCK_SIZE_SHC 3 1
      (data_at (ramp 9 ++ [7%Q]) 0) (data_at (ramp 9 ++ [7%Q]) 30)
      (data_at (ramp 9 ++ [7%Q]) 40)
      (data_at (ramp 3 ++ [7%Q]) 2) (data_at (ramp 3 ++ [7%Q]) 12)
      (data_at (ramp 3 ++ [7%Q]) 22).
Proof.
  apply (@find_k_block_reads_only_its_pages Q _ BLOCK_SIZE_SHC 3 1).
  intros n Hn.
  assert (En : n = 0 \/ n = 1 \/ n = 2) by lia.
  destruct En as [-> | [-> | ->]]; repeat split; reflexivity.
Defined.

(** X3.  The blocks of a reduction launch may run in any order: taking
    the [Nc] blocks in any permutation of their index order leaves the same
    two accumulator arrays as the launch.  No law of addition is needed,
    because no two blocks add into the same element. *)
Theorem find_k_block_order_immaterial {D} {SD : Scalar D}
    (bids : list Z) (n c group_size : Z)
    (g_sx g_sy g_sz g_vx g_vy g_vz : Ptr D) (g_ki g_ko : list D) :
  Permutation bids (Arr.range n) ->
  0 <= c < n -> len g_ki = n -> len g_ko = n ->
  find_k_blocks_in_order bids n BLOCK_SIZE_SHC group_size c
    g_sx g_sy g_sz g_vx g_vy g_vz g_ki g_ko
  = gpu_find_k n BLOCK_SIZE_SHC group_size c
      g_sx g_sy g_sz g_vx g_vy g_vz g_ki g_ko.
Proof.
  intros Hp Hc Lki Lko.
  assert (Hin : forall b, In b bids -> 0 <= b < n).
  { intros b Hb. apply in_range. eapply Permutation_in; eauto. }
  assert (Hnd : NoDup bids).
  { eapply Permutation_NoDup; [apply Permutation_sym; eauto | apply NoDup_range]. }
  unfold find_k_blocks_in_order.
  destruct (@fold_blocks_length D SD n BLOCK_SIZE_SHC group_size c
              g_sx g_sy g_sz g_vx g_vy g_vz bids (g_ki, g_ko)) as [L1 L2].
  destruct (@gpu_find_k_length D SD n BLOCK_SIZE_SHC group_size c
              g_sx g_sy g_sz g_vx g_vy g_vz g_ki g_ko) as [L3 L4].
  cbn [fst snd] in L1, L2.
  apply injective_projections.
  - apply (@ArrFacts.ext D dzero); [congruence|].
    intros l Hl. rewrite L1, Lki in Hl.
    destruct (@gpu_find_k_get D SD n BLOCK_SIZE_SHC group_size c
                g_sx g_sy g_sz g_vx g_vy g_vz g_ki g_ko l) as [-> _]; auto.
    destruct (@fold_blocks_hit D SD n BLOCK_SIZE_SHC group_size c
                g_sx g_sy g_sz g_vx g_vy g_vz Hc bids (g_ki, g_ko) l)
      as [-> _]; auto.
    eapply Permutation_in; [apply Permutation_sym; eauto|].
    apply in_range. now apply find_k_target_range.
  - apply (@ArrFacts.ext D dzero); [congruence|].
    intros l Hl. rewrite L2, Lko in Hl.
    destruct (@gpu_find_k_get D SD n BLOCK_SIZE_SHC group_size c
                g_sx g_sy g_sz g_vx g_vy g_vz g_ki g_ko l) as [_ ->]; auto.
    destruct (@fold_blocks_hit D SD n BLOCK_SIZE_SHC group_size c
                g_sx g_sy g_sz g_vx g_vy g_vz Hc bids (g_ki, g_ko) l)
      as [_ ->]; auto.
    eapply Permutation_in; [apply Permutation_sym; eauto|].
    apply in_range. now apply find_k_target_range.
Qed.

Lemma find_k_block_order_immaterial_witness :
  find_k_blocks_in_order [2; 0; 1] 3 BLOCK_SIZE_SHC 2 1
    (data_at (sx tiny) 2) (data_at (sy tiny) 2) (data_at (sz tiny) 2)
    (data_at (vx tiny) 0) (data_at (vy tiny) 0) (data_at (vz tiny) 0)
    (ki_negative tiny) (ko_negative tiny)
  = gpu_find_k 3 BLOCK_SIZE_SHC 2 1
      (data_at (sx tiny) 2) (data_at (sy tiny) 2) (data_at (sz tiny) 2)
      (data_at (vx tiny) 0) (data_at (vy tiny) 0) (data_at (vz tiny) 0)
      (ki_negative tiny) (ko_negative tiny).
Proof.
  apply (@find_k_block_order_immaterial Q _ [2; 0; 1] 3 1 2).
  - change (Arr.range 3) with [0; 1; 2].
    apply (Permutation_cons_app [0; 1] [] 2). apply Permutation_refl.
  - split; [discriminate | reflexivity].
  - reflexivity.
  - reflexivity.
Defined.

(** * The ring buffer along a run *)

Lemma mod_neq nc j k :
  0 < nc -> j < k -> k - j < nc -> j mod nc <> k mod nc.
Proof.
  intros Hn Hjk Hd E.
  pose proof (Z.div_mod j nc). pose proof (Z.div_mod k nc).
  assert (Hq : k - j = nc * (k / nc - j / nc)) by lia.
  remember (k / nc - j / nc) as q.
  destruct (Z.le_gt_cases q 0); nia.
Qed.

Lemma step_of_sample_at i U :
  0 < i -> 0 <= U -> Z.rem (U + 1) i = 0 -> step_of_sample i (U / i) = U.
Proof.
  intros Hi HU Hr. unfold step_of_sample.
  rewrite <- (sampling_step_div Hi HU Hr).
  rewrite Z.rem_mod_nonneg in Hr by lia.
  pose proof (Z.div_mod (U + 1) i). lia.
Qed.

Section RingFacts.
Context {D : Type} {SD : Scalar D}.
Variables (group : list Group) (velocity virial : Z -> list D).
Variables (s : SHC D) (T : Z).
Hypothesis Hc : compute s = true.
Hypothesis W : well_sized s.
Hypothesis Hcount : forall t, 0 <= t < T ->
  stored_count s (velocity t) = group_size s.

Let i := sample_interval s.

Let like_s (st : SHC D) : Prop :=
  compute st = true /\ sample_interval st = sample_interval s /\
  Nc st = Nc s /\ direction st = direction s /\
  group_method st = group_method s /\ group_id st = group_id s /\
  group_size st = group_size s.

Let ring_state (U : Z) (st : SHC D) : Prop :=
  U <= T ->
  like_s st /\ well_sized st /\
  forall j n, 0 <= j -> U / i - Nc s <= j < U / i -> 0 <= n < group_size s ->
    holds_sample s group (velocity (step_of_sample i j)) (virial (step_of_sample i j))
      st (j mod Nc s) n.

Lemma ring_state_step U st :
  0 <= U -> ring_state U st ->
  ring_state (U + 1) (process U group (velocity U) (virial U) st).
Proof.
  intros HU IH HUT. destruct IH as (Cfg & Wst & Hold); [lia|].
  destruct Cfg as (C1 & C2 & C3 & C4 & C5 & C6 & C7).
  pose proof (ws_interval W) as Hi. pose proof (ws_Nc W) as Hn. fold i in Hi.
  pose proof (process_config U group (velocity U) (virial U) st) as C.
  cbv zeta in C. destruct C as (P1 & P2 & P3 & P4 & P5 & P6 & P7).
  split; [unfold like_s; repeat split; congruence|].
  fold i in C2.
  split; [now apply process_well_sized|].
  destruct (Z.eq_dec (Z.rem (U + 1) (sample_interval st)) 0) as [Hr|Hr].
  2: { rewrite process_skip by auto.
       assert (Ed : (U + 1) / i = U / i) by (apply idle_step_div; auto; congruence).
       rewrite Ed. exact Hold. }
  assert (Ed : (U + 1) / i = U / i + 1) by (apply sampling_step_div; auto; congruence).
  assert (Hk0 : 0 <= U / i) by (apply Z.div_pos; lia).
  assert (Ecs : correlation_step_of st U = (U / i) mod Nc s)
    by (rewrite correlation_step_mod by (auto; apply Wst); now rewrite C2, C3).
  pose proof (Z.mod_pos_bound (U / i) (Nc s) Hn) as Hcs.
  assert (Eoff : offset_of st U = (U / i) mod Nc s * group_size s)
    by (unfold offset_of; now rewrite Ecs, C7).
  assert (Hcnt : stored_count st (velocity U) = group_size s).
  { rewrite <- (Hcount (t := U)) by lia. unfold stored_count. now rewrite C5, C7. }
  pose proof (ws_group_size W) as Hg.
  destruct (process_ring U group (velocity U) (virial U) st C1 Hr)
    as (R1 & R2 & R3 & R4 & R5 & R6).
  rewrite Ed. intros j n Hj0 Hj Hn'.
  pose proof (Z.mod_pos_bound j (Nc s) Hn) as Hjm.
  unfold holds_sample. cbv zeta. rewrite R1, R2, R3, R4, R5, R6.
  destruct (Z.eq_dec j (U / i)) as [->|Hne].
  - (* the sample stored at this step *)
    rewrite step_of_sample_at by (auto; congruence).
    rewrite <- Eoff.
    rewrite <- C4, <- (@source_index_config _ s st group n C5 C6).
    apply store_sample_hit; try (destruct Wst; lia).
    rewrite Eoff. destruct Wst. rewrite ws_sx0, C7, C3. nia.
  - (* an earlier sample, on another page *)
    destruct (store_sample_miss U group (velocity U) (virial U) st
                (i := j mod Nc s * group_size s + n)) as (M1 & M2 & M3 & M4 & M5 & M6).
    { rewrite Eoff, Hcnt.
      assert (j mod Nc s <> (U / i) mod Nc s) by (apply mod_neq; lia).
      nia. }
    rewrite M1, M2, M3, M4, M5, M6.
    apply (Hold j n); auto; lia.
Qed.

Lemma ring_state_run : 0 <= T -> ring_state T (run group velocity virial T s).
Proof.
  intros HT. apply run_invariant; auto.
  - intros _. split; [unfold like_s; tauto|]. split; [exact W|].
    intros j n Hj0 Hj. pose proof (ws_interval W). pose proof (ws_Nc W).
    rewrite Z.div_0_l in Hj by (unfold i; lia). lia.
  - intros U st HU. now apply ring_state_step.
Qed.

End RingFacts.

(** X4.  The ring buffer holds the latest [Nc] samples, each on the page
    of its number modulo [Nc].  After steps [0, ..., T-1] of an enabled
    engine whose pages are written whole, every sample number [j] among the
    last [Nc] written was stored at step [(j + 1) * sample_interval - 1],
    and page [j mod Nc] still holds, for each tracked particle, the six
    values the inputs of that step gave. *)
Theorem ring_holds_latest_samples {D} {SD : Scalar D}
    (group : list Group) (velocity virial : Z -> list D)
    (s : SHC D) (T j n : Z) :
  compute s = true -> well_sized s -> 0 <= T ->
  (forall t, 0 <= t < T -> stored_count s (velocity t) = group_size s) ->
  let i := sample_interval s in
  0 <= j -> T / i - Nc s <= j < T / i -> 0 <= n < group_size s ->
  let t := step_of_sample i j in
  0 <= t < T /\ (i | t + 1) /\ t / i = j /\
  holds_sample s group (velocity t) (virial t)
    (run group velocity virial T s) (j mod Nc s) n.
Proof.
  intros Hc W HT Hcount i Hj0 Hj Hn t.
  pose proof (ws_interval W) as Hi. fold i in Hi.
  assert (Ht : t + 1 = (j + 1) * i) by (unfold t, step_of_sample; lia).
  pose proof (Z.div_mod T i) as E. pose proof (Z.mod_pos_bound T i Hi) as B.
  split; [nia|]. split; [exists (j + 1); exact Ht|].
  split.
  { symmetry. apply Z.div_unique with (r := i - 1); lia. }
  destruct (ring_state_run group velocity virial Hc W Hcount HT) as (_ & _ & H);
    [lia|].
  apply H; auto.
Qed.

Lemma ring_holds_latest_samples_witness :
  holds_sample tiny [] unit_velocity unit_virial
    (run [] (fun _ => unit_velocity) (fun _ => unit_virial) 5 tiny) (3 mod 3) 1.
Proof.
  refine (proj2 (proj2 (proj2
    (@ring_holds_latest_samples Q _ [] (fun _ => unit_velocity) (fun _ => unit_virial)
       tiny 5 3 1 eq_refl tiny_well_sized _ _ _ _ _)))).
  - discriminate.
  - intros t _. reflexivity.
  - discriminate.
  - split; [discriminate | reflexivity].
  - split; [discriminate | reflexivity].
Defined.

Lemma SHC_eq {D} (a b : SHC D) :
  compute a = compute b -> sample_interval a = sample_interval b ->
  Nc a = Nc b -> direction a = direction b ->
  group_method a = group_method b -> group_id a = group_id b ->
  group_size a = group_size b -> num_time_origins a = num_time_origins b ->
  ring_of a = ring_of b ->
  ki_negative a = ki_negative b -> ko_negative a = ko_negative b ->
  ki_positive a = ki_positive b -> ko_positive a = ko_positive b ->
  a = b.
Proof.
  destruct a, b; unfold ring_of; simpl.
  intros -> -> -> -> -> -> -> -> [= -> -> -> -> -> ->] -> -> -> ->.
  reflexivity.
Qed.

(** The sample of the window that lives on page [p]. *)
Lemma window_sample nc k p :
  0 < nc -> nc <= k -> 0 <= p < nc ->
  let j := k - 1 - (k - 1 - p) mod nc in
  0 <= j /\ k - nc <= j < k /\ j mod nc = p.
Proof.
  intros Hn Hk Hp j.
  pose proof (Z.mod_pos_bound (k - 1 - p) nc Hn) as B.
  pose proof (Z.div_mod (k - 1 - p) nc) as E.
  split; [unfold j; lia|]. split; [unfold j; lia|].
  symmetry. apply Z.mod_unique with (q := (k - 1 - p) / nc); unfold j; lia.
Qed.

Section TwoStarts.
Context {D : Type} {SD : Scalar D}.
Variables (group : list Group) (velocity virial : Z -> list D).
Variables (sA sB : SHC D) (T : Z).
Hypothesis HcA : compute sA = true.
Hypothesis WA : well_sized sA.
Hypothesis WB : well_sized sB.
Hypothesis Hlike :
  compute sB = compute sA /\ sample_interval sB = sample_interval sA /\
  Nc sB = Nc sA /\ direction sB = direction sA /\
  group_method sB = group_method sA /\ group_id sB = group_id sA /\
  group_size sB = group_size sA.
Hypothesis Hacc :
  num_time_origins sB = num_time_origins sA /\
  ki_negative sB = ki_negative sA /\ ko_negative sB = ko_negative sA /\
  ki_positive sB = ki_positive sA /\ ko_positive sB = ko_positive sA.
Hypothesis Hcount : forall t, 0 <= t < T ->
  stored_count sA (velocity t) = group_size sA.

Let rA := run group velocity virial.
Let i := sample_interval sA.

Lemma stored_count_B t : 0 <= t < T -> stored_count sB (velocity t) = group_size sB.
Proof.
  intros Ht. destruct Hlike as (_ & _ & _ & _ & L5 & _ & L7).
  rewrite L7, <- (Hcount Ht). unfold stored_count. now rewrite L5, L7.
Qed.

(** Once [Nc] samples have been written nothing of the initial ring
    buffer is left. *)
Lemma full_ring_equal :
  0 <= T -> Nc sA <= T / i ->
  ring_of (rA T sA) = ring_of (rA T sB).
Proof.
  intros HT Hfull.
  destruct Hlike as (L1 & L2 & L3 & L4 & L5 & L6 & L7).
  assert (HcB : compute sB = true) by congruence.
  destruct (ring_state_run group velocity virial HcA WA Hcount HT)
    as (_ & WrA & HA); [lia|].
  destruct (ring_state_run group velocity virial HcB WB stored_count_B HT)
    as (_ & WrB & HB); [lia|].
  fold rA in WrA, WrB, HA, HB. rewrite L2, L3, L7 in HB. fold i in HA, HB.
  destruct (run_config group velocity virial T sA) as (_ & _ & A3 & _ & _ & _ & A7).
  destruct (run_config group velocity virial T sB) as (_ & _ & B3 & _ & _ & _ & B7).
  fold rA in A3, A7, B3, B7.
  pose proof (ws_Nc WA) as Hn. pose proof (ws_group_size WA) as Hg.
  assert (Hpt : forall idx, 0 <= idx < group_size sA * Nc sA ->
            Arr.get dzero (sx (rA T sA)) idx = Arr.get dzero (sx (rA T sB)) idx /\
            Arr.get dzero (sy (rA T sA)) idx = Arr.get dzero (sy (rA T sB)) idx /\
            Arr.get dzero (sz (rA T sA)) idx = Arr.get dzero (sz (rA T sB)) idx /\
            Arr.get dzero (vx (rA T sA)) idx = Arr.get dzero (vx (rA T sB)) idx /\
            Arr.get dzero (vy (rA T sA)) idx = Arr.get dzero (vy (rA T sB)) idx /\
            Arr.get dzero (vz (rA T sA)) idx = Arr.get dzero (vz (rA T sB)) idx).
  { intros idx Hidx.
    assert (Hgs : 0 < group_size sA) by nia.
    pose proof (Z.div_mod idx (group_size sA)) as E.
    pose proof (Z.mod_pos_bound idx (group_size sA) Hgs) as Bn.
    assert (Hp : 0 <= idx / group_size sA < Nc sA).
    { split; [apply Z.div_pos; lia | apply Z.div_lt_upper_bound; lia]. }
    destruct (@window_sample (Nc sA) (T / i) (idx / group_size sA) Hn Hfull Hp)
      as (J0 & J1 & J2).
    set (j := T / i - 1 - (T / i - 1 - idx / group_size sA) mod Nc sA) in *.
    pose proof (HA j (idx mod group_size sA) J0 J1 Bn) as PA.
    pose proof (HB j (idx mod group_size sA) J0 J1 Bn) as PB.
    unfold holds_sample in PA, PB. cbv zeta in PA, PB.
    rewrite L4, L7, (@source_index_config _ sA sB group _ L5 L6) in PB.
    rewrite J2 in PA, PB.
    replace (idx / group_size sA * group_size sA + idx mod group_size sA)
      with idx in PA, PB by lia.
    destruct PA as (a1 & a2 & a3 & a4 & a5 & a6).
    destruct PB as (b1 & b2 & b3 & b4 & b5 & b6).
    repeat split; congruence. }
  unfold ring_of.
  destruct WrA, WrB.
  f_equal; apply (@ArrFacts.ext D dzero); try lia;
    intros idx Hidx; apply Hpt; lia.
Qed.

End TwoStarts.

Section TwoRuns.
Context {D : Type} {SD : Scalar D}.
Variables (group : list Group) (velocity virial : Z -> list D).
Variables (sA sB : SHC D) (T : Z).
Hypothesis HcA : compute sA = true.
Hypothesis WA : well_sized sA.
Hypothesis WB : well_sized sB.
Hypothesis Hlike :
  compute sB = compute sA /\ sample_interval sB = sample_interval sA /\
  Nc sB = Nc sA /\ direction sB = direction sA /\
  group_method sB = group_method sA /\ group_id sB = group_id sA /\
  group_size sB = group_size sA.
Hypothesis Hacc :
  num_time_origins sB = num_time_origins sA /\
  ki_negative sB = ki_negative sA /\ ko_negative sB = ko_negative sA /\
  ki_positive sB = ki_positive sA /\ ko_positive sB = ko_positive sA.
Hypothesis Hcount : forall t, 0 <= t < T ->
  stored_count sA (velocity t) = group_size sA.

Let i := sample_interval sA.

Let agree (U : Z) : Prop :=
  U <= T ->
  let a := run group velocity virial U sA in
  let b := run group velocity virial U sB in
  (num_time_origins b = num_time_origins a /\
   ki_negative b = ki_negative a /\ ko_negative b = ko_negative a /\
   ki_positive b = ki_positive a /\ ko_positive b = ko_positive a) /\
  (Nc sA <= U / i -> b = a).

Lemma runs_agree_step U : 0 <= U -> agree U -> agree (U + 1).
Proof.
  intros HU IH HUT. destruct IH as (Hsame & Hfull); [lia|].
  cbv zeta in *. rewrite !run_succ by auto.
  set (a := run group velocity virial U sA) in *.
  set (b := run group velocity virial U sB) in *.
  destruct Hlike as (L1 & L2 & L3 & L4 & L5 & L6 & L7).
  destruct (run_config group velocity virial U sA)
    as (A1 & A2 & A3 & A4 & A5 & A6 & A7).
  destruct (run_config group velocity virial U sB)
    as (B1 & B2 & B3 & B4 & B5 & B6 & B7).
  fold a in A1, A2, A3, A4, A5, A6, A7. fold b in B1, B2, B3, B4, B5, B6, B7.
  pose proof (ws_interval WA) as Hi. pose proof (ws_Nc WA) as Hn. fold i in Hi.
  fold i in A2. rewrite L2 in B2. fold i in B2.
  assert (Ca : compute a = true) by congruence.
  assert (Cb : compute b = true) by congruence.
  destruct (Z.eq_dec (Z.rem (U + 1) i) 0) as [Hr|Hr].
  2: { rewrite !process_skip by (right; congruence).
       assert (Ed : (U + 1) / i = U / i) by (apply idle_step_div; auto).
       rewrite Ed. split; auto. }
  assert (Ed : (U + 1) / i = U / i + 1) by (apply sampling_step_div; auto).
  assert (Eka : sample_step_of a U = U / i)
    by (unfold sample_step_of; rewrite A2; apply Z.quot_div_nonneg; lia).
  assert (Ekb : sample_step_of b U = U / i)
    by (unfold sample_step_of; rewrite B2; apply Z.quot_div_nonneg; lia).
  pose proof (store_sample_frame U group (velocity U) (virial U) a) as Fa.
  pose proof (store_sample_frame U group (velocity U) (virial U) b) as Fb.
  rewrite !process_sample by congruence.
  rewrite Eka, Ekb, A3, B3, L3.
  set (s1a := store_sample U group (velocity U) (virial U) a) in *.
  set (s1b := store_sample U group (velocity U) (virial U) b) in *.
  destruct Fa as (Fa1 & Fa2 & Fa3 & Fa4 & Fa5 & Fa6 & Fa7 & Fa8 & Fa9 & Fa10 & Fa11 & Fa12).
  destruct Fb as (Fb1 & Fb2 & Fb3 & Fb4 & Fb5 & Fb6 & Fb7 & Fb8 & Fb9 & Fb10 & Fb11 & Fb12).
  destruct Hsame as (S1 & S2 & S3 & S4 & S5).
  destruct (Z.leb_spec (Nc sA - 1) (U / i)) as [Hred|Hnot].
  - (* both runs reduce: their states have become equal *)
    assert (E1 : s1b = s1a).
    { apply SHC_eq; try congruence.
      assert (HT1 : 0 <= U + 1) by lia.
      assert (Hc1 : forall t, 0 <= t < U + 1 ->
                stored_count sA (velocity t) = group_size sA)
        by (intros; apply Hcount; lia).
      assert (Hf : Nc sA <= (U + 1) / sample_interval sA) by (fold i; lia).
      pose proof (@full_ring_equal D SD group velocity virial sA sB (U + 1)
                    HcA WA WB (conj L1 (conj L2 (conj L3 (conj L4 (conj L5 (conj L6 L7))))))
                    Hc1 HT1 Hf) as R.
      rewrite !run_succ in R by auto. fold a in R. fold b in R.
      destruct (process_ring U group (velocity U) (virial U) a Ca)
        as (Ra1 & Ra2 & Ra3 & Ra4 & Ra5 & Ra6); [congruence|].
      destruct (process_ring U group (velocity U) (virial U) b Cb)
        as (Rb1 & Rb2 & Rb3 & Rb4 & Rb5 & Rb6); [congruence|].
      fold s1a in Ra1, Ra2, Ra3, Ra4, Ra5, Ra6.
      fold s1b in Rb1, Rb2, Rb3, Rb4, Rb5, Rb6.
      unfold ring_of in *.
      rewrite Ra1, Ra2, Ra3, Ra4, Ra5, Ra6, Rb1, Rb2, Rb3, Rb4, Rb5, Rb6 in R.
      symmetry; exact R. }
    rewrite E1. split; auto.
  - split; [repeat split; congruence|]. rewrite Ed. intros; lia.
Qed.

Lemma runs_agree : 0 <= T -> agree T.
Proof.
  intros HT. pattern T at 1. apply natlike_ind; auto.
  - intros _. cbv zeta. rewrite !run_nonpos by lia.
    split; [exact Hacc|]. pose proof (ws_interval WA). pose proof (ws_Nc WA).
    rewrite Z.div_0_l by (unfold i; lia). intros; lia.
  - intros U HU IH. now apply runs_agree_step.
Qed.

End TwoRuns.

(** X5.  The ring buffer is allocated without being initialised, and what
    it happens to hold never reaches the results: two runs that differ only
    in the initial content of the ring buffer have, after any number of
    steps, the same counter of time origins and the same four accumulators,
    and are in the same state altogether as soon as [Nc] samples have been
    written.  The pages are taken to be written whole at every step. *)
Theorem accumulators_ignore_uninitialised_memory {D} {SD : Scalar D}
    (junk1 junk2 : Z -> Z -> D) (N : Z) (group : list Group) (cfg : SHC D)
    (velocity virial : Z -> list D) (T : Z) :
  compute cfg = true -> 0 < sample_interval cfg -> 0 < Nc cfg -> 0 <= T ->
  let s1 := preprocess junk1 N group cfg in
  let s2 := preprocess junk2 N group cfg in
  0 <= group_size s1 ->
  (forall t, 0 <= t < T -> stored_count s1 (velocity t) = group_size s1) ->
  let r1 := run group velocity virial T s1 in
  let r2 := run group velocity virial T s2 in
  num_time_origins r2 = num_time_origins r1 /\
  ki_negative r2 = ki_negative r1 /\ ko_negative r2 = ko_negative r1 /\
  ki_positive r2 = ki_positive r1 /\ ko_positive r2 = ko_positive r1 /\
  (Nc cfg <= samples_written (sample_interval cfg) T -> r2 = r1).
Proof.
  intros Hc Hi Hn HT s1 s2 Hg Hcount r1 r2.
  destruct (preprocess_state junk1 N group cfg Hc)
    as (A1 & A2 & A3 & A4 & A5 & A6 & A7 & A8 & A9 & A10 & A11).
  destruct (preprocess_state junk2 N group cfg Hc)
    as (B1 & B2 & B3 & B4 & B5 & B6 & B7 & B8 & B9 & B10 & B11).
  fold s1 in A1, A2, A3, A4, A5, A6, A7, A8, A9, A10, A11.
  fold s2 in B1, B2, B3, B4, B5, B6, B7, B8, B9, B10, B11.
  assert (G : group_size s2 = group_size s1)
    by (unfold s1, s2, preprocess; rewrite Hc; reflexivity).
  assert (W1 : well_sized s1) by (apply preprocess_well_sized; auto).
  assert (W2 : well_sized s2)
    by (apply preprocess_well_sized; auto; fold s2; lia).
  assert (Hlike : compute s2 = compute s1 /\ sample_interval s2 = sample_interval s1 /\
                  Nc s2 = Nc s1 /\ direction s2 = direction s1 /\
                  group_method s2 = group_method s1 /\ group_id s2 = group_id s1 /\
                  group_size s2 = group_size s1)
    by (repeat split; congruence).
  assert (Hacc : num_time_origins s2 = num_time_origins s1 /\
                 ki_negative s2 = ki_negative s1 /\ ko_negative s2 = ko_negative s1 /\
                 ki_positive s2 = ki_positive s1 /\ ko_positive s2 = ko_positive s1)
    by (repeat split; congruence).
  destruct (@runs_agree D SD group velocity virial s1 s2 T A1 W1 W2 Hlike Hacc Hcount HT)
    as ((E1 & E2 & E3 & E4 & E5) & Efull); [lia|].
  fold r1 in E1, E2, E3, E4, E5, Efull. fold r2 in E1, E2, E3, E4, E5, Efull.
  repeat split; auto.
  rewrite samples_written_div by lia. intros Hw. apply Efull. congruence.
Qed.

Lemma accumulators_ignore_uninitialised_memory_witness :
  ki_negative (run [] (fun _ => unit_velocity) (fun _ => unit_virial) 120
                 (preprocess (fun a k => inject_Z (a + k)) 2 [] configured))
  = ki_negative (run [] (fun _ => unit_velocity) (fun _ => unit_virial) 120
                   (preprocess (fun _ _ => 0%Q) 2 [] configured)).
Proof.
  refine (proj1 (proj2
    (@accumulators_ignore_uninitialised_memory Q _
       (fun _ _ => 0%Q) (fun a k => inject_Z (a + k)) 2 [] configured
       (fun _ => unit_velocity) (fun _ => unit_virial) 120 eq_refl _ _ _ _ _))).
  - reflexivity.
  - reflexivity.
  - discriminate.
  - discriminate.
  - intros t _. reflexivity.
Defined.

(** * The accumulators along a run *)

Lemma accumulate_snoc {D} {SD : Scalar D} (f : Z -> D) first m :
  0 <= m ->
  accumulate f first (m + 1) = dadd (accumulate f first m) (f (first + m)).
Proof.
  intros Hm. unfold accumulate. rewrite ArrFacts.range_succ by lia.
  now rewrite fold_left_app.
Qed.

Section ReduceBlocks.
Context {D : Type} {SD : Scalar D}.
Variables (s : SHC D) (step l : Z).
Hypothesis W : well_sized s.
Hypothesis Hstep : 0 <= step.
Hypothesis Hl : 0 <= l < Nc s.

Let c := correlation_step_of s step.
Let off := offset_of s step.
Let b := find_k_target (Nc s) c l.
Let r := reduce step s.

(** Element [l] of each accumulator after the two launches of [reduce]: the
    old value plus what the one block that targets it computed. *)
Lemma reduce_blocks :
  b = (c - l) mod Nc s /\
  Arr.get dzero (ki_negative r) l
  = dadd (Arr.get dzero (ki_negative s) l)
      (fst (find_k_block_sum BLOCK_SIZE_SHC (group_size s) b
              (data_at (sx s) off) (data_at (sy s) off) (data_at (sz s) off)
              (data_at (vx s) 0) (data_at (vy s) 0) (data_at (vz s) 0))) /\
  Arr.get dzero (ko_negative r) l
  = dadd (Arr.get dzero (ko_negative s) l)
      (snd (find_k_block_sum BLOCK_SIZE_SHC (group_size s) b
              (data_at (sx s) off) (data_at (sy s) off) (data_at (sz s) off)
              (data_at (vx s) 0) (data_at (vy s) 0) (data_at (vz s) 0))) /\
  Arr.get dzero (ki_positive r) l
  = dadd (Arr.get dzero (ki_positive s) l)
      (fst (find_k_block_sum BLOCK_SIZE_SHC (group_size s) b
              (data_at (vx s) off) (data_at (vy s) off) (data_at (vz s) off)
              (data_at (sx s) 0) (data_at (sy s) 0) (data_at (sz s) 0))) /\
  Arr.get dzero (ko_positive r) l
  = dadd (Arr.get dzero (ko_positive s) l)
      (snd (find_k_block_sum BLOCK_SIZE_SHC (group_size s) b
              (data_at (vx s) off) (data_at (vy s) off) (data_at (vz s) off)
              (data_at (sx s) 0) (data_at (sy s) 0) (data_at (sz s) 0))).
Proof.
  pose proof (ws_interval W) as Hi. pose proof (ws_Nc W) as Hn.
  assert (Hc : 0 <= c < Nc s) by (apply correlation_step_range; auto).
  split; [apply find_k_target_mod; auto|].
  unfold r, reduce. cbv zeta. cbn [ki_negative ko_negative ki_positive ko_positive].
  fold c. fold off.
  destruct (@gpu_find_k_get D SD (Nc s) BLOCK_SIZE_SHC (group_size s) c
              (data_at (sx s) off) (data_at (sy s) off) (data_at (sz s) off)
              (data_at (vx s) 0) (data_at (vy s) 0) (data_at (vz s) 0)
              (ki_negative s) (ko_negative s) l Hc (ws_ki_negative W) (ws_ko_negative W) Hl)
    as [G1 G2].
  destruct (@gpu_find_k_get D SD (Nc s) BLOCK_SIZE_SHC (group_size s) c
              (data_at (vx s) off) (data_at (vy s) off) (data_at (vz s) off)
              (data_at (sx s) 0) (data_at (sy s) 0) (data_at (sz s) 0)
              (ki_positive s) (ko_positive s) l Hc (ws_ki_positive W) (ws_ko_positive W) Hl)
    as [G3 G4].
  fold b in G1, G2, G3, G4. auto.
Qed.

End ReduceBlocks.

Section Accumulation.
Context {D : Type} {SD : Scalar D}.
Variables (group : list Group) (velocity virial : Z -> list D).
Variables (s : SHC D) (T : Z).
Hypothesis Hc : compute s = true.
Hypothesis W : well_sized s.
Hypothesis Hcount : forall t, 0 <= t < T ->
  stored_count s (velocity t) = group_size s.
Hypothesis Hzero : forall l, 0 <= l < Nc s ->
  Arr.get dzero (ki_negative s) l = dzero /\ Arr.get dzero (ko_negative s) l = dzero /\
  Arr.get dzero (ki_positive s) l = dzero /\ Arr.get dzero (ko_positive s) l = dzero.

Let i := sample_interval s.
Let v := sample_value s group velocity virial.
Let blk := sample_block_sum s group velocity virial.

Let total (f : Z -> D) (U : Z) : D :=
  accumulate f (Nc s - 1) (Z.max 0 (U / i - (Nc s - 1))).

Let acc_state (U : Z) : Prop :=
  U <= T ->
  let r := run group velocity virial U s in
  forall l, 0 <= l < Nc s ->
    Arr.get dzero (ki_negative r) l
    = total (fun k => fst (blk Sx Sy Sz Vx Vy Vz k (k - l))) U /\
    Arr.get dzero (ko_negative r) l
    = total (fun k => snd (blk Sx Sy Sz Vx Vy Vz k (k - l))) U /\
    Arr.get dzero (ki_positive r) l
    = total (fun k => fst (blk Vx Vy Vz Sx Sy Sz k (k - l))) U /\
    Arr.get dzero (ko_positive r) l
    = total (fun k => snd (blk Vx Vy Vz Sx Sy Sz k (k - l))) U.

Lemma acc_state_step U : 0 <= U -> acc_state U -> acc_state (U + 1).
Proof.
  intros HU IH HUT r' l Hl. specialize (IH ltac:(lia) l Hl). cbv zeta in IH.
  unfold r'. clear r'. rewrite run_succ by auto.
  set (r := run group velocity virial U s) in *.
  destruct (run_config group velocity virial U s) as (C1 & C2 & C3 & C4 & C5 & C6 & C7).
  fold r in C1, C2, C3, C4, C5, C6, C7. fold i in C2.
  pose proof (run_well_sized group velocity virial U W) as Wr. fold r in Wr.
  pose proof (ws_interval W) as Hi. pose proof (ws_Nc W) as Hn. fold i in Hi.
  pose proof (ws_group_size W) as Hg.
  assert (Cr : compute r = true) by congruence.
  destruct (Z.eq_dec (Z.rem (U + 1) i) 0) as [Hr|Hr].
  2: { rewrite process_skip by (right; congruence).
       unfold total. rewrite (idle_step_div Hi HU Hr). exact IH. }
  assert (Ed : (U + 1) / i = U / i + 1) by (apply sampling_step_div; auto).
  assert (Hk0 : 0 <= U / i) by (apply Z.div_pos; lia).
  assert (Ek : sample_step_of r U = U / i)
    by (unfold sample_step_of; rewrite C2; apply Z.quot_div_nonneg; lia).
  (* the ring buffer after this step *)
  assert (HT1 : 0 <= U + 1) by lia.
  assert (Hc1 : forall t, 0 <= t < U + 1 -> stored_count s (velocity t) = group_size s)
    by (intros; apply Hcount; lia).
  destruct (@ring_state_run D SD group velocity virial s (U + 1) Hc W Hc1 HT1)
    as (_ & _ & Hring); [lia|].
  rewrite run_succ in Hring by auto. fold r in Hring. fold i in Hring.
  rewrite Ed in Hring.
  pose proof (store_sample_frame U group (velocity U) (virial U) r) as F.
  pose proof (store_sample_length U group (velocity U) (virial U) r) as L.
  rewrite process_sample by congruence. rewrite Ek, C3.
  rewrite process_sample in Hring by congruence. rewrite Ek, C3 in Hring.
  set (s1 := store_sample U group (velocity U) (virial U) r) in *.
  destruct F as (F1 & F2 & F3 & F4 & F5 & F6 & F7 & F8 & F9 & F10 & F11 & F12).
  destruct L as (L1 & L2 & L3 & L4 & L5 & L6).
  destruct IH as (I1 & I2 & I3 & I4).
  destruct (Z.leb_spec (Nc s - 1) (U / i)) as [Hred|Hnot].
  2: { rewrite F9, F10, F11, F12, I1, I2, I3, I4. unfold total.
       rewrite Ed. replace (Z.max 0 (U / i + 1 - (Nc s - 1))) with (Z.max 0 (U / i - (Nc s - 1))) by lia.
       tauto. }
  assert (W1 : well_sized s1) by (destruct Wr; constructor; congruence).
  assert (Hl1 : 0 <= l < Nc s1) by (rewrite F3, C3; exact Hl).
  destruct (reduce_blocks W1 HU Hl1) as (Eb & G1 & G2 & G3 & G4).
  set (k := U / i) in *.
  assert (Ec : correlation_step_of s1 U = k mod Nc s).
  { rewrite correlation_step_mod by (auto; apply W1). now rewrite F2, F3, C2, C3. }
  assert (Eo : offset_of s1 U = k mod Nc s * group_size s).
  { unfold offset_of. now rewrite Ec, F7, C7. }
  rewrite Ec, Eo, F3, F7, C3, C7 in *.
  assert (Eb' : find_k_target (Nc s) (k mod Nc s) l = (k - l) mod Nc s)
    by (rewrite Eb; apply Zminus_mod_idemp_l).
  rewrite Eb' in *. clear Eb.
  assert (Hpage : forall j n, k + 1 - Nc s <= j < k + 1 -> 0 <= j -> 0 <= n < group_size s ->
            Arr.get dzero (sx s1) (j mod Nc s * group_size s + n) = v Sx j n /\
            Arr.get dzero (sy s1) (j mod Nc s * group_size s + n) = v Sy j n /\
            Arr.get dzero (sz s1) (j mod Nc s * group_size s + n) = v Sz j n /\
            Arr.get dzero (vx s1) (j mod Nc s * group_size s + n) = v Vx j n /\
            Arr.get dzero (vy s1) (j mod Nc s * group_size s + n) = v Vy j n /\
            Arr.get dzero (vz s1) (j mod Nc s * group_size s + n) = v Vz j n).
  { intros j n Hj Hj0 Hn'. pose proof (Hring j n Hj0 Hj Hn') as H.
    unfold holds_sample in H. cbv zeta in H.
    destruct (Z.leb_spec (Nc s - 1) k); [|lia].
    cbn [sx sy sz vx vy vz reduce] in H.
    exact H. }
  assert (Hneg : find_k_block_sum BLOCK_SIZE_SHC (group_size s) ((k - l) mod Nc s)
                   (data_at (sx s1) (k mod Nc s * group_size s))
                   (data_at (sy s1) (k mod Nc s * group_size s))
                   (data_at (sz s1) (k mod Nc s * group_size s))
                   (data_at (vx s1) 0) (data_at (vy s1) 0) (data_at (vz s1) 0)
                 = blk Sx Sy Sz Vx Vy Vz k (k - l)).
  { unfold blk, sample_block_sum. cbv zeta.
    apply find_k_block_sum_ext. intros n Hn'.
    destruct (Hpage k n) as (P1 & P2 & P3 & P4 & P5 & P6); try lia.
    destruct (Hpage (k - l) n) as (Q1 & Q2 & Q3 & Q4 & Q5 & Q6); try lia.
    unfold deref, data_at, sample_page. cbn [p_arr p_base].
    replace (0 + (0 * group_size s + n)) with n by lia.
    rewrite !Z.add_0_l, !get_map_range by lia.
    fold v. repeat split; assumption. }
  assert (Hpos : find_k_block_sum BLOCK_SIZE_SHC (group_size s) ((k - l) mod Nc s)
                   (data_at (vx s1) (k mod Nc s * group_size s))
                   (data_at (vy s1) (k mod Nc s * group_size s))
                   (data_at (vz s1) (k mod Nc s * group_size s))
                   (data_at (sx s1) 0) (data_at (sy s1) 0) (data_at (sz s1) 0)
                 = blk Vx Vy Vz Sx Sy Sz k (k - l)).
  { unfold blk, sample_block_sum. cbv zeta.
    apply find_k_block_sum_ext. intros n Hn'.
    destruct (Hpage k n) as (P1 & P2 & P3 & P4 & P5 & P6); try lia.
    destruct (Hpage (k - l) n) as (Q1 & Q2 & Q3 & Q4 & Q5 & Q6); try lia.
    unfold deref, data_at, sample_page. cbn [p_arr p_base].
    replace (0 + (0 * group_size s + n)) with n by lia.
    rewrite !Z.add_0_l, !get_map_range by lia.
    fold v. repeat split; assumption. }
  assert (Em : Z.max 0 (k + 1 - (Nc s - 1)) = Z.max 0 (k - (Nc s - 1)) + 1) by lia.
  assert (Ek' : Nc s - 1 + Z.max 0 (k - (Nc s - 1)) = k) by lia.
  unfold total. rewrite Ed. fold k. rewrite Em.
  rewrite !accumulate_snoc by lia. rewrite Ek'.
  rewrite G1, G2, G3, G4, Hneg, Hpos, F9, F10, F11, F12, I1, I2, I3, I4.
  unfold total. fold k. tauto.
Qed.

Lemma acc_state_run : 0 <= T -> acc_state T.
Proof.
  intros HT. pattern T at 1. apply natlike_ind; auto.
  - intros _ r l Hl. unfold r. rewrite run_nonpos by lia.
    pose proof (ws_interval W). pose proof (ws_Nc W).
    unfold total. rewrite Z.div_0_l by (unfold i; lia).
    replace (Z.max 0 (0 - (Nc s - 1))) with 0 by lia.
    unfold accumulate; simpl. now apply Hzero.
  - intros U HU IH. now apply acc_state_step.
Qed.

End Accumulation.

(** X6.  What a run accumulates.  Number the samples 0, 1, 2, ...; sample
    [k] is what the inputs of step [(k + 1) * sample_interval - 1] give for
    the tracked particles.  After steps [0, ..., T-1] from setup, with pages
    written whole, the time origins are the samples [Nc - 1, ..., K - 1],
    where [K] is the number of samples written, and for every lag [l] in
    [0, Nc) element [l] of each accumulator is zero plus one term per time
    origin [k], added in the order of the time origins.  The term is what a
    block of [gpu_find_k] computes from sample [k] and the sample [l] places
    before it, read from the inputs and not from the ring buffer:
    - for [ki_negative] and [ko_negative] the flux of sample [k] against
      the velocity of sample [k - l],
    - for [ki_positive] and [ko_positive] the velocity of sample [k]
      against the flux of sample [k - l].
    Every sum is taken in the order the code takes it; no law of the
    arithmetic is used, so the statement holds for [double]. *)
Theorem accumulators_are_correlation_sums {D} {SD : Scalar D}
    (junk : Z -> Z -> D) (N : Z) (group : list Group) (cfg : SHC D)
    (velocity virial : Z -> list D) (T l : Z) :
  compute cfg = true -> 0 < sample_interval cfg -> 0 < Nc cfg -> 0 <= T ->
  let s0 := preprocess junk N group cfg in
  0 <= group_size s0 ->
  (forall t, 0 <= t < T -> stored_count s0 (velocity t) = group_size s0) ->
  0 <= l < Nc cfg ->
  let r := run group velocity virial T s0 in
  let blk := sample_block_sum s0 group velocity virial in
  let first := Nc cfg - 1 in
  let origins := Z.max 0 (T / sample_interval cfg - first) in
  num_time_origins r = origins /\
  Arr.get dzero (ki_negative r) l
    = accumulate (fun k => fst (blk Sx Sy Sz Vx Vy Vz k (k - l))) first origins /\
  Arr.get dzero (ko_negative r) l
    = accumulate (fun k => snd (blk Sx Sy Sz Vx Vy Vz k (k - l))) first origins /\
  Arr.get dzero (ki_positive r) l
    = accumulate (fun k => fst (blk Vx Vy Vz Sx Sy Sz k (k - l))) first origins /\
  Arr.get dzero (ko_positive r) l
    = accumulate (fun k => snd (blk Vx Vy Vz Sx Sy Sz k (k - l))) first origins.
Proof.
  intros Hc Hi Hn HT s0 Hg Hcount Hl r blk first origins.
  destruct (preprocess_state junk N group cfg Hc)
    as (S1 & S2 & S3 & _ & _ & _ & S7 & S8 & S9 & S10 & S11).
  fold s0 in S1, S2, S3, S7, S8, S9, S10, S11.
  assert (W0 : well_sized s0) by (apply preprocess_well_sized; auto).
  assert (Hzero : forall l, 0 <= l < Nc s0 ->
            Arr.get dzero (ki_negative s0) l = dzero /\
            Arr.get dzero (ko_negative s0) l = dzero /\
            Arr.get dzero (ki_positive s0) l = dzero /\
            Arr.get dzero (ko_positive s0) l = dzero).
  { intros l' Hl'. rewrite S8, S9, S10, S11, !get_repeat by lia. tauto. }
  assert (Hi0 : 0 < sample_interval s0) by lia.
  assert (Hn0 : 0 < Nc s0) by lia.
  destruct (run_counter group velocity virial s0 S1 Hi0 Hn0 HT) as [Hcnt _].
  fold r in Hcnt. rewrite S2, S3, S7 in Hcnt.
  split; [unfold origins, first; lia|].
  assert (Hl0 : 0 <= l < Nc s0) by lia.
  pose proof (@acc_state_run D SD group velocity virial s0 T S1 W0 Hcount Hzero HT
                (Z.le_refl T) l Hl0) as H.
  cbv beta zeta in H. fold r in H. rewrite S2, S3 in H.
  exact H.
Qed.

Lemma accumulators_are_correlation_sums_witness :
  num_time_origins
    (run ten_groups (fun _ => ramp 3) (fun _ => ramp 9) 7
       (preprocess (fun _ _ => 0%Q) 10 ten_groups subset_engine))
  = Z.max 0 (7 / sample_interval subset_engine - (Nc subset_engine - 1)).
Proof.
  refine (proj1
    (@accumulators_are_correlation_sums Q _ (fun _ _ => 0%Q) 10 ten_groups
       subset_engine (fun _ => ramp 3) (fun _ => ramp 9) 7 1
       eq_refl _ _ _ _ _ _)).
  - reflexivity.
  - reflexivity.
  - discriminate.
  - discriminate.
  - intros t _. reflexivity.
  - split; [discriminate | reflexivity].
Defined.

(** * The life cycle of the engine *)

Lemma run_disabled {D} {SD : Scalar D} group (velocity virial : Z -> list D) T
    (s : SHC D) :
  compute s = false -> run group velocity virial T s = s.
Proof.
  intros Hc. unfold run. induction (Arr.range T) as [|t ts IH]; simpl; auto.
  rewrite process_skip by auto. exact IH.
Qed.

Section ParseOk.
Context {D : Type}.
Variable is_valid_int : string -> option Z.
Variable parse_group : list string -> Z -> bool -> list Group -> Z -> option (Z * Z).

(** What an accepted command line leaves in the engine. *)
Lemma parse_ok param groups (s cfg : SHC D) :
  parse is_valid_int parse_group param groups s = Ok cfg ->
  compute cfg = true /\
  1 <= sample_interval cfg <= 10 /\ 100 <= Nc cfg <= 1000 /\
  0 <= direction cfg <= 2 /\
  (len param = 4 -> group_method cfg = group_method s /\ group_id cfg = group_id s) /\
  group_size cfg = group_size s /\ num_time_origins cfg = num_time_origins s /\
  ring_of cfg = ring_of s.
Proof.
  unfold parse.
  destruct (Z.eqb_spec (len param) 4) as [E4|N4];
    [|destruct (Z.eqb_spec (len param) 7) as [E7|N7]]; cbn [negb andb];
    try discriminate.
  all: destruct (is_valid_int (Arr.get EmptyString param 1)) as [si|]; try discriminate.
  all: destruct (Z.ltb_spec si 1); try discriminate.
  all: destruct (Z.ltb_spec 10 si); try discriminate.
  all: destruct (is_valid_int (Arr.get EmptyString param 2)) as [n|]; try discriminate.
  all: destruct (Z.ltb_spec n 100); try discriminate.
  all: destruct (Z.ltb_spec 1000 n); try discriminate.
  all: destruct (is_valid_int (Arr.get EmptyString param 3)) as [d|]; try discriminate.
  all: destruct ((d =? 0) || (d =? 1) || (d =? 2)) eqn:Ed; try discriminate.
  all: assert (Hd : 0 <= d <= 2)
    by (apply orb_true_iff in Ed as [Ed|Ed];
        [apply orb_true_iff in Ed as [Ed|Ed]|]; lia).
  - rewrite E4, parse_keywords_none. intros [= <-]; simpl.
    repeat split; auto; lia.
  - rewrite E7, parse_keywords_selector.
    destruct (String.eqb (Arr.get EmptyString param 4) "group"); try discriminate.
    destruct (parse_group param 7 false groups 4) as [[gm gi]|]; try discriminate.
    intros [= <-]; simpl. repeat split; auto; lia.
Qed.

End ParseOk.

(** X7.  Finalization switches the engine off for good: after
    [postprocess] every later [preprocess], every run of [process] calls and
    every further [postprocess] returns the engine as it is and writes
    nothing.  Only [parse] switches it on again, and because finalization
    has also reset the group selection, a command line without the [group]
    keyword then tracks all particles, whatever group the finished run
    used. *)
Theorem finalized_engine_is_inert {D} {SD : Scalar D}
    (s : SHC D) (file : list (D * D * D * D)) :
  compute s = true ->
  let s' := fst (postprocess s file) in
  (forall junk N group, preprocess junk N group s' = s') /\
  (forall group velocity virial T, run group velocity virial T s' = s') /\
  (forall file', postprocess s' file' = (s', file')) /\
  (forall is_valid_int parse_group param groups cfg,
     len param = 4 ->
     parse is_valid_int parse_group param groups s' = Ok cfg ->
     compute cfg = true /\ group_method cfg = -1).
Proof.
  intros Hc s'.
  assert (Hoff : compute s' = false /\ group_method s' = -1)
    by (unfold s', postprocess; rewrite Hc; simpl; auto).
  destruct Hoff as [Hoff Hgm].
  split; [intros; unfold preprocess; now rewrite Hoff|].
  split; [intros; now apply run_disabled|].
  split; [intros; unfold postprocess; now rewrite Hoff|].
  intros ivi pg param groups cfg Hlen Hparse.
  destruct (parse_ok ivi pg param groups s' Hparse) as (P1 & _ & _ & _ & P5 & _).
  destruct (P5 Hlen) as [G _]. split; [exact P1 | congruence].
Qed.

Lemma finalized_engine_is_inert_witness :
  run ten_groups (fun _ => ramp 3) (fun _ => ramp 9) 9
    (fst (postprocess subset_engine []))
  = fst (postprocess subset_engine []).
Proof.
  exact (proj1 (proj2 (@finalized_engine_is_inert Q _ subset_engine [] eq_refl))
           ten_groups (fun _ => ramp 3) (fun _ => ramp 9) 9).
Defined.

(** * Checked execution agrees with the model *)

Lemma int_some z : INT_MIN <= z <= INT_MAX -> int z = Some z.
Proof.
  intros H. unfold int.
  destruct (Z.leb_spec INT_MIN z); [|lia].
  destruct (Z.leb_spec z INT_MAX); [|lia]. reflexivity.
Qed.

Lemma int_quot_some a b :
  b <> 0 -> INT_MIN <= Z.quot a b <= INT_MAX -> int_quot a b = Some (Z.quot a b).
Proof.
  intros Hb H. unfold int_quot.
  destruct (Z.eqb_spec b 0); [contradiction|]. now apply int_some.
Qed.

Lemma int_rem_some a b :
  b <> 0 -> INT_MIN <= Z.quot a b <= INT_MAX -> int_rem a b = Some (Z.rem a b).
Proof. intros Hb H. unfold int_rem. now rewrite int_quot_some. Qed.

Lemma checked_get_some {A} (d : A) (l : list A) i :
  0 <= i < len l -> checked_get l i = Some (Arr.get d l i).
Proof.
  intros H. unfold checked_get, Arr.get.
  destruct (Z.ltb_spec i 0); [lia|].
  apply nth_error_nth'. lia.
Qed.

Lemma checked_set_some {A} (l : list A) i x :
  0 <= i < len l -> checked_set l i x = Some (Arr.set l i x).
Proof.
  intros H. unfold checked_set.
  destruct (Z.leb_spec 0 i); [|lia].
  destruct (Z.ltb_spec i (len l)); [|lia]. reflexivity.
Qed.

Lemma fold_checked_some {A B} (P : A -> Prop) (f : A -> B -> option A)
    (g : A -> B -> A) (l : list B) (a : A) :
  (forall a x, In x l -> P a -> f a x = Some (g a x) /\ P (g a x)) ->
  P a -> fold_checked f l a = Some (fold_left g l a) /\ P (fold_left g l a).
Proof.
  revert a; induction l as [|x l IH]; intros a H Ha; simpl; auto.
  destruct (H a x (or_introl eq_refl) Ha) as [E Hg]. rewrite E. cbn [bind].
  apply IH; auto. intros a' x' Hin. apply H. now right.
Qed.

Lemma fold_checked_all {A B} (f : A -> B -> option A) (g : A -> B -> A)
    (l : list B) (a : A) :
  (forall a x, In x l -> f a x = Some (g a x)) ->
  fold_checked f l a = Some (fold_left g l a).
Proof.
  intros H.
  apply (@fold_checked_some A B (fun _ => True) f g l a); auto.
Qed.

Lemma map_checked_some {A B} (f : A -> option B) (g : A -> B) (l : list A) :
  (forall x, In x l -> f x = Some (g x)) -> map_checked f l = Some (map g l).
Proof.
  induction l as [|x l IH]; intros H; simpl; auto.
  rewrite (H x) by now left. cbn [bind].
  rewrite IH by (intros; apply H; now right). reflexivity.
Qed.

Lemma quot_rounds gs :
  0 <= gs -> 0 <= Z.quot (gs - 1) BLOCK_SIZE_SHC /\
  Z.quot (gs - 1) BLOCK_SIZE_SHC * BLOCK_SIZE_SHC <= gs.
Proof.
  intros H. unfold BLOCK_SIZE_SHC.
  destruct (Z.eq_dec gs 0) as [->|Hne]; [cbn; lia|].
  rewrite Z.quot_div_nonneg by lia.
  pose proof (Z.div_mod (gs - 1) 128). pose proof (Z.mod_pos_bound (gs - 1) 128).
  lia.
Qed.

Section CheckedFindK.
Context {D : Type} {SD : Scalar D}.
Variables (group_size bid : Z).
Variables (g_sx g_sy g_sz g_vx g_vy g_vz : Ptr D).
Hypothesis Hgs : 0 <= group_size.
Hypothesis Hgs_max : group_size + BLOCK_SIZE_SHC <= INT_MAX.
Hypothesis Hbid : 0 <= bid.
Hypothesis Hpage_max : bid * group_size + group_size <= INT_MAX.
Hypothesis Hnow : forall n, 0 <= n < group_size ->
  0 <= p_base g_sx + n < len (p_arr g_sx) /\
  0 <= p_base g_sy + n < len (p_arr g_sy) /\
  0 <= p_base g_sz + n < len (p_arr g_sz).
Hypothesis Hlag : forall n, 0 <= n < group_size ->
  0 <= p_base g_vx + (bid * group_size + n) < len (p_arr g_vx) /\
  0 <= p_base g_vy + (bid * group_size + n) < len (p_arr g_vy) /\
  0 <= p_base g_vz + (bid * group_size + n) < len (p_arr g_vz).

Lemma find_k_round_checked_some tid round k :
  0 <= tid < BLOCK_SIZE_SHC ->
  0 <= round < Z.quot (group_size - 1) BLOCK_SIZE_SHC + 1 ->
  find_k_round_checked group_size (bid * group_size) tid
    g_sx g_sy g_sz g_vx g_vy g_vz k round
  = Some (find_k_round group_size (bid * group_size) tid
            g_sx g_sy g_sz g_vx g_vy g_vz k round).
Proof.
  intros Ht Hr. destruct (quot_rounds Hgs) as [Q0 Q1].
  unfold BLOCK_SIZE_SHC, INT_MAX, INT_MIN in *.
  unfold find_k_round_checked, find_k_round. cbv zeta.
  unfold BLOCK_SIZE_SHC.
  rewrite (int_some (z := round * 128)) by (unfold INT_MAX, INT_MIN; nia).
  cbn [bind].
  rewrite (int_some (z := tid + round * 128)) by (unfold INT_MAX, INT_MIN; nia).
  cbn [bind].
  destruct (Z.ltb_spec (tid + round * 128) group_size) as [Hn|Hn]; auto.
  assert (Hn' : 0 <= tid + round * 128 < group_size) by nia.
  rewrite int_some by (unfold INT_MAX, INT_MIN; nia). cbn [bind].
  destruct (Hnow Hn') as (A1 & A2 & A3). destruct (Hlag Hn') as (B1 & B2 & B3).
  unfold deref_checked, deref.
  rewrite (checked_get_some dzero (p_arr g_sx)) by assumption. cbn [bind].
  rewrite (checked_get_some dzero (p_arr g_vx)) by assumption. cbn [bind].
  rewrite (checked_get_some dzero (p_arr g_sy)) by assumption. cbn [bind].
  rewrite (checked_get_some dzero (p_arr g_vy)) by assumption. cbn [bind].
  rewrite (checked_get_some dzero (p_arr g_sz)) by assumption. cbn [bind].
  rewrite (checked_get_some dzero (p_arr g_vz)) by assumption. cbn [bind].
  reflexivity.
Qed.

Lemma find_k_thread_checked_some tid :
  0 <= tid < BLOCK_SIZE_SHC ->
  find_k_thread_checked group_size bid tid g_sx g_sy g_sz g_vx g_vy g_vz
  = Some (find_k_thread group_size bid tid g_sx g_sy g_sz g_vx g_vy g_vz).
Proof.
  intros Ht. destruct (quot_rounds Hgs) as [Q0 Q1].
  unfold find_k_thread_checked, find_k_thread. cbv zeta.
  rewrite (int_some (z := bid * group_size))
    by (unfold INT_MAX, INT_MIN, BLOCK_SIZE_SHC in *; nia).
  cbn [bind].
  rewrite (int_some (z := group_size - 1))
    by (unfold INT_MAX, INT_MIN, BLOCK_SIZE_SHC in *; lia).
  cbn [bind].
  rewrite (int_some (z := Z.quot (group_size - 1) BLOCK_SIZE_SHC + 1))
    by (unfold INT_MAX, INT_MIN, BLOCK_SIZE_SHC in *; lia).
  cbn [bind].
  apply fold_checked_all. intros k round Hin. apply in_range in Hin.
  now apply find_k_round_checked_some.
Qed.

End CheckedFindK.

Section CheckedTree.
Context {D : Type} {SD : Scalar D}.

Lemma tree_pass_length offset (s : list D) : length (tree_pass offset s) = length s.
Proof. unfold tree_pass. rewrite length_map, length_range. lia. Qed.

Lemma tree_pass_checked_some offset (s : list D) :
  0 <= offset -> offset * 2 <= len s -> len s <= INT_MAX ->
  tree_pass_checked offset s = Some (tree_pass offset s).
Proof.
  intros H0 H Hmax. unfold tree_pass_checked, tree_pass.
  apply map_checked_some. intros tid Hin. apply in_range in Hin.
  destruct (Z.ltb_spec tid offset).
  - rewrite (checked_get_some dzero s (i := tid)) by lia. cbn [bind].
    rewrite (int_some (z := tid + offset)) by (unfold INT_MAX, INT_MIN in *; lia).
    cbn [bind].
    rewrite (checked_get_some dzero s (i := tid + offset)) by lia. reflexivity.
  - apply checked_get_some. lia.
Qed.

Lemma tree_loop_checked_some p (s : list D) :
  Zpos p * 2 <= len s -> len s <= INT_MAX ->
  tree_loop_checked p s = Some (tree_loop p s).
Proof.
  revert s; induction p as [q IH|q IH|]; intros s H Hmax; simpl;
    rewrite tree_pass_checked_some by lia; cbn [bind]; auto;
    apply IH; rewrite tree_pass_length; lia.
Qed.

Lemma tree_reduce_checked_some blockDim (s : list D) :
  len s = blockDim -> blockDim <= INT_MAX ->
  tree_reduce_checked blockDim s = Some (tree_reduce blockDim s).
Proof.
  intros H Hmax. unfold tree_reduce_checked, tree_reduce.
  destruct (Z.shiftr blockDim 1) as [|p|p] eqn:E; auto.
  apply tree_loop_checked_some; [|lia].
  rewrite Z.shiftr_div_pow2 in E by lia. change (2 ^ 1) with 2 in E.
  pose proof (Z.div_mod blockDim 2). pose proof (Z.mod_pos_bound blockDim 2). lia.
Qed.

Lemma tree_loop_length p (s : list D) : length (tree_loop p s) = length s.
Proof.
  revert s; induction p as [q IH|q IH|]; intros s; simpl;
    rewrite ?IH; apply tree_pass_length.
Qed.

Lemma tree_reduce_length blockDim (s : list D) :
  length (tree_reduce blockDim s) = length s.
Proof.
  unfold tree_reduce. destruct (Z.shiftr blockDim 1); auto using tree_loop_length.
Qed.

End CheckedTree.

Section CheckedBlock.
Context {D : Type} {SD : Scalar D}.
Variables (gridDim group_size correlation_step : Z).
Variables (g_sx g_sy g_sz g_vx g_vy g_vz : Ptr D).
Hypothesis Hgs : 0 <= group_size.
Hypothesis Hgs_max : group_size + BLOCK_SIZE_SHC <= INT_MAX.
Hypothesis Hgrid_max : gridDim * group_size <= INT_MAX.
Hypothesis Hgrid2 : gridDim * 2 <= INT_MAX.
Hypothesis Hc : 0 <= correlation_step < gridDim.
Hypothesis Hnow : forall n, 0 <= n < group_size ->
  0 <= p_base g_sx + n < len (p_arr g_sx) /\
  0 <= p_base g_sy + n < len (p_arr g_sy) /\
  0 <= p_base g_sz + n < len (p_arr g_sz).
Hypothesis Hlag : forall n, 0 <= n < gridDim * group_size ->
  0 <= p_base g_vx + n < len (p_arr g_vx) /\
  0 <= p_base g_vy + n < len (p_arr g_vy) /\
  0 <= p_base g_vz + n < len (p_arr g_vz).

Lemma find_k_block_sum_checked_some bid :
  0 <= bid < gridDim ->
  find_k_block_sum_checked BLOCK_SIZE_SHC group_size bid g_sx g_sy g_sz g_vx g_vy g_vz
  = Some (find_k_block_sum BLOCK_SIZE_SHC group_size bid g_sx g_sy g_sz g_vx g_vy g_vz).
Proof.
  intros Hb. unfold find_k_block_sum_checked, find_k_block_sum. cbv zeta.
  rewrite Z.ltb_irrefl.
  rewrite (map_checked_some
             (fun tid => find_k_thread_checked group_size bid tid
                           g_sx g_sy g_sz g_vx g_vy g_vz)
             (fun tid => find_k_thread group_size bid tid
                           g_sx g_sy g_sz g_vx g_vy g_vz)).
  2: { intros tid Hin. apply in_range in Hin.
       apply find_k_thread_checked_some; auto; try lia.
       - nia.
       - intros n Hn. apply Hlag. nia. }
  cbn [bind].
  set (part := map _ (Arr.range BLOCK_SIZE_SHC)).
  assert (Lp : len part = BLOCK_SIZE_SHC)
    by (unfold part; rewrite length_map, length_range; reflexivity).
  rewrite (@tree_reduce_checked_some D SD BLOCK_SIZE_SHC (map fst part))
    by (try discriminate; now rewrite length_map).
  cbn [bind].
  rewrite (@tree_reduce_checked_some D SD BLOCK_SIZE_SHC (map snd part))
    by (try discriminate; now rewrite length_map).
  cbn [bind].
  rewrite (checked_get_some dzero (tree_reduce BLOCK_SIZE_SHC (map fst part)) (i := 0))
    by (rewrite tree_reduce_length, length_map, Lp; unfold BLOCK_SIZE_SHC; lia).
  cbn [bind].
  rewrite (checked_get_some dzero (tree_reduce BLOCK_SIZE_SHC (map snd part)) (i := 0))
    by (rewrite tree_reduce_length, length_map, Lp; unfold BLOCK_SIZE_SHC; lia).
  reflexivity.
Qed.

Lemma find_k_target_checked_some bid :
  0 <= bid < gridDim ->
  find_k_target_checked gridDim correlation_step bid
  = Some (find_k_target gridDim correlation_step bid).
Proof.
  intros Hb. unfold find_k_target_checked, find_k_target.
  destruct (Z.leb_spec bid correlation_step).
  - apply int_some. unfold INT_MAX, INT_MIN in *. lia.
  - rewrite (int_some (z := correlation_step + gridDim))
      by (unfold INT_MAX, INT_MIN in *; lia).
    cbn [bind]. apply int_some. unfold INT_MAX, INT_MIN in *. lia.
Qed.

Lemma find_k_block_checked_some (g : list D * list D) bid :
  0 <= bid < gridDim -> len (fst g) = gridDim -> len (snd g) = gridDim ->
  find_k_block_checked gridDim BLOCK_SIZE_SHC group_size correlation_step
    g_sx g_sy g_sz g_vx g_vy g_vz g bid
  = Some (find_k_block gridDim BLOCK_SIZE_SHC group_size correlation_step
            g_sx g_sy g_sz g_vx g_vy g_vz g bid).
Proof.
  intros Hb L1 L2. unfold find_k_block_checked, find_k_block. cbv zeta.
  rewrite find_k_block_sum_checked_some by auto. cbn [bind].
  rewrite find_k_target_checked_some by auto. cbn [bind].
  pose proof (find_k_target_range Hc Hb) as Ht.
  rewrite (checked_get_some dzero (fst g)) by lia. cbn [bind].
  rewrite checked_set_some by lia. cbn [bind].
  rewrite (checked_get_some dzero (snd g)) by lia. cbn [bind].
  rewrite checked_set_some by lia. cbn [bind].
  reflexivity.
Qed.

Lemma gpu_find_k_checked_some (g_ki g_ko : list D) :
  len g_ki = gridDim -> len g_ko = gridDim ->
  gpu_find_k_checked gridDim BLOCK_SIZE_SHC group_size correlation_step
    g_sx g_sy g_sz g_vx g_vy g_vz g_ki g_ko
  = Some (gpu_find_k gridDim BLOCK_SIZE_SHC group_size correlation_step
            g_sx g_sy g_sz g_vx g_vy g_vz g_ki g_ko).
Proof.
  intros L1 L2. unfold gpu_find_k_checked, gpu_find_k.
  apply (@fold_checked_some _ _
           (fun g : list D * list D => len (fst g) = gridDim /\ len (snd g) = gridDim)).
  - intros g bid Hin [G1 G2]. apply in_range in Hin. split.
    + now apply find_k_block_checked_some.
    + unfold find_k_block; cbn [fst snd]. now rewrite !length_set.
  - now split.
Qed.

End CheckedBlock.

Section CheckedCopy.
Context {D : Type} {SD : Scalar D}.
Variables (group_size offset : Z) (g_group_contents : list Z) (o_base N L : Z).
Variables (g_sx_i g_sy_i g_sz_i g_vx_i g_vy_i g_vz_i : Ptr D).
Hypothesis Hgs : 0 <= group_size.
Hypothesis Hgs_max : group_size + BLOCK_SIZE_SHC <= INT_MAX.
Hypothesis Hoff : 0 <= offset.
Hypothesis Hoff_len : offset + group_size <= len g_group_contents.
Hypothesis Hoff_max : offset + group_size <= INT_MAX.
Hypothesis Hm : forall n, 0 <= n < group_size ->
  0 <= Arr.get 0 g_group_contents (offset + n) < N.
Hypothesis Hin : forall m, 0 <= m < N ->
  0 <= p_base g_sx_i + m < len (p_arr g_sx_i) /\
  0 <= p_base g_sy_i + m < len (p_arr g_sy_i) /\
  0 <= p_base g_sz_i + m < len (p_arr g_sz_i) /\
  0 <= p_base g_vx_i + m < len (p_arr g_vx_i) /\
  0 <= p_base g_vy_i + m < len (p_arr g_vy_i) /\
  0 <= p_base g_vz_i + m < len (p_arr g_vz_i).
Hypothesis Hbase : 0 <= o_base.
Hypothesis Hbase_len : o_base + group_size <= L.

Let sized (o : Bufs D) : Prop :=
  len (b_sx o) = L /\ len (b_sy o) = L /\ len (b_sz o) = L /\
  len (b_vx o) = L /\ len (b_vy o) = L /\ len (b_vz o) = L.

Lemma copy_data_thread_sized bid o tid :
  sized o ->
  sized (copy_data_thread BLOCK_SIZE_SHC group_size offset g_group_contents o_base
           g_sx_i g_sy_i g_sz_i g_vx_i g_vy_i g_vz_i bid o tid).
Proof.
  intros S. unfold copy_data_thread. cbv zeta.
  destruct (tid + bid * BLOCK_SIZE_SHC <? group_size); auto.
  unfold sized in *. cbn [b_sx b_sy b_sz b_vx b_vy b_vz].
  now rewrite !length_set.
Qed.

Lemma copy_data_thread_checked_some bid o tid :
  0 <= bid < Z.quot (group_size - 1) BLOCK_SIZE_SHC + 1 ->
  0 <= tid < BLOCK_SIZE_SHC -> sized o ->
  copy_data_thread_checked BLOCK_SIZE_SHC group_size offset g_group_contents o_base
    g_sx_i g_sy_i g_sz_i g_vx_i g_vy_i g_vz_i bid o tid
  = Some (copy_data_thread BLOCK_SIZE_SHC group_size offset g_group_contents o_base
            g_sx_i g_sy_i g_sz_i g_vx_i g_vy_i g_vz_i bid o tid).
Proof.
  intros Hb Ht (S1 & S2 & S3 & S4 & S5 & S6).
  destruct (quot_rounds Hgs) as [Q0 Q1].
  unfold copy_data_thread_checked, copy_data_thread. cbv zeta.
  unfold BLOCK_SIZE_SHC in *.
  rewrite (int_some (z := bid * 128)) by (unfold INT_MAX, INT_MIN in *; nia).
  cbn [bind].
  rewrite (int_some (z := tid + bid * 128)) by (unfold INT_MAX, INT_MIN in *; nia).
  cbn [bind].
  destruct (Z.ltb_spec (tid + bid * 128) group_size) as [Hn|Hn]; auto.
  assert (Hn' : 0 <= tid + bid * 128 < group_size) by nia.
  rewrite int_some by (unfold INT_MAX, INT_MIN in *; lia). cbn [bind].
  rewrite (checked_get_some 0 g_group_contents) by lia. cbn [bind].
  destruct (Hin (Hm Hn')) as (A1 & A2 & A3 & A4 & A5 & A6).
  unfold deref_checked, deref.
  rewrite (checked_get_some dzero (p_arr g_sx_i)) by assumption. cbn [bind].
  rewrite checked_set_some by lia. cbn [bind].
  rewrite (checked_get_some dzero (p_arr g_sy_i)) by assumption. cbn [bind].
  rewrite checked_set_some by lia. cbn [bind].
  rewrite (checked_get_some dzero (p_arr g_sz_i)) by assumption. cbn [bind].
  rewrite checked_set_some by lia. cbn [bind].
  rewrite (checked_get_some dzero (p_arr g_vx_i)) by assumption. cbn [bind].
  rewrite checked_set_some by lia. cbn [bind].
  rewrite (checked_get_some dzero (p_arr g_vy_i)) by assumption. cbn [bind].
  rewrite checked_set_some by lia. cbn [bind].
  rewrite (checked_get_some dzero (p_arr g_vz_i)) by assumption. cbn [bind].
  rewrite checked_set_some by lia. cbn [bind].
  reflexivity.
Qed.

Lemma gpu_copy_data_checked_some o :
  sized o ->
  gpu_copy_data_checked (Z.quot (group_size - 1) BLOCK_SIZE_SHC + 1) BLOCK_SIZE_SHC
    group_size offset g_group_contents o_base
    g_sx_i g_sy_i g_sz_i g_vx_i g_vy_i g_vz_i o
  = Some (gpu_copy_data (Z.quot (group_size - 1) BLOCK_SIZE_SHC + 1) BLOCK_SIZE_SHC
            group_size offset g_group_contents o_base
            g_sx_i g_sy_i g_sz_i g_vx_i g_vy_i g_vz_i o).
Proof.
  intros S. unfold gpu_copy_data_checked, gpu_copy_data.
  apply (@fold_checked_some _ _ sized); auto.
  intros o' bid Hbid S'. apply in_range in Hbid.
  apply (@fold_checked_some _ _ sized); auto.
  intros o'' tid Htid S''. apply in_range in Htid. split.
  - now apply copy_data_thread_checked_some.
  - now apply copy_data_thread_sized.
Qed.

End CheckedCopy.

Lemma cudaMemcpy_checked_some {D} {SD : Scalar D} (dst : list D) doff (src : Ptr D) n :
  0 <= doff -> doff + n <= len dst ->
  0 <= p_base src -> p_base src + n <= len (p_arr src) ->
  cudaMemcpy_checked dst doff src n = Some (cudaMemcpy dst doff src n).
Proof.
  intros H1 H2 H3 H4. unfold cudaMemcpy_checked, cudaMemcpy.
  apply (@fold_checked_some _ _ (fun d : list D => len d = len dst)); auto.
  intros d i Hi Hd. apply in_range in Hi. split.
  - unfold deref_checked, deref.
    rewrite (checked_get_some dzero (p_arr src)) by lia. cbn [bind].
    apply checked_set_some. lia.
  - now rewrite length_set.
Qed.

Lemma tensor_row_checked d j :
  0 <= d <= 2 -> 0 <= j <= 2 ->
  checked_get tensor d = Some (Arr.get [] tensor d) /\
  checked_get (Arr.get [] tensor d) j = Some (tensor_at d j).
Proof.
  intros Hd Hj.
  assert (Ed : d = 0 \/ d = 1 \/ d = 2) by lia.
  assert (Ej : j = 0 \/ j = 1 \/ j = 2) by lia.
  destruct Ed as [-> | [-> | ->]]; destruct Ej as [-> | [-> | ->]];
    split; reflexivity.
Qed.

Section CheckedReduce.
Context {D : Type} {SD : Scalar D}.
Variables (step : Z) (s : SHC D).
Hypothesis W : well_sized s.
Hypothesis Hstep : 0 <= step < INT_MAX.
Hypothesis Hsize : group_size s * Nc s <= INT_MAX.
Hypothesis Hblock : group_size s + BLOCK_SIZE_SHC <= INT_MAX.
Hypothesis Hnc : Nc s * 2 <= INT_MAX.
Hypothesis Horigins : 0 <= num_time_origins s < INT_MAX.

Lemma sample_step_checked_some :
  int_quot step (sample_interval s) = Some (sample_step_of s step) /\
  0 <= sample_step_of s step <= step.
Proof.
  pose proof (ws_interval W) as Hi.
  assert (R : 0 <= sample_step_of s step <= step).
  { rewrite sample_step_div by (auto; lia). split.
    - apply Z.div_pos; lia.
    - apply Z.div_le_upper_bound; nia. }
  split; auto. unfold sample_step_of in *.
  apply int_quot_some; unfold INT_MAX, INT_MIN in *; lia.
Qed.

Lemma offset_checked_some :
  offset_checked s step = Some (correlation_step_of s step, offset_of s step).
Proof.
  pose proof (ws_interval W) as Hi. pose proof (ws_Nc W) as Hn.
  pose proof (ws_group_size W) as Hg.
  destruct sample_step_checked_some as [E R].
  assert (Hc : 0 <= correlation_step_of s step < Nc s)
    by (apply correlation_step_range; auto; lia).
  unfold offset_checked. rewrite E. cbn [bind].
  assert (Q : 0 <= Z.quot (sample_step_of s step) (Nc s) <= sample_step_of s step).
  { rewrite Z.quot_div_nonneg by lia. split.
    - apply Z.div_pos; lia.
    - apply Z.div_le_upper_bound; nia. }
  rewrite int_rem_some by (unfold INT_MAX, INT_MIN in *; lia). cbn [bind].
  fold (correlation_step_of s step).
  rewrite int_some by (unfold INT_MAX, INT_MIN in *; nia). cbn [bind].
  reflexivity.
Qed.

Lemma reduce_checked_some : reduce_checked step s = Some (reduce step s).
Proof.
  pose proof (ws_interval W) as Hi. pose proof (ws_Nc W) as Hn.
  pose proof (ws_group_size W) as Hg.
  assert (Hc : 0 <= correlation_step_of s step < Nc s)
    by (apply correlation_step_range; auto; lia).
  unfold reduce_checked, reduce. rewrite offset_checked_some. cbn [bind fst snd].
  cbv zeta.
  rewrite int_some by (unfold INT_MAX, INT_MIN in *; lia). cbn [bind].
  assert (Ho : 0 <= offset_of s step /\ offset_of s step + group_size s <= group_size s * Nc s)
    by (unfold offset_of; nia).
  assert (Hpages : forall n : Z, 0 <= n < Nc s * group_size s ->
            0 <= n < len (sx s) /\ 0 <= n < len (sy s) /\ 0 <= n < len (sz s) /\
            0 <= n < len (vx s) /\ 0 <= n < len (vy s) /\ 0 <= n < len (vz s))
    by (intros n Hn'; rewrite (ws_sx W), (ws_sy W), (ws_sz W),
          (ws_vx W), (ws_vy W), (ws_vz W); lia).
  rewrite gpu_find_k_checked_some; auto using ws_ki_negative, ws_ko_negative;
    try lia;
    try (intros n Hn'; cbn [p_arr p_base data_at];
         first [ destruct (Hpages n) as (P1 & P2 & P3 & P4 & P5 & P6);
                 [lia | repeat split; lia]
               | destruct (Hpages (offset_of s step + n))
                   as (P1 & P2 & P3 & P4 & P5 & P6);
                 [nia | repeat split; lia] ]).
  cbn [bind].
  rewrite gpu_find_k_checked_some; auto using ws_ki_positive, ws_ko_positive;
    try lia;
    try (intros n Hn'; cbn [p_arr p_base data_at];
         first [ destruct (Hpages n) as (P1 & P2 & P3 & P4 & P5 & P6);
                 [lia | repeat split; lia]
               | destruct (Hpages (offset_of s step + n))
                   as (P1 & P2 & P3 & P4 & P5 & P6);
                 [nia | repeat split; lia] ]).
Qed.

End CheckedReduce.

Section CheckedStep.
Context {D : Type} {SD : Scalar D}.
Variables (step N : Z) (group : list Group) (vel vir : list D) (s : SHC D).
Hypothesis W : well_sized s.
Hypothesis Hstep : 0 <= step < INT_MAX.
Hypothesis Hsize : group_size s * Nc s <= INT_MAX.
Hypothesis Hblock : group_size s + BLOCK_SIZE_SHC <= INT_MAX.
Hypothesis Hnc : Nc s * 2 <= INT_MAX.
Hypothesis Horigins : 0 <= num_time_origins s < INT_MAX.
Hypothesis Hdir : 0 <= direction s <= 2.
Hypothesis HN : Z.quot (len vel) 3 = N.
Hypothesis HN8 : N * 8 <= INT_MAX.
Hypothesis Hvir : N * 9 <= len vir.
Hypothesis Hall : group_method s = -1 -> N <= group_size s.
Hypothesis Hsel : valid_selection group N s.
Hypothesis Hsel_size : group_method s <> -1 ->
  group_size s
  = Arr.get 0 (cpu_size (Arr.get no_group group (group_method s))) (group_id s).

Lemma particle_count : 0 <= N /\ N * 3 <= len vel.
Proof.
  subst N. rewrite Z.quot_div_nonneg by lia.
  pose proof (Z.div_mod (len vel) 3). pose proof (Z.mod_pos_bound (len vel) 3).
  split; [apply Z.div_pos; lia | lia].
Qed.

Lemma store_sample_checked_some :
  store_sample_checked step group vel vir s = Some (store_sample step group vel vir s).
Proof.
  pose proof (ws_interval W) as Hi. pose proof (ws_Nc W) as Hn.
  pose proof (ws_group_size W) as Hg.
  destruct particle_count as [HN0 HN3].
  assert (Hc : 0 <= correlation_step_of s step < Nc s)
    by (apply correlation_step_range; auto; lia).
  assert (Ho : 0 <= offset_of s step /\
               offset_of s step + group_size s <= group_size s * Nc s)
    by (unfold offset_of; nia).
  pose proof (tensor_at_range (direction s) 0) as T0.
  pose proof (tensor_at_range (direction s) 1) as T1.
  pose proof (tensor_at_range (direction s) 2) as T2.
  unfold store_sample_checked, store_sample.
  rewrite offset_checked_some by auto. cbn [bind fst snd]. cbv zeta.
  rewrite HN.
  rewrite (int_some (z := N)) by (unfold INT_MAX, INT_MIN in *; lia). cbn [bind].
  rewrite (proj1 (@tensor_row_checked (direction s) 0 Hdir ltac:(lia))). cbn [bind].
  rewrite (proj2 (@tensor_row_checked (direction s) 0 Hdir ltac:(lia))). cbn [bind].
  rewrite (proj2 (@tensor_row_checked (direction s) 1 Hdir ltac:(lia))). cbn [bind].
  rewrite (proj2 (@tensor_row_checked (direction s) 2 Hdir ltac:(lia))). cbn [bind].
  rewrite (int_some (z := N * tensor_at (direction s) 0))
    by (unfold INT_MAX, INT_MIN in *; nia).
  cbn [bind].
  rewrite (int_some (z := N * tensor_at (direction s) 1))
    by (unfold INT_MAX, INT_MIN in *; nia).
  cbn [bind].
  rewrite (int_some (z := N * tensor_at (direction s) 2))
    by (unfold INT_MAX, INT_MIN in *; nia).
  cbn [bind].
  rewrite (int_some (z := N * 2)) by (unfold INT_MAX, INT_MIN in *; lia).
  cbn [bind].
  destruct (Z.eqb_spec (-1) (group_method s)) as [Eg|Eg].
  - assert (HNg : N <= group_size s) by (apply Hall; lia).
    assert (P0 : 0 <= N * tensor_at (direction s) 0 /\
                 N * tensor_at (direction s) 0 + N <= len vir) by nia.
    assert (P1 : 0 <= N * tensor_at (direction s) 1 /\
                 N * tensor_at (direction s) 1 + N <= len vir) by nia.
    assert (P2 : 0 <= N * tensor_at (direction s) 2 /\
                 N * tensor_at (direction s) 2 + N <= len vir) by nia.
    rewrite (@cudaMemcpy_checked_some D SD (sx s))
      by (cbn [p_arr p_base data_at]; rewrite ?(ws_sx W); lia).
    cbn [bind].
    rewrite (@cudaMemcpy_checked_some D SD (sy s))
      by (cbn [p_arr p_base data_at]; rewrite ?(ws_sy W); lia).
    cbn [bind].
    rewrite (@cudaMemcpy_checked_some D SD (sz s))
      by (cbn [p_arr p_base data_at]; rewrite ?(ws_sz W); lia).
    cbn [bind].
    rewrite (@cudaMemcpy_checked_some D SD (vx s))
      by (cbn [p_arr p_base data_at]; rewrite ?(ws_vx W); lia).
    cbn [bind].
    rewrite (@cudaMemcpy_checked_some D SD (vy s))
      by (cbn [p_arr p_base data_at]; rewrite ?(ws_vy W); lia).
    cbn [bind].
    rewrite (@cudaMemcpy_checked_some D SD (vz s))
      by (cbn [p_arr p_base data_at]; rewrite ?(ws_vz W); lia).
    cbn [bind].
    reflexivity.
  - destruct Hsel as (S1 & S2 & S3 & S4 & S5 & S6 & S7 & S8); [congruence|].
    rewrite <- Hsel_size in * by congruence.
    rewrite (checked_get_some no_group group) by lia. cbn [bind].
    rewrite (checked_get_some 0 (cpu_size_sum _)) by lia. cbn [bind].
    rewrite (int_some (z := group_size s - 1))
      by (unfold INT_MAX, INT_MIN, BLOCK_SIZE_SHC in *; lia).
    cbn [bind].
    destruct (quot_rounds Hg) as [Q0 Q1].
    rewrite (int_some (z := Z.quot (group_size s - 1) BLOCK_SIZE_SHC + 1))
      by (unfold INT_MAX, INT_MIN, BLOCK_SIZE_SHC in *; lia).
    cbn [bind].
    rewrite (@gpu_copy_data_checked_some D SD (group_size s)
               (Arr.get 0 (cpu_size_sum (Arr.get no_group group (group_method s)))
                  (group_id s))
               (contents (Arr.get no_group group (group_method s)))
               (offset_of s step) N (group_size s * Nc s)); auto; try lia.
    + intros m Hm'. cbn [p_arr p_base data_at]. repeat split; nia.
    + unfold ring_of. cbn [b_sx b_sy b_sz b_vx b_vy b_vz].
      repeat split; apply W.
Qed.

Lemma store_sample_well_sized : well_sized (store_sample step group vel vir s).
Proof.
  pose proof (store_sample_frame step group vel vir s) as F.
  pose proof (store_sample_length step group vel vir s) as L.
  destruct F as (F1 & F2 & F3 & F4 & F5 & F6 & F7 & F8 & F9 & F10 & F11 & F12).
  destruct L as (L1 & L2 & L3 & L4 & L5 & L6).
  destruct W; constructor; congruence.
Qed.

Lemma process_checked_some :
  process_checked step group vel vir s = Some (process step group vel vir s).
Proof.
  pose proof (ws_interval W) as Hi. pose proof (ws_Nc W) as Hn.
  unfold process_checked, process.
  destruct (compute s); cbn [negb]; auto.
  rewrite (int_some (z := step + 1)) by (unfold INT_MAX, INT_MIN in *; lia).
  cbn [bind].
  assert (Q : 0 <= Z.quot (step + 1) (sample_interval s) <= step + 1).
  { rewrite Z.quot_div_nonneg by lia. split.
    - apply Z.div_pos; lia.
    - apply Z.div_le_upper_bound; nia. }
  rewrite int_rem_some by (unfold INT_MAX, INT_MIN in *; lia). cbn [bind].
  destruct (Z.rem (step + 1) (sample_interval s) =? 0); cbn [negb]; auto.
  rewrite store_sample_checked_some. cbn [bind].
  rewrite (proj1 (sample_step_checked_some W Hstep)). cbn [bind].
  rewrite (int_some (z := Nc s - 1)) by (unfold INT_MAX, INT_MIN in *; lia).
  cbn [bind].
  destruct (Nc s - 1 <=? sample_step_of s step); auto.
  pose proof (store_sample_frame step group vel vir s) as F.
  destruct F as (F1 & F2 & F3 & F4 & F5 & F6 & F7 & F8 & F9 & F10 & F11 & F12).
  apply reduce_checked_some; auto using store_sample_well_sized; congruence.
Qed.

End CheckedStep.

Lemma fold_checked_app {A B} (f : A -> B -> option A) (l1 l2 : list B) (a : A) :
  fold_checked f (l1 ++ l2) a = a' <- fold_checked f l1 a ;; fold_checked f l2 a'.
Proof.
  revert a; induction l1 as [|x l1 IH]; intros a; simpl; auto.
  destruct (f a x); simpl; auto.
Qed.

Section CheckedRun.
Context {D : Type} {SD : Scalar D}.
Variables (N : Z) (group : list Group) (velocity virial : Z -> list D).
Variables (s : SHC D) (T : Z).
Hypothesis Hc : compute s = true.
Hypothesis W : well_sized s.
Hypothesis H0 : num_time_origins s = 0.
Hypothesis HT : T <= INT_MAX.
Hypothesis Hsize : group_size s * Nc s <= INT_MAX.
Hypothesis Hblock : group_size s + BLOCK_SIZE_SHC <= INT_MAX.
Hypothesis Hnc : Nc s * 2 <= INT_MAX.
Hypothesis Hdir : 0 <= direction s <= 2.
Hypothesis HN8 : N * 8 <= INT_MAX.
Hypothesis Hall : group_method s = -1 -> N <= group_size s.
Hypothesis Hsel : valid_selection group N s.
Hypothesis Hsel_size : group_method s <> -1 ->
  group_size s
  = Arr.get 0 (cpu_size (Arr.get no_group group (group_method s))) (group_id s).
Hypothesis Hin : forall t, 0 <= t < T ->
  Z.quot (len (velocity t)) 3 = N /\ N * 9 <= len (virial t).

Lemma run_checked_some U :
  0 <= U -> U <= T ->
  run_checked group velocity virial U s = Some (run group velocity virial U s).
Proof.
  intros HU. pattern U. apply natlike_ind; auto.
  intros V HV IH HVT. specialize (IH ltac:(lia)).
  unfold Z.succ in *. rewrite run_succ by auto.
  unfold run_checked in *. rewrite range_succ, fold_checked_app, IH by auto.
  cbn [bind fold_checked].
  set (r := run group velocity virial V s).
  destruct (run_config group velocity virial V s) as (C1 & C2 & C3 & C4 & C5 & C6 & C7).
  fold r in C1, C2, C3, C4, C5, C6, C7.
  pose proof (run_well_sized group velocity virial V W) as Wr. fold r in Wr.
  pose proof (ws_interval W) as Hi. pose proof (ws_Nc W) as Hn.
  destruct (run_counter group velocity virial s Hc Hi Hn HV) as [Hcnt _].
  fold r in Hcnt. rewrite H0 in Hcnt.
  assert (Hq : 0 <= V / sample_interval s <= V).
  { split; [apply Z.div_pos; lia | apply Z.div_le_upper_bound; nia]. }
  destruct (Hin (t := V)) as [I1 I2]; [lia|].
  assert (Hr : process_checked V group (velocity V) (virial V) r
               = Some (process V group (velocity V) (virial V) r)).
  { apply (@process_checked_some D SD V N group (velocity V) (virial V) r); auto;
      rewrite ?C3, ?C4, ?C5, ?C6, ?C7; auto; try lia.
    unfold valid_selection. rewrite C5, C6. exact Hsel. }
  rewrite Hr. reflexivity.
Qed.

End CheckedRun.

Lemma preprocess_checked_some {D} {SD : Scalar D} (junk : Z -> Z -> D) N group
    (cfg : SHC D) :
  0 <= N -> 0 < Nc cfg -> valid_selection group N cfg ->
  group_size (preprocess junk N group cfg) * Nc cfg <= INT_MAX ->
  preprocess_checked junk N group cfg = Some (preprocess junk N group cfg) /\
  (compute cfg = true -> 0 <= group_size (preprocess junk N group cfg)).
Proof.
  intros HN Hn Hsel. unfold preprocess_checked, preprocess.
  destruct (compute cfg); cbn [negb]; [|split; auto; discriminate].
  cbn [group_size].
  destruct (Z.eqb_spec (-1) (group_method cfg)) as [Eg|Eg]; intros Hsize.
  - cbn [bind].
    rewrite int_some by (unfold INT_MAX, INT_MIN in *; nia). cbn [bind].
    destruct (Z.ltb_spec (N * Nc cfg) 0); [nia|]. auto.
  - destruct Hsel as (S1 & S2 & S3 & S4 & S5 & S6 & S7 & S8); [congruence|].
    rewrite (checked_get_some no_group group) by lia. cbn [bind].
    rewrite (checked_get_some 0 (cpu_size _)) by lia. cbn [bind].
    rewrite int_some by (unfold INT_MAX, INT_MIN in *; nia). cbn [bind].
    match goal with |- context [?a <? 0] => destruct (Z.ltb_spec a 0); [nia|] end.
    auto.
Qed.

(** X8.  A run stays inside its arrays and inside [int].  Take an engine
    that [parse] accepted and [preprocess] set up for [N] particles, and
    run steps [0, ..., T-1] on inputs of [N] particles each: a velocity
    array of at least [3 N] and a virial array of at least [9 N] elements.
    If the selector, when there is one, names a group of the registry whose
    slice of [contents] lies inside that array and holds particle indices
    below [N], and if [group_size * Nc], [8 N] and [T] fit in an [int], then
    the checked execution of [preprocess] and of every call of [process]
    succeeds and gives the state the model computes.  So, in every kernel
    launch and every copy of the run, each subscript of the ring buffer, of
    the accumulators, of the shared arrays, of the inputs, of the [tensor]
    table and of the group registry lies inside its array, no [int]
    expression overflows and no divisor is zero. *)
Theorem run_stays_in_bounds {D} {SD : Scalar D}
    (is_valid_int : string -> option Z)
    (parse_group : list string -> Z -> bool -> list Group -> Z -> option (Z * Z))
    (param : list string) (group : list Group) (s cfg : SHC D)
    (junk : Z -> Z -> D) (N : Z) (velocity virial : Z -> list D) (T : Z) :
  parse is_valid_int parse_group param group s = Ok cfg ->
  let s0 := preprocess junk N group cfg in
  0 <= N -> N * 8 <= INT_MAX ->
  valid_selection group N cfg ->
  group_size s0 * Nc cfg <= INT_MAX ->
  0 <= T <= INT_MAX ->
  (forall t, 0 <= t < T ->
     Z.quot (len (velocity t)) 3 = N /\ N * 9 <= len (virial t)) ->
  preprocess_checked junk N group cfg = Some s0 /\
  run_checked group velocity virial T s0 = Some (run group velocity virial T s0).
Proof.
  intros Hp s0 HN HN8 Hsel Hsize HT Hin.
  destruct (parse_ok _ _ _ _ _ Hp) as (Hc & Hi & Hn & Hd & _).
  destruct (@preprocess_checked_some D SD junk N group cfg HN ltac:(lia) Hsel Hsize)
    as [Epre Hg].
  fold s0 in Epre, Hg. specialize (Hg Hc).
  split; [exact Epre|].
  destruct (preprocess_state junk N group cfg Hc)
    as (S1 & S2 & S3 & S4 & S5 & S6 & S7 & _).
  fold s0 in S1, S2, S3, S4, S5, S6, S7.
  assert (W0 : well_sized s0) by (apply preprocess_well_sized; auto; lia).
  assert (Egs : group_size s0
                = if -1 =? group_method cfg then N
                  else Arr.get 0 (cpu_size (Arr.get no_group group (group_method cfg)))
                         (group_id cfg))
    by (unfold s0, preprocess; rewrite Hc; reflexivity).
  apply (@run_checked_some D SD N group velocity virial s0 T); auto;
    rewrite ?S2, ?S3, ?S4, ?S5, ?S6; auto; try lia.
  - unfold INT_MAX, BLOCK_SIZE_SHC in *. nia.
  - unfold INT_MAX in *. lia.
  - intros Eg. rewrite Egs, Eg. cbn. lia.
  - unfold valid_selection. rewrite S5, S6. exact Hsel.
  - intros Eg. rewrite Egs. destruct (Z.eqb_spec (-1) (group_method cfg)); congruence.
Qed.

Lemma run_stays_in_bounds_witness :
  run_checked [] (fun _ => unit_velocity) (fun _ => unit_virial) 120
    (preprocess (fun _ _ => 0%Q) 2 [] configured)
  = Some (run [] (fun _ => unit_velocity) (fun _ => unit_virial) 120
            (preprocess (fun _ _ => 0%Q) 2 [] configured)).
Proof.
  refine (proj2
    (@run_stays_in_bounds Q _ decimal_int (registry_parse_group decimal_int)
       plain_params [] blank configured (fun _ _ => 0%Q) 2
       (fun _ => unit_velocity) (fun _ => unit_virial) 120 eq_refl _ _ _ _ _ _)).
  - discriminate.
  - discriminate.
  - intros H. exfalso. apply H. reflexivity.
  - vm_compute. discriminate.
  - split; discriminate.
  - intros t _. split; [reflexivity | vm_compute; discriminate].
Defined.

(** * The order of the threads of [gpu_copy_data] *)

Lemma set_set_comm {A} (d : A) (a : list A) i j u w :
  i <> j -> Arr.set (Arr.set a i u) j w = Arr.set (Arr.set a j w) i u.
Proof.
  intros Hne. apply (@ArrFacts.ext A d).
  - now rewrite !length_set.
  - intros k _. rewrite !get_set, !length_set.
    destruct (Z.eqb_spec j k), (Z.eqb_spec i k); simpl; auto; congruence.
Qed.

Section CopyOrder.
Context {D : Type} {SD : Scalar D}.
Variables (blockDim group_size offset : Z) (g_group_contents : list Z) (o_base : Z).
Variables (g_sx_i g_sy_i g_sz_i g_vx_i g_vy_i g_vz_i : Ptr D).

Let thread := fun (o : Bufs D) (bt : Z * Z) =>
  copy_data_thread blockDim group_size offset g_group_contents o_base
    g_sx_i g_sy_i g_sz_i g_vx_i g_vy_i g_vz_i (fst bt) o (snd bt).

(** Two threads may be exchanged: they store to different elements, or
    they are the same particle and store the same values. *)
Lemma copy_threads_commute o bt1 bt2 :
  thread (thread o bt1) bt2 = thread (thread o bt2) bt1.
Proof.
  unfold thread, copy_data_thread.
  set (n1 := snd bt1 + fst bt1 * blockDim). set (n2 := snd bt2 + fst bt2 * blockDim).
  destruct (n1 <? group_size), (n2 <? group_size); cbn [b_sx b_sy b_sz b_vx b_vy b_vz];
    auto.
  destruct (Z.eq_dec n1 n2) as [->|Hne]; [reflexivity|].
  assert (Hb : o_base + n1 <> o_base + n2) by lia.
  f_equal; apply (set_set_comm dzero); auto.
Qed.

Lemma copy_threads_perm (l1 l2 : list (Z * Z)) :
  Permutation l1 l2 -> forall o, fold_left thread l1 o = fold_left thread l2 o.
Proof.
  induction 1 as [| x l l' _ IH | x y l | l l' l'' _ IH1 _ IH2]; intros o; simpl; auto.
  - now rewrite copy_threads_commute.
  - now rewrite IH1, IH2.
Qed.

Lemma gpu_copy_data_threads gridDim o :
  gpu_copy_data gridDim blockDim group_size offset g_group_contents o_base
    g_sx_i g_sy_i g_sz_i g_vx_i g_vy_i g_vz_i o
  = fold_left thread (launch_threads gridDim blockDim) o.
Proof.
  unfold gpu_copy_data, launch_threads.
  generalize (Arr.range gridDim) as bids. intros bids; revert o.
  induction bids as [|b bs IH]; intros o; simpl; auto.
  rewrite fold_left_app, <- IH. f_equal.
  generalize (Arr.range blockDim) as tids. intros tids; revert o.
  induction tids as [|t ts IHt]; intros o; simpl; auto.
Qed.

End CopyOrder.

(** X10.  The threads of a [gpu_copy_data] launch may execute in any
    order: running them in any permutation of the launch order leaves the
    same six output arrays.  Two threads either store to different
    elements or, when their global index coincides, store the same
    values. *)
Theorem copy_data_thread_order_immaterial {D} {SD : Scalar D}
    (threads : list (Z * Z))
    (gridDim blockDim group_size offset : Z) (g_group_contents : list Z) (o_base : Z)
    (g_sx_i g_sy_i g_sz_i g_vx_i g_vy_i g_vz_i : Ptr D) (o : Bufs D) :
  Permutation threads (launch_threads gridDim blockDim) ->
  copy_data_in_order threads blockDim group_size offset g_group_contents o_base
    g_sx_i g_sy_i g_sz_i g_vx_i g_vy_i g_vz_i o
  = gpu_copy_data gridDim blockDim group_size offset g_group_contents o_base
      g_sx_i g_sy_i g_sz_i g_vx_i g_vy_i g_vz_i o.
Proof.
  intros Hp. rewrite gpu_copy_data_threads. unfold copy_data_in_order.
  now apply copy_threads_perm.
Qed.

Lemma copy_data_thread_order_immaterial_witness :
  copy_data_in_order [(0, 1); (0, 0)] 2 3 0 (contents (Arr.get no_group ten_groups 0)) 3
    (data_at (ramp 9) 0) (data_at (ramp 9) 30) (data_at (ramp 9) 40)
    (data_at (ramp 3) 0) (data_at (ramp 3) 10) (data_at (ramp 3) 20)
    (ring_of subset_engine)
  = gpu_copy_data 1 2 3 0 (contents (Arr.get no_group ten_groups 0)) 3
      (data_at (ramp 9) 0) (data_at (ramp 9) 30) (data_at (ramp 9) 40)
      (data_at (ramp 3) 0) (data_at (ramp 3) 10) (data_at (ramp 3) 20)
      (ring_of subset_engine).
Proof.
  apply (@copy_data_thread_order_immaterial Q _ [(0, 1); (0, 0)] 1 2).
  change (launch_threads 1 2) with [(0, 0); (0, 1)].
  apply perm_swap.
Defined.
